(** * PINNS: a physics-informed network for the 1-D wave equation

    Shallow embedding of [pinns.py].  Tensors are the nodes of the autograd
    graph: a node records how the tensor was produced, its shape is computed
    from the node ([shape_of], [None] where torch raises a shape error) and
    its elements are computed from the node and the store of parameters
    ([data]).  Floats are idealised as real numbers, so rounding, infinities
    and NaN are not represented.  [torch.autograd.grad] is reverse-mode
    differentiation over the graph with [create_graph=True]: the gradient is
    itself a node, built with the backward formula of every operation. *)

From Stdlib Require Import String Ascii DecimalString.
From Stdlib Require Import List Arith ZArith Lia Reals Lra Bool.
Import ListNotations.

Set Implicit Arguments.

(** ** Shapes *)

Definition shape := list nat.

Definition numel (sh : shape) : nat := fold_right Nat.mul 1%nat sh.

Fixpoint shape_eqb (a b : shape) : bool :=
  match a, b with
  | [], [] => true
  | x :: a', y :: b' => Nat.eqb x y && shape_eqb a' b'
  | _, _ => false
  end.

(** [t.reshape(dims)]: at most one entry may be -1 and is inferred. *)
Definition known_dims (dims : list Z) : list Z := filter (fun d => negb (Z.eqb d (-1))) dims.

Definition resolve_dims (dims : list Z) (n : nat) : option shape :=
  let known := known_dims dims in
  let p := Z.to_nat (fold_right Z.mul 1%Z known) in
  if existsb (fun d => Z.ltb d 0) known then None
  else match (length dims - length known)%nat with
       | O => if Nat.eqb p n then Some (map Z.to_nat dims) else None
       | S O =>
           if Nat.eqb p 0 then None
           else if Nat.eqb (n mod p) 0
                then Some (map (fun d => if Z.eqb d (-1) then (n / p)%nat else Z.to_nat d) dims)
                else None
       | _ => None
       end.

(** Python indexing [a[i]] along the first dimension of length [n]. *)
Definition py_index (i : Z) (n : nat) : option nat :=
  if (Z.leb 0 i && Z.ltb i (Z.of_nat n))%bool then Some (Z.to_nat i)
  else if (Z.ltb i 0 && Z.leb (- Z.of_nat n) i)%bool then Some (Z.to_nat (i + Z.of_nat n))
  else None.

(** ** Python floats that enter the graph *)

Inductive scalar : Type :=
| SRat (n : Z) (d : positive)    (* a literal: 0.5 is [SRat 1 2], the int 2 is [SRat 2 1] *)
| SPi                            (* np.pi *)
| SArg (k : nat)                 (* a float argument, read from the store *)
| SMul (a b : scalar)
| SDiv (a b : scalar)
| SPow (a : scalar) (n : nat).

(** ** The autograd graph *)

Inductive unop : Type :=
| UTanh | USin | UCos | UNeg
| UScale (s : scalar)            (* s * a *)
| URsub (s : scalar)             (* s - a *)
| UPow (n : nat).                (* a.pow(n) *)

Inductive binop : Type := BAdd | BSub | BMul.

Inductive expr : Type :=
| Linspace (id : nat) (rg : bool) (lo hi : scalar) (steps : nat)
| Fill (id : nat) (rg : bool) (z : Z) (sh : shape)     (* ones_like, zeros_like *)
| Un (u : unop) (a : expr)
| Bin (o : binop) (a b : expr)                         (* operands of one shape *)
| Mean (a : expr)
| Expand (sh : shape) (a : expr)                       (* a one-element tensor broadcast to sh *)
| SumTo (sh : shape) (a : expr)                        (* sum_to_size onto a one-element shape *)
| Reshape (dims : list Z) (a : expr)
| Index (i : Z) (a : expr)                             (* a[i] *)
| Unindex (n : nat) (i : Z) (a : expr)                 (* zeros of n rows with a stored at row i *)
| ExpandCols (m : nat) (a : expr)                      (* [n] -> [n,m], meshgrid first output *)
| ExpandRows (n : nat) (a : expr)                      (* [m] -> [n,m], meshgrid second output *)
| SumCols (a : expr)                                   (* [n,m] -> [n] *)
| SumRows (a : expr)                                   (* [n,m] -> [m] *)
| Cat1 (a b : expr)                                    (* torch.cat([a, b], dim=1) *)
| Narrow1 (start len : nat) (a : expr)                 (* a[:, start:start+len] *)
| PadCols (l r : nat) (a : expr)                       (* zero columns on both sides *)
| Affine (w inF outF : nat) (tr : bool) (bias : option nat) (a : expr).
    (* w names a parameter of shape [outF,inF]; tr = false: a @ W^T + bias, tr = true: a @ W *)

Definition scalar_eq_dec : forall a b : scalar, {a = b} + {a <> b}.
Proof.
  decide equality; auto using Z.eq_dec, Pos.eq_dec, Nat.eq_dec.
Defined.

Definition unop_eq_dec : forall a b : unop, {a = b} + {a <> b}.
Proof.
  decide equality; auto using scalar_eq_dec, Nat.eq_dec.
Defined.

Definition binop_eq_dec : forall a b : binop, {a = b} + {a <> b}.
Proof.
  decide equality.
Defined.

Definition shape_eq_dec : forall a b : shape, {a = b} + {a <> b} := list_eq_dec Nat.eq_dec.

Definition dims_eq_dec : forall a b : list Z, {a = b} + {a <> b} := list_eq_dec Z.eq_dec.

Definition bias_eq_dec : forall a b : option nat, {a = b} + {a <> b}.
Proof.
  decide equality; auto using Nat.eq_dec.
Defined.

Definition expr_eq_dec : forall a b : expr, {a = b} + {a <> b}.
Proof.
  decide equality;
    auto using scalar_eq_dec, unop_eq_dec, binop_eq_dec, Nat.eq_dec, Z.eq_dec,
      Bool.bool_dec, shape_eq_dec, dims_eq_dec, bias_eq_dec.
Defined.

(** Two tensors are the same node when they were produced the same way from
    the same created tensors (every creation site has its own [id]). *)
Definition expr_eqb (a b : expr) : bool := if expr_eq_dec a b then true else false.

Fixpoint shape_of (e : expr) : option shape :=
  match e with
  | Linspace _ _ _ _ steps => Some [steps]
  | Fill _ _ _ sh => Some sh
  | Un _ a => shape_of a
  | Bin _ a b =>
      match shape_of a, shape_of b with
      | Some sa, Some sb => if shape_eqb sa sb then Some sa else None
      | _, _ => None
      end
  | Mean a => match shape_of a with Some _ => Some [] | None => None end
  | Expand sh a =>
      match shape_of a with
      | Some sa => if (Nat.eqb (numel sa) 1 && Nat.leb (length sa) (length sh))%bool
                   then Some sh else None
      | None => None
      end
  | SumTo sh a =>
      match shape_of a with
      | Some sa => if (Nat.eqb (numel sh) 1 && Nat.leb (length sh) (length sa))%bool
                   then Some sh else None
      | None => None
      end
  | Reshape dims a =>
      match shape_of a with
      | Some sa => resolve_dims dims (numel sa)
      | None => None
      end
  | Index i a =>
      match shape_of a with
      | Some (n :: rest) => match py_index i n with Some _ => Some rest | None => None end
      | _ => None
      end
  | Unindex n i a =>
      match shape_of a with
      | Some sa => match py_index i n with Some _ => Some (n :: sa) | None => None end
      | None => None
      end
  | ExpandCols m a =>
      match shape_of a with
      | Some [n] => Some [n; m]
      | _ => None
      end
  | ExpandRows n a =>
      match shape_of a with
      | Some [m] => Some [n; m]
      | _ => None
      end
  | SumCols a =>
      match shape_of a with
      | Some [n; _] => Some [n]
      | _ => None
      end
  | SumRows a =>
      match shape_of a with
      | Some [_; m] => Some [m]
      | _ => None
      end
  | Cat1 a b =>
      match shape_of a, shape_of b with
      | Some [n; p], Some [n'; q] => if Nat.eqb n n' then Some [n; (p + q)%nat] else None
      | _, _ => None
      end
  | Narrow1 start len a =>
      match shape_of a with
      | Some [n; c] => if Nat.leb (start + len) c then Some [n; len] else None
      | _ => None
      end
  | PadCols l r a =>
      match shape_of a with
      | Some [n; c] => Some [n; (l + c + r)%nat]
      | _ => None
      end
  | Affine _ inF outF tr _ a =>
      match shape_of a with
      | Some [n; c] =>
          if Nat.eqb c (if tr then outF else inF)
          then Some [n; if tr then inF else outF] else None
      | _ => None
      end
  end.

(** The shape where it is known to exist (used inside backward formulas). *)
Definition shp (e : expr) : shape :=
  match shape_of e with Some sh => sh | None => [] end.

(** [t.requires_grad]: a created tensor carries its flag, parameters of a
    layer always require grad, a result requires grad when an operand does. *)
Fixpoint requires_grad (e : expr) : bool :=
  match e with
  | Linspace _ rg _ _ _ => rg
  | Fill _ rg _ _ => rg
  | Un _ a | Mean a | Expand _ a | SumTo _ a | Reshape _ a | Index _ a | Unindex _ _ a
  | ExpandCols _ a | ExpandRows _ a | SumCols a | SumRows a | Narrow1 _ _ a | PadCols _ _ a =>
      requires_grad a
  | Bin _ a b | Cat1 a b => requires_grad a || requires_grad b
  | Affine _ _ _ _ _ _ => true
  end.

(** [torch.ones_like(e, requires_grad=rg)] and [torch.zeros_like(e)]; [id]
    names the creation site. *)
Definition ones_like (id : nat) (rg : bool) (e : expr) : expr := Fill id rg 1 (shp e).
Definition zeros_like (id : nat) (e : expr) : expr := Fill id false 0 (shp e).

(** [e.requires_grad = True] on a created tensor.  On a computed tensor that
    already requires grad the assignment changes nothing. *)
Definition set_requires_grad (e : expr) : expr :=
  match e with
  | Linspace id _ lo hi steps => Linspace id true lo hi steps
  | Fill id _ z sh => Fill id true z sh
  | _ => e
  end.

(** ** torch.autograd.grad *)

Inductive error : Type :=
| ShapeError           (* an operand of the graph has no valid shape *)
| GradShapeMismatch    (* "Mismatch in shape: grad_output[0] has a shape of ..." *)
| OutputNoGrad         (* "element 0 of tensors does not require grad and does not have a grad_fn" *)
| InputNoGrad          (* "One of the differentiated Tensors does not require grad" *)
| UnusedInput.         (* "One of the differentiated Tensors appears to not have been used in the graph" *)

Inductive result (A : Type) : Type :=
| Ok (a : A)
| Err (e : error).

Arguments Ok {A} a.
Arguments Err {A} e.

Definition bind {A B : Type} (r : result A) (k : A -> result B) : result B :=
  match r with
  | Ok a => k a
  | Err e => Err e
  end.

Notation "x <- r ;; k" := (bind r (fun x => k))
  (at level 61, r at next level, right associativity).

(** Backward formula of an elementwise operation: the gradient sent to the
    operand [a], given the gradient [g] that reached the result. *)
Definition un_backward (u : unop) (a g : expr) : expr :=
  match u with
  | UTanh => Bin BMul g (Un (URsub (SRat 1 1)) (Bin BMul (Un UTanh a) (Un UTanh a)))
  | USin => Bin BMul g (Un UCos a)
  | UCos => Bin BMul g (Un UNeg (Un USin a))
  | UNeg => Un UNeg g
  | UScale s => Un (UScale s) g
  | URsub _ => Un UNeg g
  | UPow O => zeros_like 0 a
  | UPow (S k) => Bin BMul g (Un (UScale (SRat (Z.of_nat (S k)) 1)) (Un (UPow k) a))
  end.

(** Gradients that reach the same tensor along two paths are added. *)
Definition accumulate (p q : option expr) : option expr :=
  match p, q with
  | Some x, Some y => Some (Bin BAdd x y)
  | Some x, None => Some x
  | None, r => r
  end.

(** The vector-Jacobian product of [e] with respect to the node [target],
    started with the gradient [g] on [e]; [None] when no path of the graph
    leads from [e] to [target]. *)
Fixpoint vjp (target e g : expr) : option expr :=
  if expr_eqb e target then Some g
  else
    match e with
    | Linspace _ _ _ _ _ => None
    | Fill _ _ _ _ => None
    | Un u a => vjp target a (un_backward u a g)
    | Bin BAdd a b => accumulate (vjp target a g) (vjp target b g)
    | Bin BSub a b => accumulate (vjp target a g) (vjp target b (Un UNeg g))
    | Bin BMul a b => accumulate (vjp target a (Bin BMul g b)) (vjp target b (Bin BMul g a))
    | Mean a =>
        vjp target a
          (Un (UScale (SDiv (SRat 1 1) (SRat (Z.of_nat (numel (shp a))) 1))) (Expand (shp a) g))
    | Expand _ a => vjp target a (SumTo (shp a) g)
    | SumTo _ a => vjp target a (Expand (shp a) g)
    | Reshape _ a => vjp target a (Reshape (map Z.of_nat (shp a)) g)
    | Index i a => vjp target a (Unindex (hd O (shp a)) i g)
    | Unindex _ i a => vjp target a (Index i g)
    | ExpandCols _ a => vjp target a (SumCols g)
    | ExpandRows _ a => vjp target a (SumRows g)
    | SumCols a => vjp target a (ExpandCols (nth 1 (shp a) O) g)
    | SumRows a => vjp target a (ExpandRows (hd O (shp a)) g)
    | Cat1 a b =>
        accumulate (vjp target a (Narrow1 0 (nth 1 (shp a) O) g))
                   (vjp target b (Narrow1 (nth 1 (shp a) O) (nth 1 (shp b) O) g))
    | Narrow1 start len a =>
        vjp target a (PadCols start (nth 1 (shp a) O - start - len) g)
    | PadCols l _ a => vjp target a (Narrow1 l (nth 1 (shp a) O) g)
    | Affine w inF outF tr _ a => vjp target a (Affine w inF outF (negb tr) None g)
    end.

(** [torch.autograd.grad(outputs, inputs, grad_outputs=..., create_graph=True,
    retain_graph=True)[0]]. *)
Definition grad (outputs inputs grad_outputs : expr) : result expr :=
  match shape_of outputs, shape_of grad_outputs with
  | Some so, Some sg =>
      if negb (shape_eqb sg so) then Err GradShapeMismatch
      else if negb (requires_grad outputs) then Err OutputNoGrad
      else if negb (requires_grad inputs) then Err InputNoGrad
      else match vjp inputs outputs grad_outputs with
           | Some d => Ok d
           | None => Err UnusedInput
           end
  | _, _ => Err ShapeError
  end.

(** ** The derivative helpers of the source *)

Fixpoint df_loop (order : nat) (df_value input_var : expr) : result expr :=
  match order with
  | O => Ok df_value
  | S k =>
      d <- grad df_value input_var (ones_like 0 false input_var) ;;
      df_loop k d input_var
  end.

Definition df (output input_var : expr) (order : nat) : result expr :=
  df_loop order output input_var.

(** ** Values *)

Open Scope R_scope.

(** The parameters of the layers (mutated by the optimizer) and the float
    arguments of the program. *)
Record store : Type := mkStore { param : nat -> list R; farg : nat -> R }.

Fixpoint sval (st : store) (s : scalar) : R :=
  match s with
  | SRat n d => IZR n / IZR (Zpos d)
  | SPi => PI
  | SArg k => farg st k
  | SMul a b => sval st a * sval st b
  | SDiv a b => sval st a / sval st b
  | SPow a n => sval st a ^ n
  end.

Definition sum (l : list R) : R := fold_right Rplus 0 l.

Fixpoint zip_with {A B C : Type} (f : A -> B -> C) (l : list A) (m : list B) : list C :=
  match l, m with
  | a :: l', b :: m' => f a b :: zip_with f l' m'
  | _, _ => []
  end.

(** The rows of a row-major matrix with [k] columns. *)
Fixpoint chunks (rows k : nat) (l : list R) : list (list R) :=
  match rows with
  | O => []
  | S r => firstn k l :: chunks r k (skipn k l)
  end.

Definition dot (u v : list R) : R := sum (zip_with Rmult u v).

Definition columns (c : nat) (m : list (list R)) : list (list R) :=
  map (fun k => map (fun row => nth k row 0) m) (seq 0 c).

(** [torch.linspace(lo, hi, steps)]: lo, lo + (hi-lo)/(steps-1), ..., hi. *)
Definition linspace_data (lo hi : R) (steps : nat) : list R :=
  map (fun i => lo + INR i * ((hi - lo) / INR (steps - 1))) (seq 0 steps).

Definition un_val (st : store) (u : unop) (v : R) : R :=
  match u with
  | UTanh => tanh v
  | USin => sin v
  | UCos => cos v
  | UNeg => - v
  | UScale s => sval st s * v
  | URsub s => sval st s - v
  | UPow n => v ^ n
  end.

Definition bin_val (o : binop) (u v : R) : R :=
  match o with
  | BAdd => u + v
  | BSub => u - v
  | BMul => u * v
  end.

(** One row through a layer: [r @ W^T + b] ([tr = false]) or [r @ W]. *)
Definition affine_row (st : store) (w inF outF : nat) (tr : bool) (bias : option nat)
    (r : list R) : list R :=
  let W := chunks outF inF (param st w) in
  let M := if tr then columns inF W else W in
  map (fun j => dot r (nth j M []) +
                match bias with Some b => nth j (param st b) 0 | None => 0 end)
      (seq 0 (if tr then inF else outF)).

Fixpoint data (st : store) (e : expr) : list R :=
  match e with
  | Linspace _ _ lo hi steps => linspace_data (sval st lo) (sval st hi) steps
  | Fill _ _ z sh => repeat (IZR z) (numel sh)
  | Un u a => map (un_val st u) (data st a)
  | Bin o a b => zip_with (bin_val o) (data st a) (data st b)
  | Mean a => [sum (data st a) / INR (length (data st a))]
  | Expand sh a => repeat (hd 0 (data st a)) (numel sh)
  | SumTo _ a => [sum (data st a)]
  | Reshape _ a => data st a
  | Index i a =>
      match py_index i (hd O (shp a)) with
      | Some k => firstn (numel (tl (shp a))) (skipn (k * numel (tl (shp a))) (data st a))
      | None => []
      end
  | Unindex n i a =>
      match py_index i n with
      | Some k => repeat 0 (k * numel (shp a)) ++ data st a
                  ++ repeat 0 ((n - k - 1) * numel (shp a))
      | None => []
      end
  | ExpandCols m a => flat_map (fun v => repeat v m) (data st a)
  | ExpandRows n a => concat (repeat (data st a) n)
  | SumCols a => map sum (chunks (hd O (shp a)) (nth 1 (shp a) O) (data st a))
  | SumRows a =>
      fold_right (zip_with Rplus) (repeat 0 (nth 1 (shp a) O))
        (chunks (hd O (shp a)) (nth 1 (shp a) O) (data st a))
  | Cat1 a b =>
      concat (zip_with (@app R)
                (chunks (hd O (shp a)) (nth 1 (shp a) O) (data st a))
                (chunks (hd O (shp b)) (nth 1 (shp b) O) (data st b)))
  | Narrow1 start len a =>
      flat_map (fun row => firstn len (skipn start row))
        (chunks (hd O (shp a)) (nth 1 (shp a) O) (data st a))
  | PadCols l r a =>
      flat_map (fun row => repeat 0 l ++ row ++ repeat 0 r)
        (chunks (hd O (shp a)) (nth 1 (shp a) O) (data st a))
  | Affine w inF outF tr bias a =>
      flat_map (affine_row st w inF outF tr bias)
        (chunks (hd O (shp a)) (nth 1 (shp a) O) (data st a))
  end.

Record tensor : Type := mkTensor { tshape : shape; tdata : list R }.

(** The value of a node; [None] where building the node raises a shape error. *)
Definition eval (st : store) (e : expr) : option tensor :=
  match shape_of e with
  | Some sh => Some (mkTensor sh (data st e))
  | None => None
  end.

(** ** The network *)

Inductive layer : Type :=
| Linear (inF outF : nat)
| Tanh.

Record simple_NN2 : Type := mkNN { linear_tanh_stack : list layer }.

Definition simple_NN2_init : simple_NN2 :=
  mkNN [Linear 2 16; Tanh; Linear 16 32; Tanh; Linear 32 16; Tanh; Linear 16 1].

(** The [k]-th module of an [nn.Sequential] owns the parameters [k.weight]
    and [k.bias], stored under [2k] and [2k+1]. *)
Definition apply_layer (k : nat) (l : layer) (a : expr) : expr :=
  match l with
  | Linear inF outF => Affine (2 * k) inF outF false (Some (2 * k + 1)%nat) a
  | Tanh => Un UTanh a
  end.

Fixpoint sequential (k : nat) (ls : list layer) (a : expr) : expr :=
  match ls with
  | [] => a
  | l :: rest => sequential (S k) rest (apply_layer k l a)
  end.

Definition forward (model : simple_NN2) (x t : expr) : expr :=
  let x_stack := Cat1 x t in
  let out := sequential 0 (linear_tanh_stack model) x_stack in
  out.

Definition dfdt (model : simple_NN2) (x t : expr) (order : nat) : result expr :=
  let f_value := forward model x t in
  df f_value t order.

Definition dfdx (model : simple_NN2) (x t : expr) (order : nat) : result expr :=
  let f_value := forward model x t in
  df f_value x order.

(** ** The loss *)

(** [a * b] between tensors: operands of one shape, or a one-element operand
    broadcast to the other (the only broadcast the program performs). *)
Definition tmul (a b : expr) : expr :=
  if shape_eqb (shp a) (shp b) then Bin BMul a b
  else if Nat.eqb (numel (shp b)) 1 then Bin BMul a (Expand (shp a) b)
  else if Nat.eqb (numel (shp a)) 1 then Bin BMul (Expand (shp b) a) b
  else Bin BMul a b.

(** [t.to(device)] on the device the tensor already lives on. *)
Definition to_device (e : expr) : expr := e.

Definition initial_condition (x : expr) : expr :=
  let res := Un (UScale (SRat 1 2))
               (Reshape [-1; 1]%Z (Un USin (Un (UScale (SMul (SRat 2 1) SPi)) x))) in
  res.

(** Creation sites inside [compute_loss]. *)
Definition id_boundary_x0 : nat := 1.
Definition id_boundary_x1 : nat := 2.
Definition id_t_initial : nat := 3.

(** [dfdx(..., order=2) - (1/C**2) * dfdt(..., order=2)] on the two second
    derivatives. *)
Definition pde_residual (d2x d2t : expr) (C : scalar) : expr :=
  Bin BSub d2x (Un (UScale (SDiv (SRat 1 1) (SPow C 2))) d2t).

(** [torch.ones_like(t_idx, requires_grad=True).to(device) * x[i]] *)
Definition boundary_column (id : nat) (i : Z) (x t_idx : expr) : expr :=
  tmul (to_device (ones_like id true t_idx)) (Index i x).

(** [t_initial = torch.zeros_like(x_idx); t_initial.requires_grad = True] *)
Definition zero_time (x_idx : expr) : expr :=
  set_requires_grad (zeros_like id_t_initial x_idx).

Definition compute_loss (model : simple_NN2) (x t x_idx t_idx : expr) (C : scalar)
  : result expr :=
  (* PDE *)
  d2x <- dfdx model x t 2 ;;
  d2t <- dfdt model x t 2 ;;
  let pde_loss := pde_residual d2x d2t C in
  (* boundary conditions *)
  let boundary_x0 := boundary_column id_boundary_x0 0 x t_idx in
  let boundary_loss_x0 := forward model boundary_x0 t_idx in
  let boundary_x1 := boundary_column id_boundary_x1 (-1) x t_idx in
  let boundary_loss_x1 := forward model boundary_x1 t_idx in
  (* initial conditions *)
  let f_initial := initial_condition x_idx in
  let t_initial := zero_time x_idx in
  let initial_loss_f := Bin BSub (forward model x_idx t_initial) f_initial in
  initial_loss_df <- dfdt model x_idx t_initial 1 ;;
  (* the final loss: every term averaged, the terms summed *)
  let final_loss :=
    Bin BAdd (Bin BAdd (Bin BAdd (Bin BAdd
      (Mean (Un (UPow 2) pde_loss))
      (Mean (Un (UPow 2) boundary_loss_x0)))
      (Mean (Un (UPow 2) boundary_loss_x1)))
      (Mean (Un (UPow 2) initial_loss_f)))
      (Mean (Un (UPow 2) initial_loss_df)) in
  Ok final_loss.

(** ** Collocation points (module level of the source) *)

(** [torch.meshgrid(a, b, indexing="ij")] of two 1-D tensors. *)
Definition meshgrid (a b : expr) : expr * expr :=
  (ExpandCols (hd O (shp b)) a, ExpandRows (hd O (shp a)) b).

Definition flatten (e : expr) : expr := Reshape [-1]%Z e.

Definition id_x_idx : nat := 10.
Definition id_t_idx : nat := 11.

Record collocation : Type :=
  mkCollocation { c_x_idx : expr; c_t_idx : expr; c_x : expr; c_t : expr }.

Definition build (x_domain : scalar * scalar) (n_points_x : nat)
    (t_domain : scalar * scalar) (n_points_t : nat) : collocation :=
  let x_idx := Linspace id_x_idx true (fst x_domain) (snd x_domain) n_points_x in
  let t_idx := Linspace id_t_idx true (fst t_domain) (snd t_domain) n_points_t in
  let grids := meshgrid x_idx t_idx in
  let x_idx' := to_device (Reshape [-1; 1]%Z x_idx) in
  let t_idx' := to_device (Reshape [-1; 1]%Z t_idx) in
  let x := to_device (Reshape [-1; 1]%Z (flatten (fst grids))) in
  let t := to_device (Reshape [-1; 1]%Z (flatten (snd grids))) in
  mkCollocation x_idx' t_idx' x t.

Definition x_domain : scalar * scalar := (SRat 0 1, SRat 1 1).
Definition n_points_x : nat := 100.
Definition t_domain : scalar * scalar := (SRat 0 1, SRat 1 1).
Definition n_points_t : nat := 150.

Definition grid : collocation := build x_domain n_points_x t_domain n_points_t.
Definition x_idx : expr := c_x_idx grid.
Definition t_idx : expr := c_t_idx grid.
Definition x : expr := c_x grid.
Definition t : expr := c_t grid.

Definition model : simple_NN2 := simple_NN2_init.

(** The default [C = 1.0] of [compute_loss], used by the training call. *)
Definition C_default : scalar := SRat 1 1.

(** ** Training (module level of the source) *)

(** What one epoch does, in order; the log is kept beside the state to
    count the phases of the run. *)
Inductive event : Type :=
| EvLoss (ep : nat) (value : R)     (* loss = compute_loss(...) *)
| EvZeroGrad (ep : nat)             (* optimizer.zero_grad() *)
| EvBackward (ep : nat)             (* loss.backward() *)
| EvStep (ep : nat).                (* optimizer.step() *)

Definition string_of_nat (n : nat) : string := NilEmpty.string_of_uint (Nat.to_uint n).

Section Training.

(** The optimizer and the backward pass over the parameters belong to the
    tensor runtime; the loop only calls them. *)
Variable optimizer : Type.
Variable gradients : Type.
Variable zero_grad : gradients -> gradients.
Variable backward : store -> expr -> gradients -> gradients.
Variable step : optimizer -> gradients -> (nat -> list R) -> optimizer * (nat -> list R).
(** Python's format specification [>7f]. *)
Variable format_7f : R -> string.

Record training : Type := mkTraining {
  params : nat -> list R;
  opt : optimizer;
  grads : gradients;
  stdout : list string;
  log : list event
}.

Definition store_of (s : training) : store := mkStore (params s) (fun _ => 0).

(** [loss.item()] *)
Definition item (v : tensor) : R := hd 0 (tdata v).

Definition progress_line (ep : nat) (loss : R) : string :=
  ("epoch: " ++ string_of_nat ep ++ ", loss: " ++ format_7f loss)%string.

(** The line printed after epoch [ep], if any. *)
Definition report (ep : nat) (loss : R) : list string :=
  if Nat.eqb (ep mod 300) 0 then [progress_line ep loss] else [].

Definition phases (ep : nat) (loss : R) : list event :=
  [EvLoss ep loss; EvZeroGrad ep; EvBackward ep; EvStep ep].

Definition epoch (ep : nat) (s : training) : result training :=
  loss <- compute_loss model x t x_idx t_idx C_default ;;
  match eval (store_of s) loss with
  | None => Err ShapeError
  | Some v =>
      (* Backpropagation *)
      let g0 := zero_grad (grads s) in
      let g1 := backward (store_of s) loss g0 in
      let (o, p) := step (opt s) g1 (params s) in
      Ok (mkTraining p o g1 (stdout s ++ report ep (item v)) (log s ++ phases ep (item v)))
  end.

(** [for ep in eps: ...]; an exception leaves the loop. *)
Fixpoint for_each (eps : list nat) (s : training) : result training :=
  match eps with
  | [] => Ok s
  | ep :: rest => s' <- epoch ep s ;; for_each rest s'
  end.

Definition train (epochs : nat) (s : training) : result training :=
  for_each (seq 0 epochs) s.

Definition start_state (p : nat -> list R) (o : optimizer) (g : gradients) : training :=
  mkTraining p o g [] [].

(** The run of the source: [for ep in range(3000)]. *)
Definition run (p : nat -> list R) (o : optimizer) (g : gradients) : result training :=
  train 3000 (start_state p o g).

End Training.

(** ** Definitions used to state the properties *)

(** The analytic test function of the specification, f(x,t) = x^2 t^3, put
    in place of the network. *)
Definition analytic (x t : expr) : expr := Bin BMul (Un (UPow 2) x) (Un (UPow 3) t).

(** The graphs that one and two passes of [df] build on [analytic x t] for
    inputs of shape [s]. *)
Definition analytic_d1x (x t : expr) (s : shape) : expr :=
  Bin BMul (Bin BMul (Fill 0 false 1 s) (Un (UPow 3) t))
    (Un (UScale (SRat 2 1)) (Un (UPow 1) x)).

Definition analytic_d2x (x t : expr) (s : shape) : expr :=
  Bin BMul
    (Un (UScale (SRat 2 1))
       (Bin BMul (Fill 0 false 1 s) (Bin BMul (Fill 0 false 1 s) (Un (UPow 3) t))))
    (Un (UScale (SRat 1 1)) (Un (UPow 0) x)).

Definition analytic_d1t (x t : expr) (s : shape) : expr :=
  Bin BMul (Bin BMul (Fill 0 false 1 s) (Un (UPow 2) x))
    (Un (UScale (SRat 3 1)) (Un (UPow 2) t)).

Definition analytic_d2t (x t : expr) (s : shape) : expr :=
  Bin BMul
    (Un (UScale (SRat 3 1))
       (Bin BMul (Fill 0 false 1 s) (Bin BMul (Fill 0 false 1 s) (Un (UPow 2) x))))
    (Un (UScale (SRat 2 1)) (Un (UPow 1) t)).

(** One point through the layers: [sequential] on a single row. *)
Fixpoint sequential_row (st : store) (k : nat) (ls : list layer) (r : list R) : list R :=
  match ls with
  | [] => r
  | Linear inF outF :: rest =>
      sequential_row st (S k) rest
        (affine_row st (2 * k) inF outF false (Some (2 * k + 1)%nat) r)
  | Tanh :: rest => sequential_row st (S k) rest (map tanh r)
  end.

(** f(x,t): the value of the network at one point. *)
Definition f_point (st : store) (model : simple_NN2) (xv tv : R) : R :=
  hd 0 (sequential_row st 0 (linear_tanh_stack model) [xv; tv]).

(** The mean of the squares of a list of residuals. *)
Definition mean_sq (l : list R) : R := sum (map (fun v => v ^ 2) l) / INR (length l).

(** The initial-value residual of [compute_loss]. *)
Definition initial_value_residual (model : simple_NN2) (x_idx : expr) : expr :=
  Bin BSub (forward model x_idx (zero_time x_idx)) (initial_condition x_idx).

(** A store without parameters and float arguments. *)
Definition st0 : store := mkStore (fun _ => []) (fun _ => 0).

(** The derivative helper as the specification words it: every pass weighs
    the elements of the tensor it differentiates with ones of that tensor's
    own shape. *)
Fixpoint df_weighting_output (order : nat) (df_value input_var : expr) : result expr :=
  match order with
  | O => Ok df_value
  | S k =>
      d <- grad df_value input_var (ones_like 0 false df_value) ;;
      df_weighting_output k d input_var
  end.

(** The form the claim gives to a progress line. *)
Definition claimed_line_form (line : string) : Prop :=
  exists k v : string, line = ("epoch=" ++ k ++ ", loss=" ++ v)%string.

(** ** Rows of a batch and their derivatives

    The network and the gradient graphs built from it act on a batch row by
    row.  The definitions below read such a graph at one row, as a function
    of the values that two input columns hold there; they are what the
    derivatives returned by [df] are compared with. *)

(** Derivative of an elementwise operation at [v]. *)
Definition un_deriv (st : store) (u : unop) (v : R) : R :=
  match u with
  | UTanh => 1 - tanh v * tanh v
  | USin => cos v
  | UCos => - sin v
  | UNeg => -1
  | UScale s => sval st s
  | URsub _ => -1
  | UPow n => INR n * v ^ pred n
  end.

(** A node that the derivative is taken with respect to, or a created
    tensor: anything that is not the result of a row-wise operation. *)
Definition atomic (e : expr) : bool :=
  match e with
  | Fill _ false _ _ => false
  | Un _ _ | Bin _ _ _ | Cat1 _ _ | Narrow1 _ _ _ | PadCols _ _ _ | Affine _ _ _ _ _ _ => false
  | _ => true
  end.

(** [e] is computed from [target]: the node [target] occurs in the graph of
    [e]. *)
Fixpoint depends_on (target e : expr) : bool :=
  expr_eqb e target ||
  match e with
  | Linspace _ _ _ _ _ | Fill _ _ _ _ => false
  | Un _ a | Mean a | Expand _ a | SumTo _ a | Reshape _ a | Index _ a | Unindex _ _ a
  | ExpandCols _ a | ExpandRows _ a | SumCols a | SumRows a | Narrow1 _ _ a
  | PadCols _ _ a | Affine _ _ _ _ _ a => depends_on target a
  | Bin _ a b | Cat1 a b => depends_on target a || depends_on target b
  end.

Section Rows.

Variable st : store.
Variables A B : expr.

(** The row of [e] at the point where the column [A] holds [av] and the
    column [B] holds [bv]. *)
Fixpoint row (av bv : R) (e : expr) : list R :=
  match e with
  | Fill _ false z sh => repeat (IZR z) (nth 1 sh O)
  | Un u a => map (un_val st u) (row av bv a)
  | Bin o a b => zip_with (bin_val o) (row av bv a) (row av bv b)
  | Cat1 a b => row av bv a ++ row av bv b
  | Narrow1 start len a => firstn len (skipn start (row av bv a))
  | PadCols l r a => repeat 0 l ++ row av bv a ++ repeat 0 r
  | Affine w inF outF tr bias a => affine_row st w inF outF tr bias (row av bv a)
  | _ => if expr_eqb e A then [av] else if expr_eqb e B then [bv] else []
  end.

(** The derivative of that row with respect to [bv]. *)
Fixpoint tangent (av bv : R) (e : expr) : list R :=
  match e with
  | Fill _ false _ sh => repeat 0 (nth 1 sh O)
  | Un u a =>
      zip_with (fun v dv => un_deriv st u v * dv) (row av bv a) (tangent av bv a)
  | Bin BAdd a b => zip_with Rplus (tangent av bv a) (tangent av bv b)
  | Bin BSub a b => zip_with Rminus (tangent av bv a) (tangent av bv b)
  | Bin BMul a b =>
      zip_with Rplus (zip_with Rmult (tangent av bv a) (row av bv b))
        (zip_with Rmult (row av bv a) (tangent av bv b))
  | Cat1 a b => tangent av bv a ++ tangent av bv b
  | Narrow1 start len a => firstn len (skipn start (tangent av bv a))
  | PadCols l r a => repeat 0 l ++ tangent av bv a ++ repeat 0 r
  | Affine w inF outF tr _ a => affine_row st w inF outF tr None (tangent av bv a)
  | _ => if expr_eqb e A then [0] else if expr_eqb e B then [1] else []
  end.

(** Graphs over the columns [A] and [B] that act on a batch of [n] rows row
    by row. *)
Fixpoint rowwise (n : nat) (e : expr) : bool :=
  match e with
  | Fill _ false _ sh => match sh with [n'; _] => Nat.eqb n' n | _ => false end
  | Un _ a | Narrow1 _ _ a | PadCols _ _ a | Affine _ _ _ _ _ a => rowwise n a
  | Bin _ a b | Cat1 a b => rowwise n a && rowwise n b
  | _ => expr_eqb e A || expr_eqb e B
  end.

(** An optional gradient graph computes [F]: a graph is row-wise and its row
    is the one number [F av bv]; no graph stands for the number zero. *)
Definition computes (n : nat) (o : option expr) (F : R -> R -> R) : Prop :=
  match o with
  | Some r => rowwise n r = true /\ forall av bv, row av bv r = [F av bv]
  | None => forall av bv, F av bv = 0
  end.

End Rows.

(** [l] is the second derivative of [f] at [x0]. *)
Definition second_derivative (f : R -> R) (x0 l : R) : Prop :=
  exists f' : R -> R, (forall x, derivable_pt_lim f x (f' x)) /\ derivable_pt_lim f' x0 l.

(** Sums over an index range. *)
Definition bigsum (c : nat) (F : nat -> R) : R := sum (map F (seq 0 c)).

(** A list of zeros, whatever its length. *)
Definition zero_vec (l : list R) : Prop := forall i, nth i l 0 = 0.



(** ** Definitions used to state further properties *)

(** [g] is the derivative of order [n] of [f], everywhere. *)
Fixpoint derivative_of_order (n : nat) (f g : R -> R) : Prop :=
  match n with
  | O => forall u, g u = f u
  | S k => exists f' : R -> R,
             (forall u, derivable_pt_lim f u (f' u)) /\ derivative_of_order k f' g
  end.

(** The learner of the training loop, update by update. *)
Section Trajectory.

Variable optimizer : Type.
Variable gradients : Type.
Variable zero_grad : gradients -> gradients.
Variable backward : store -> expr -> gradients -> gradients.
Variable step : optimizer -> gradients -> (nat -> list R) -> optimizer * (nat -> list R).

(** The parameters, the optimizer state and the gradient buffer. *)
Definition learner : Type := ((nat -> list R) * optimizer * gradients)%type.

(** One update on the loss graph [loss]: the buffer is cleared, the backward
    pass fills it at the current parameters, the optimizer steps. *)
Definition update (loss : expr) (s : learner) : learner :=
  let '(p, o, g) := s in
  let g1 := backward (mkStore p (fun _ => 0)) loss (zero_grad g) in
  let (o', p') := step o g1 p in
  (p', o', g1).

(** The learner after [k] updates. *)
Fixpoint after_updates (k : nat) (loss : expr) (s : learner) : learner :=
  match k with
  | O => s
  | S k' => update loss (after_updates k' loss s)
  end.

(** The number that the loss graph holds at the parameters reached after
    [k] updates. *)
Definition loss_after (k : nat) (loss : expr) (s : learner) : R :=
  hd 0 (data (mkStore (fst (fst (after_updates k loss s))) (fun _ => 0)) loss).

End Trajectory.

(** The run when no gradient is carried from one epoch to the next. *)
Section FreshGradients.

Variable optimizer : Type.
Variable gradients : Type.
Variable backward : store -> expr -> gradients -> gradients.
Variable step : optimizer -> gradients -> (nat -> list R) -> optimizer * (nat -> list R).

(** One step taken with the gradient of the current loss alone: the backward
    pass starts from the buffer [cleared]. *)
Definition fresh_update (cleared : gradients) (loss : expr)
    (s : (nat -> list R) * optimizer) : (nat -> list R) * optimizer :=
  let (p, o) := s in
  let (o', p') := step o (backward (mkStore p (fun _ => 0)) loss cleared) p in
  (p', o').

Fixpoint fresh_updates (k : nat) (cleared : gradients) (loss : expr)
    (s : (nat -> list R) * optimizer) : (nat -> list R) * optimizer :=
  match k with
  | O => s
  | S k' => fresh_update cleared loss (fresh_updates k' cleared loss s)
  end.

End FreshGradients.

(** ** Prediction (module level of the source) *)

(** [y.reshape([100,-1])] on [y = model(x, t)]. *)
Definition prediction (model : simple_NN2) (x t : expr) : expr :=
  let y := forward model x t in
  Reshape [100; -1]%Z y.

(** [.detach().numpy()] on a matrix: the rows of its values, without a
    graph; [None] where the tensor could not be built or is no matrix. *)
Definition numpy (st : store) (e : expr) : option (list (list R)) :=
  match shape_of e with
  | Some [r; c] => Some (chunks r c (data st e))
  | _ => None
  end.

(** * Properties *)

(** ** Node identity and shapes *)

Lemma shape_eqb_refl (s : shape) : shape_eqb s s = true.
Proof.
  induction s as [|n s IH]; simpl; [reflexivity|].
  now rewrite Nat.eqb_refl, IH.
Qed.

Lemma shape_eqb_eq (a b : shape) : shape_eqb a b = true -> a = b.
Proof.
  revert b; induction a as [|n a IH]; intros [|m b]; simpl; try discriminate; auto.
  intros H. apply andb_prop in H. destruct H as [H1 H2].
  apply Nat.eqb_eq in H1. apply IH in H2. congruence.
Qed.

Lemma expr_eqb_spec (a b : expr) : reflect (a = b) (expr_eqb a b).
Proof.
  unfold expr_eqb. destruct (expr_eq_dec a b); constructor; assumption.
Qed.

Lemma expr_eqb_refl (a : expr) : expr_eqb a a = true.
Proof.
  destruct (expr_eqb_spec a a); congruence.
Qed.

(** ** The run of the source *)

(** The loss graph of the run is built without an autograd error and is a
    scalar, whatever the parameters hold. *)
Lemma compute_loss_run :
  exists loss, compute_loss model x t x_idx t_idx C_default = Ok loss
               /\ shape_of loss = Some [].
Proof.
  assert (H : match compute_loss model x t x_idx t_idx C_default with
              | Ok l => shape_of l = Some []
              | Err _ => False
              end) by (vm_compute; reflexivity).
  destruct (compute_loss model x t x_idx t_idx C_default) as [l|]; [|contradiction].
  exists l. split; [reflexivity|assumption].
Qed.

Section TrainingFacts.

Variable optimizer : Type.
Variable gradients : Type.
Variable zero_grad : gradients -> gradients.
Variable backward : store -> expr -> gradients -> gradients.
Variable step : optimizer -> gradients -> (nat -> list R) -> optimizer * (nat -> list R).
Variable format_7f : R -> string.

Lemma epoch_ok (ep : nat) (s : training optimizer gradients) :
  exists s' v, epoch zero_grad backward step format_7f ep s = Ok s'
               /\ log s' = log s ++ phases ep v
               /\ stdout s' = stdout s ++ report format_7f ep v.
Proof.
  destruct compute_loss_run as [loss [Hl Hs]].
  unfold epoch. rewrite Hl. unfold bind, eval. rewrite Hs.
  destruct (step (opt s) _ (params s)) as [o p] eqn:E.
  eexists. eexists. split; [reflexivity|].
  split; reflexivity.
Qed.

Lemma for_each_ok (eps : list nat) :
  forall s : training optimizer gradients,
  exists s' vs, for_each zero_grad backward step format_7f eps s = Ok s'
                /\ length vs = length eps
                /\ log s' = log s ++ concat (zip_with phases eps vs)
                /\ stdout s' = stdout s ++ concat (zip_with (report format_7f) eps vs).
Proof.
  induction eps as [|ep eps IH]; intros s.
  - exists s, []. cbn [for_each zip_with concat length]. rewrite !app_nil_r. auto.
  - destruct (epoch_ok ep s) as [s1 [v [He [Hlog Hout]]]].
    destruct (IH s1) as [s2 [vs [Hf [Hlen [Hlog2 Hout2]]]]].
    exists s2, (v :: vs). cbn [for_each zip_with concat length]. rewrite He.
    unfold bind. rewrite Hf.
    split; [reflexivity|]. split; [now rewrite Hlen|].
    rewrite Hlog2, Hlog, Hout2, Hout, <- !app_assoc. split; reflexivity.
Qed.

Lemma run_ok (p : nat -> list R) (o : optimizer) (g : gradients) :
  exists final vs, run zero_grad backward step format_7f p o g = Ok final
                   /\ length vs = 3000%nat
                   /\ log final = concat (zip_with phases (seq 0 3000) vs)
                   /\ stdout final = concat (zip_with (report format_7f) (seq 0 3000) vs).
Proof.
  destruct (for_each_ok (seq 0 3000) (start_state p o g)) as [s' [vs [H1 [H2 [H3 H4]]]]].
  exists s', vs. rewrite length_seq in H2. auto.
Qed.

End TrainingFacts.

Lemma report_every_300 (format_7f : R -> string) (n : nat) :
  forall (a : nat) (vs : list R),
  length vs = n ->
  concat (zip_with (report format_7f) (seq a n) vs)
  = map (fun ep => progress_line format_7f ep (nth (ep - a) vs 0))
        (filter (fun ep => Nat.eqb (ep mod 300) 0) (seq a n)).
Proof.
  induction n as [|n IH]; intros a vs Hlen.
  - reflexivity.
  - destruct vs as [|v vs]; [discriminate|].
    cbn [seq zip_with concat filter]. injection Hlen as Hlen.
    rewrite (IH (S a) vs Hlen).
    assert (Htail : map (fun ep => progress_line format_7f ep (nth (ep - S a) vs 0))
                      (filter (fun ep => Nat.eqb (ep mod 300) 0) (seq (S a) n))
                    = map (fun ep => progress_line format_7f ep (nth (ep - a) (v :: vs) 0))
                      (filter (fun ep => Nat.eqb (ep mod 300) 0) (seq (S a) n))).
    { apply map_ext_in. intros ep Hin. apply filter_In in Hin. destruct Hin as [Hin _].
      apply in_seq in Hin. replace (ep - a)%nat with (S (ep - S a)) by lia. reflexivity. }
    rewrite Htail. unfold report.
    destruct (Nat.eqb (a mod 300) 0); cbn [map app]; [|reflexivity].
    now rewrite Nat.sub_diag.
Qed.

Lemma nth_map_seq {A : Type} (f : nat -> A) (n i : nat) (d : A) :
  (i < n)%nat -> nth i (map f (seq 0 n)) d = f i.
Proof.
  intros Hi.
  rewrite (nth_indep _ d (f O)) by (now rewrite length_map, length_seq).
  rewrite (map_nth f (seq 0 n) O i), seq_nth by assumption. reflexivity.
Qed.

(** ** The run, update by update *)

Section TrajectoryFacts.

Variable optimizer : Type.
Variable gradients : Type.
Variable zero_grad : gradients -> gradients.
Variable backward : store -> expr -> gradients -> gradients.
Variable step : optimizer -> gradients -> (nat -> list R) -> optimizer * (nat -> list R).
Variable format_7f : R -> string.

Let learner_of (s : training optimizer gradients) : learner optimizer gradients :=
  (params s, opt s, grads s).

Lemma epoch_update (loss : expr) (ep : nat) (s : training optimizer gradients) :
  compute_loss model x t x_idx t_idx C_default = Ok loss -> shape_of loss = Some [] ->
  exists s',
    epoch zero_grad backward step format_7f ep s = Ok s'
    /\ learner_of s' = update zero_grad backward step loss (learner_of s)
    /\ stdout s' = stdout s
                   ++ report format_7f ep (hd 0 (data (mkStore (params s) (fun _ => 0)) loss))
    /\ log s' = log s ++ phases ep (hd 0 (data (mkStore (params s) (fun _ => 0)) loss)).
Proof.
  intros Hl Hs. unfold epoch. rewrite Hl. unfold bind, eval. rewrite Hs.
  unfold learner_of, update, store_of.
  destruct (step (opt s) _ (params s)) as [o p] eqn:E.
  eexists. split; [reflexivity|]. cbn [params opt grads stdout log].
  split; [reflexivity|]. split; reflexivity.
Qed.

Lemma for_each_updates (loss : expr) (s0 : learner optimizer gradients) (n : nat) :
  compute_loss model x t x_idx t_idx C_default = Ok loss -> shape_of loss = Some [] ->
  forall (a : nat) (s : training optimizer gradients),
  learner_of s = after_updates zero_grad backward step a loss s0 ->
  exists s',
    for_each zero_grad backward step format_7f (seq a n) s = Ok s'
    /\ learner_of s' = after_updates zero_grad backward step (a + n) loss s0
    /\ stdout s'
       = stdout s
         ++ concat (zip_with (report format_7f) (seq a n)
                      (map (fun k => loss_after zero_grad backward step k loss s0) (seq a n)))
    /\ log s'
       = log s
         ++ concat (zip_with phases (seq a n)
                      (map (fun k => loss_after zero_grad backward step k loss s0) (seq a n))).
Proof.
  intros Hl Hs. induction n as [|n IH]; intros a s Hst.
  - exists s. cbn [seq for_each map zip_with concat]. rewrite Nat.add_0_r, !app_nil_r. auto.
  - destruct (@epoch_update loss a s Hl Hs) as (s1 & He & Hu & Hout & Hlog).
    assert (Hst1 : learner_of s1 = after_updates zero_grad backward step (S a) loss s0)
      by (cbn [after_updates]; now rewrite Hu, Hst).
    destruct (IH (S a) s1 Hst1) as (s2 & Hf & Hu2 & Hout2 & Hlog2).
    exists s2. cbn [seq for_each map zip_with concat]. rewrite He. unfold bind. rewrite Hf.
    split; [reflexivity|]. split; [now rewrite Hu2, Nat.add_succ_r|].
    assert (Hv : hd 0 (data (mkStore (params s) (fun _ => 0)) loss)
                 = loss_after zero_grad backward step a loss s0).
    { unfold loss_after. rewrite <- Hst. reflexivity. }
    rewrite Hout2, Hlog2, Hout, Hlog, Hv, <- !app_assoc. split; reflexivity.
Qed.

Lemma zip_with_map_seq {A B : Type} (f : nat -> A -> B) (h : nat -> A) (n : nat) :
  forall a, zip_with f (seq a n) (map h (seq a n)) = map (fun k => f k (h k)) (seq a n).
Proof.
  induction n as [|n IH]; intros a; [reflexivity|].
  cbn [seq map zip_with]. now rewrite IH.
Qed.

Lemma run_updates (p : nat -> list R) (o : optimizer) (g : gradients) :
  exists loss final,
    compute_loss model x t x_idx t_idx C_default = Ok loss
    /\ run zero_grad backward step format_7f p o g = Ok final
    /\ learner_of final = after_updates zero_grad backward step 3000 loss (p, o, g)
    /\ stdout final
       = map (fun ep => progress_line format_7f ep
                          (loss_after zero_grad backward step ep loss (p, o, g)))
           (filter (fun ep => Nat.eqb (ep mod 300) 0) (seq 0 3000))
    /\ log final
       = concat (map (fun ep => phases ep (loss_after zero_grad backward step ep loss (p, o, g)))
                   (seq 0 3000)).
Proof.
  destruct compute_loss_run as [loss [Hl Hs]].
  destruct (@for_each_updates loss (p, o, g) 3000 Hl Hs 0 (start_state p o g) eq_refl)
    as (final & Hf & Hu & Hout & Hlog).
  exists loss, final. split; [exact Hl|]. split; [exact Hf|]. split; [exact Hu|]. split.
  - rewrite Hout. cbn [start_state stdout app].
    rewrite (@report_every_300 format_7f 3000 0) by (now rewrite length_map, length_seq).
    apply map_ext_in. intros ep Hin. apply filter_In in Hin. destruct Hin as [Hin _].
    apply in_seq in Hin. rewrite Nat.sub_0_r, nth_map_seq by lia. reflexivity.
  - rewrite Hlog. cbn [start_state log app]. rewrite zip_with_map_seq. reflexivity.
Qed.

End TrajectoryFacts.

Lemma every_300th_epoch :
  filter (fun ep => Nat.eqb (ep mod 300) 0) (seq 0 3000)
  = [0; 300; 600; 900; 1200; 1500; 1800; 2100; 2400; 2700]%nat.
Proof.
  vm_compute. reflexivity.
Qed.

Lemma length_concat_phases (h : nat -> R) (l : list nat) :
  length (concat (map (fun ep => phases ep (h ep)) l)) = (4 * length l)%nat.
Proof.
  induction l as [|a l IH]; [reflexivity|].
  cbn [map concat]. rewrite length_app, IH. cbn [phases length]. lia.
Qed.

(** ** C9 *)

(** C9: the run always returns, after exactly 3000 epochs: its final
    parameters, optimizer state and gradient buffer are those reached by 3000
    updates, each one clearing of the buffer, one backward pass of the loss
    at the current parameters and one optimizer step, and the log holds the
    four phases of epoch 0, then of epoch 1, ..., then of epoch 2999, with
    the loss computed in that epoch, and nothing else. *)
Theorem training_runs_exactly_3000_epochs :
  forall (optimizer gradients : Type) (zero_grad : gradients -> gradients)
         (backward : store -> expr -> gradients -> gradients)
         (step : optimizer -> gradients -> (nat -> list R) -> optimizer * (nat -> list R))
         (format_7f : R -> string)
         (p : nat -> list R) (o : optimizer) (g : gradients),
  exists loss final,
    compute_loss model x t x_idx t_idx C_default = Ok loss
    /\ run zero_grad backward step format_7f p o g = Ok final
    /\ (params final, opt final, grads final)
       = after_updates zero_grad backward step 3000 loss (p, o, g)
    /\ log final
       = concat (map (fun ep => phases ep (loss_after zero_grad backward step ep loss (p, o, g)))
                   (seq 0 3000))
    /\ length (log final) = (4 * 3000)%nat.
Proof.
  intros.
  destruct (run_updates zero_grad backward step format_7f p o g)
    as (loss & final & H1 & H2 & H3 & _ & H5).
  exists loss, final. split; [exact H1|]. split; [exact H2|]. split; [exact H3|].
  split; [exact H5|]. rewrite H5, length_concat_phases, length_seq. reflexivity.
Qed.

Lemma counted_updates (loss : expr) (p : nat -> list R) (k : nat) :
  after_updates (fun c : nat * nat => (S (fst c), snd c))
    (fun _ _ (c : nat * nat) => (fst c, S (snd c)))
    (fun (o : nat) _ (q : nat -> list R) => (S o, q)) k loss (p, O, (O, O))
  = (p, k, (k, k)).
Proof.
  induction k as [|k IH]; [reflexivity|].
  cbn [after_updates]. rewrite IH. reflexivity.
Qed.

(** With an optimizer that counts its steps and a buffer that counts its
    clearings and its backward passes, the run ends with 3000 of each. *)
Lemma training_runs_exactly_3000_epochs_witness :
  exists final,
    run (fun c : nat * nat => (S (fst c), snd c))
        (fun _ _ (c : nat * nat) => (fst c, S (snd c)))
        (fun (o : nat) _ (q : nat -> list R) => (S o, q))
        (fun _ => "0.000000"%string) (fun _ => []) O (O, O) = Ok final
    /\ opt final = 3000%nat /\ grads final = (3000%nat, 3000%nat)
    /\ length (log final) = (4 * 3000)%nat.
Proof.
  destruct (training_runs_exactly_3000_epochs
              (fun c : nat * nat => (S (fst c), snd c))
              (fun _ _ (c : nat * nat) => (fst c, S (snd c)))
              (fun (o : nat) _ (q : nat -> list R) => (S o, q))
              (fun _ => "0.000000"%string) (fun _ => []) O (O, O))
    as (loss & final & _ & H2 & H3 & _ & H5).
  exists final. split; [exact H2|]. rewrite counted_updates in H3.
  injection H3 as _ Ho Hg. split; [exact Ho|]. split; [exact Hg|exact H5].
Defined.

(** ** C8 *)

(** C8, as amended: the run prints exactly ten lines, one after each of the
    epochs 0, 300, ..., 2700 and none after any other epoch; the line of
    epoch k is [epoch: k, loss: v] where v is the loss computed in epoch k,
    that is the value of the loss at the parameters that the k updates before
    it have produced, formatted with [>7f]. *)
Theorem progress_line_every_300_epochs :
  forall (optimizer gradients : Type) (zero_grad : gradients -> gradients)
         (backward : store -> expr -> gradients -> gradients)
         (step : optimizer -> gradients -> (nat -> list R) -> optimizer * (nat -> list R))
         (format_7f : R -> string)
         (p : nat -> list R) (o : optimizer) (g : gradients),
  exists loss final,
    compute_loss model x t x_idx t_idx C_default = Ok loss
    /\ run zero_grad backward step format_7f p o g = Ok final
    /\ stdout final
       = map (fun ep => ("epoch: " ++ string_of_nat ep ++ ", loss: "
                         ++ format_7f (loss_after zero_grad backward step ep loss (p, o, g)))
                        %string)
             (filter (fun ep => Nat.eqb (ep mod 300) 0) (seq 0 3000))
    /\ filter (fun ep => Nat.eqb (ep mod 300) 0) (seq 0 3000)
       = [0; 300; 600; 900; 1200; 1500; 1800; 2100; 2400; 2700]%nat
    /\ (forall ep,
          loss_after zero_grad backward step ep loss (p, o, g)
          = hd 0 (data (mkStore (fst (fst (after_updates zero_grad backward step ep loss
                                              (p, o, g)))) (fun _ => 0)) loss))
    /\ log final
       = concat (map (fun ep => phases ep (loss_after zero_grad backward step ep loss (p, o, g)))
                   (seq 0 3000)).
Proof.
  intros.
  destruct (run_updates zero_grad backward step format_7f p o g)
    as (loss & final & H1 & H2 & _ & H4 & H5).
  exists loss, final. split; [exact H1|]. split; [exact H2|]. split; [exact H4|].
  split; [exact every_300th_epoch|]. split; [reflexivity|exact H5].
Qed.

(** C8, as stated, fails: the first line of a run is [epoch: 0, loss: ...],
    which is not of the form [epoch=<k>, loss=<value>]. *)
Lemma progress_line_form_counterexample :
  ~ (forall final,
       run (fun g : unit => g) (fun _ _ g => g) (fun (o : unit) _ p => (o, p))
           (fun _ => "0.000000"%string) (fun _ => []) tt tt = Ok final ->
       Forall claimed_line_form (stdout final)).
Proof.
  intros H.
  destruct (run_ok (fun g : unit => g) (fun _ _ g => g) (fun (o : unit) _ p => (o, p))
              (fun _ => "0.000000"%string) (fun _ => []) tt tt)
    as [final [vs [H1 [H2 [_ H4]]]]].
  specialize (H final H1). rewrite H4 in H.
  destruct vs as [|v vs]; [discriminate|].
  change (seq 0 3000) with (0%nat :: seq 1 2999) in H.
  cbn [zip_with concat] in H.
  change (report (fun _ : R => "0.000000"%string) 0 v)
    with ["epoch: 0, loss: 0.000000"%string] in H.
  cbn [app] in H. inversion H as [|l ls Hform _]; subst.
  destruct Hform as [k [w Hkw]]. cbn in Hkw. discriminate Hkw.
Qed.

(** ** C10 *)

(** The error branches exist in the model of [torch.autograd.grad]: a tracked
    tensor that the output was not computed from is refused, and so is the
    zero tensor before [requires_grad] is set on it. *)
Example unused_input_is_refused :
  grad (forward model x_idx x_idx) (zero_time x_idx)
       (ones_like 0 false (zero_time x_idx)) = Err UnusedInput.
Proof.
  vm_compute. reflexivity.
Qed.

Example untracked_input_is_refused :
  grad (forward model x_idx (zeros_like id_t_initial x_idx)) (zeros_like id_t_initial x_idx)
       (ones_like 0 false (zeros_like id_t_initial x_idx)) = Err InputNoGrad.
Proof.
  vm_compute. reflexivity.
Qed.

(** C10: the grid tensors [x] and [t] and the zero time tensor [t_initial]
    require grad, every reverse-mode pass that [compute_loss] asks for (two
    with respect to [x], two with respect to [t], one with respect to
    [t_initial]) finds its input in the graph of what it differentiates, and
    no epoch of the run ends in an autograd error. *)
Theorem derivative_inputs_tracked_and_connected :
  let t_initial := zero_time x_idx in
  (requires_grad x = true /\ requires_grad t = true /\ requires_grad t_initial = true)
  /\ (exists d1 d2,
        grad (forward model x t) x (ones_like 0 false x) = Ok d1
        /\ grad d1 x (ones_like 0 false x) = Ok d2
        /\ dfdx model x t 2 = Ok d2)
  /\ (exists d1 d2,
        grad (forward model x t) t (ones_like 0 false t) = Ok d1
        /\ grad d1 t (ones_like 0 false t) = Ok d2
        /\ dfdt model x t 2 = Ok d2)
  /\ (exists d,
        grad (forward model x_idx t_initial) t_initial (ones_like 0 false t_initial) = Ok d
        /\ dfdt model x_idx t_initial 1 = Ok d)
  /\ (forall (optimizer gradients : Type) (zero_grad : gradients -> gradients)
             (backward : store -> expr -> gradients -> gradients)
             (step : optimizer -> gradients -> (nat -> list R) -> optimizer * (nat -> list R))
             (format_7f : R -> string)
             (p : nat -> list R) (o : optimizer) (g : gradients),
        exists final, run zero_grad backward step format_7f p o g = Ok final).
Proof.
  intros t_initial. split; [|split; [|split; [|split]]].
  - vm_compute. auto.
  - assert (H : match grad (forward model x t) x (ones_like 0 false x) with
                | Ok d1 => match grad d1 x (ones_like 0 false x) with
                           | Ok d2 => dfdx model x t 2 = Ok d2
                           | Err _ => False
                           end
                | Err _ => False
                end) by (vm_compute; reflexivity).
    destruct (grad (forward model x t) x (ones_like 0 false x)) as [d1|]; [|contradiction].
    exists d1.
    destruct (grad d1 x (ones_like 0 false x)) as [d2|]; [|contradiction].
    exists d2. auto.
  - assert (H : match grad (forward model x t) t (ones_like 0 false t) with
                | Ok d1 => match grad d1 t (ones_like 0 false t) with
                           | Ok d2 => dfdt model x t 2 = Ok d2
                           | Err _ => False
                           end
                | Err _ => False
                end) by (vm_compute; reflexivity).
    destruct (grad (forward model x t) t (ones_like 0 false t)) as [d1|]; [|contradiction].
    exists d1.
    destruct (grad d1 t (ones_like 0 false t)) as [d2|]; [|contradiction].
    exists d2. auto.
  - assert (H : match grad (forward model x_idx t_initial) t_initial
                        (ones_like 0 false t_initial) with
                | Ok d => dfdt model x_idx t_initial 1 = Ok d
                | Err _ => False
                end) by (vm_compute; reflexivity).
    destruct (grad (forward model x_idx t_initial) t_initial (ones_like 0 false t_initial))
      as [d|]; [|contradiction].
    exists d. auto.
  - intros. destruct (run_ok zero_grad backward step format_7f p o g) as [final [vs [H _]]].
    exists final. exact H.
Qed.

(** ** Reshape *)

Lemma filter_all_of_length {A : Type} (f : A -> bool) (l : list A) :
  length (filter f l) = length l -> filter f l = l.
Proof.
  induction l as [|a l IH]; simpl; [reflexivity|].
  destruct (f a); simpl; intros H.
  - f_equal. apply IH. lia.
  - pose proof (filter_length_le f l). lia.
Qed.

Lemma prod_known_nonneg (l : list Z) :
  existsb (fun d => Z.ltb d 0) l = false -> (0 <= fold_right Z.mul 1 l)%Z.
Proof.
  induction l as [|d l IH]; simpl; [lia|].
  intros H. apply orb_false_elim in H. destruct H as [H1 H2].
  apply Z.ltb_ge in H1. specialize (IH H2). apply Z.mul_nonneg_nonneg; assumption.
Qed.

Lemma numel_resolved (q : nat) (dims : list Z) :
  existsb (fun d => Z.ltb d 0) (known_dims dims) = false ->
  numel (map (fun d => if Z.eqb d (-1) then q else Z.to_nat d) dims)
  = (q ^ (length dims - length (known_dims dims))
     * Z.to_nat (fold_right Z.mul 1%Z (known_dims dims)))%nat.
Proof.
  unfold known_dims.
  induction dims as [|d dims IH]; [reflexivity|].
  cbn [map filter numel fold_right].
  pose proof (filter_length_le (fun d => negb (Z.eqb d (-1))) dims) as Hle.
  destruct (Z.eqb d (-1)) eqn:E; cbn [negb]; intros H.
  - fold (numel (map (fun d => if Z.eqb d (-1) then q else Z.to_nat d) dims)).
    rewrite (IH H). cbn [length].
    replace (S (length dims) - length (filter (fun d => negb (Z.eqb d (-1))) dims))%nat
      with (S (length dims - length (filter (fun d => negb (Z.eqb d (-1))) dims))) by lia.
    cbn [Nat.pow]. lia.
  - fold (numel (map (fun d => if Z.eqb d (-1) then q else Z.to_nat d) dims)).
    cbn [existsb] in H. apply orb_false_elim in H. destruct H as [H1 H2].
    rewrite (IH H2). cbn [length fold_right Nat.sub].
    apply Z.ltb_ge in H1. pose proof (prod_known_nonneg _ H2) as Hp.
    rewrite Z2Nat.inj_mul by assumption. lia.
Qed.

Lemma resolve_dims_numel (dims : list Z) (n : nat) (s : shape) :
  resolve_dims dims n = Some s -> numel s = n.
Proof.
  unfold resolve_dims.
  destruct (existsb _ (known_dims dims)) eqn:Hneg; [discriminate|].
  destruct (length dims - length (known_dims dims))%nat as [|[|k]] eqn:Hc; [| |discriminate].
  - destruct (Nat.eqb _ n) eqn:Hp; [|discriminate]. intros H. injection H as <-.
    apply Nat.eqb_eq in Hp.
    pose proof (numel_resolved 0 dims Hneg) as Hn. rewrite Hc in Hn.
    assert (Hall : known_dims dims = dims).
    { apply filter_all_of_length.
      pose proof (filter_length_le (fun d => negb (Z.eqb d (-1))) dims). unfold known_dims in *. lia. }
    cbn [Nat.pow] in Hn. rewrite Nat.mul_1_l in Hn. rewrite <- Hp, <- Hn.
    f_equal. apply map_ext_in. intros d Hd.
    rewrite <- Hall in Hd. apply filter_In in Hd. destruct Hd as [_ Hd].
    destruct (Z.eqb d (-1)); [discriminate|reflexivity].
  - destruct (Nat.eqb _ 0) eqn:Hp0; [discriminate|].
    destruct (Nat.eqb (n mod _) 0) eqn:Hm; [|discriminate]. intros H. injection H as <-.
    rewrite (numel_resolved _ dims Hneg), Hc. cbn [Nat.pow].
    apply Nat.eqb_eq in Hm. apply Nat.eqb_neq in Hp0.
    set (p := Z.to_nat (fold_right Z.mul 1%Z (known_dims dims))) in *.
    pose proof (Nat.div_mod_eq n p). lia.
Qed.

Lemma prod_of_nat (s : shape) : fold_right Z.mul 1%Z (map Z.of_nat s) = Z.of_nat (numel s).
Proof.
  induction s as [|n s IH]; [reflexivity|].
  cbn [map fold_right numel]. fold (numel s). rewrite IH. lia.
Qed.

Lemma resolve_dims_of_shape (s : shape) :
  resolve_dims (map Z.of_nat s) (numel s) = Some s.
Proof.
  unfold resolve_dims.
  assert (Hk : known_dims (map Z.of_nat s) = map Z.of_nat s).
  { unfold known_dims. induction s as [|n s IH]; [reflexivity|].
    cbn [map filter]. destruct (Z.eqb (Z.of_nat n) (-1)) eqn:E; [apply Z.eqb_eq in E; lia|].
    cbn [negb]. now rewrite IH. }
  rewrite Hk, Nat.sub_diag.
  assert (Hn : existsb (fun d => Z.ltb d 0) (map Z.of_nat s) = false).
  { clear. induction s as [|n s IH]; [reflexivity|]. cbn [map existsb]. rewrite IH.
    destruct (Z.ltb (Z.of_nat n) 0) eqn:E; [apply Z.ltb_lt in E; lia|reflexivity]. }
  rewrite Hn, prod_of_nat, Nat2Z.id, Nat.eqb_refl, map_map.
  f_equal. rewrite <- (map_id s) at 2. apply map_ext. intros n. apply Nat2Z.id.
Qed.

(** ** Shapes of gradients *)

Lemma shp_of (e : expr) (s : shape) : shape_of e = Some s -> shp e = s.
Proof.
  unfold shp. now intros ->.
Qed.

Lemma py_index_lt (i : Z) (n k : nat) : py_index i n = Some k -> (k < n)%nat.
Proof.
  unfold py_index.
  destruct (Z.leb 0 i && Z.ltb i (Z.of_nat n))%bool eqn:E1.
  - apply andb_prop in E1. destruct E1 as [E1 E2].
    apply Z.leb_le in E1. apply Z.ltb_lt in E2. intros H. injection H as <-. lia.
  - destruct (Z.ltb i 0 && Z.leb (- Z.of_nat n) i)%bool eqn:E2; [|discriminate].
    apply andb_prop in E2. destruct E2 as [E2 E3].
    apply Z.ltb_lt in E2. apply Z.leb_le in E3. intros H. injection H as <-. lia.
Qed.

Lemma accumulate_shape (p q : option expr) (r : expr) (st : shape) :
  accumulate p q = Some r ->
  (forall a, p = Some a -> shape_of a = Some st) ->
  (forall b, q = Some b -> shape_of b = Some st) ->
  shape_of r = Some st.
Proof.
  destruct p as [a|], q as [b|]; cbn [accumulate]; intros H Hp Hq;
    try discriminate; injection H as <-; auto.
  cbn [shape_of]. rewrite (Hp a eq_refl), (Hq b eq_refl), shape_eqb_refl. reflexivity.
Qed.

Lemma un_backward_shape (u : unop) (a g : expr) (s : shape) :
  shape_of a = Some s -> shape_of g = Some s -> shape_of (un_backward u a g) = Some s.
Proof.
  intros Ha Hg.
  destruct u as [| | | | sc | sc | [|k]]; cbn [un_backward shape_of zeros_like];
    rewrite ?Ha, ?Hg, ?(@shp_of _ _ Ha), ?shape_eqb_refl; reflexivity.
Qed.

(** A gradient has the shape of the tensor it is taken with respect to. *)
Lemma vjp_shape (target e : expr) :
  forall (g r : expr) (s : shape),
  shape_of e = Some s -> shape_of g = Some s -> vjp target e g = Some r ->
  exists st, shape_of target = Some st /\ shape_of r = Some st.
Proof.
  induction e; intros g res s He Hg Hv; cbn [vjp] in Hv;
    (match type of Hv with
     | context [expr_eqb ?a target] => destruct (expr_eqb_spec a target) as [Heq|Hne]
     end;
     [ injection Hv as <-; subst target; exists s; split; assumption | ]).
  - discriminate.
  - discriminate.
  - (* Un *)
    cbn [shape_of] in He. eapply IHe; [exact He| |exact Hv].
    now apply un_backward_shape.
  - (* Bin *)
    cbn [shape_of] in He.
    destruct (shape_of e1) as [s1|] eqn:E1; [|discriminate].
    destruct (shape_of e2) as [s2|] eqn:E2; [|discriminate].
    destruct (shape_eqb s1 s2) eqn:E; [|discriminate].
    apply shape_eqb_eq in E. subst s2. injection He as <-.
    destruct o.
    + destruct (vjp target e1 g) as [a|] eqn:Va.
      * destruct (IHe1 _ _ _ eq_refl Hg Va) as [st [Ht Hr]]. exists st. split; [exact Ht|].
        eapply accumulate_shape; [exact Hv| |].
        -- intros a' Ha'. injection Ha' as <-. exact Hr.
        -- intros b' Hb'. destruct (IHe2 _ _ _ eq_refl Hg Hb') as [st' [Ht' Hr']]. congruence.
      * cbn [accumulate] in Hv. eapply IHe2; [reflexivity|exact Hg|exact Hv].
    + assert (Hng : shape_of (Un UNeg g) = Some s1) by exact Hg.
      destruct (vjp target e1 g) as [a|] eqn:Va.
      * destruct (IHe1 _ _ _ eq_refl Hg Va) as [st [Ht Hr]]. exists st. split; [exact Ht|].
        eapply accumulate_shape; [exact Hv| |].
        -- intros a' Ha'. injection Ha' as <-. exact Hr.
        -- intros b' Hb'. destruct (IHe2 _ _ _ eq_refl Hng Hb') as [st' [Ht' Hr']]. congruence.
      * cbn [accumulate] in Hv. eapply IHe2; [reflexivity|exact Hng|exact Hv].
    + assert (Hg1 : shape_of (Bin BMul g e2) = Some s1).
      { cbn [shape_of]. now rewrite Hg, E2, shape_eqb_refl. }
      assert (Hg2 : shape_of (Bin BMul g e1) = Some s1).
      { cbn [shape_of]. now rewrite Hg, E1, shape_eqb_refl. }
      destruct (vjp target e1 (Bin BMul g e2)) as [a|] eqn:Va.
      * destruct (IHe1 _ _ _ eq_refl Hg1 Va) as [st [Ht Hr]]. exists st. split; [exact Ht|].
        eapply accumulate_shape; [exact Hv| |].
        -- intros a' Ha'. injection Ha' as <-. exact Hr.
        -- intros b' Hb'. destruct (IHe2 _ _ _ eq_refl Hg2 Hb') as [st' [Ht' Hr']]. congruence.
      * cbn [accumulate] in Hv. eapply IHe2; [reflexivity|exact Hg2|exact Hv].
  - (* Mean *)
    cbn [shape_of] in He. destruct (shape_of e) as [sa|] eqn:Ea; [|discriminate].
    injection He as <-. eapply IHe; [reflexivity| |exact Hv].
    cbn [shape_of]. rewrite Hg, (@shp_of _ _ Ea). reflexivity.
  - (* Expand *)
    cbn [shape_of] in He. destruct (shape_of e) as [sa|] eqn:Ea; [|discriminate].
    destruct (Nat.eqb (numel sa) 1 && Nat.leb (length sa) (length sh))%bool eqn:E;
      [|discriminate].
    injection He as <-. eapply IHe; [reflexivity| |exact Hv].
    cbn [shape_of]. rewrite Hg, (@shp_of _ _ Ea), E. reflexivity.
  - (* SumTo *)
    cbn [shape_of] in He. destruct (shape_of e) as [sa|] eqn:Ea; [|discriminate].
    destruct (Nat.eqb (numel sh) 1 && Nat.leb (length sh) (length sa))%bool eqn:E;
      [|discriminate].
    injection He as <-. eapply IHe; [reflexivity| |exact Hv].
    cbn [shape_of]. rewrite Hg, (@shp_of _ _ Ea), E. reflexivity.
  - (* Reshape *)
    cbn [shape_of] in He. destruct (shape_of e) as [sa|] eqn:Ea; [|discriminate].
    eapply IHe; [reflexivity| |exact Hv].
    cbn [shape_of]. rewrite Hg, (@shp_of _ _ Ea), (@resolve_dims_numel _ _ _ He).
    apply resolve_dims_of_shape.
  - (* Index *)
    cbn [shape_of] in He. destruct (shape_of e) as [[|n rest]|] eqn:Ea; try discriminate.
    destruct (py_index i n) as [k|] eqn:Ei; [|discriminate]. injection He as <-.
    eapply IHe; [reflexivity| |exact Hv].
    cbn [shape_of]. rewrite Hg, (@shp_of _ _ Ea). cbn [hd]. rewrite Ei. reflexivity.
  - (* Unindex *)
    cbn [shape_of] in He. destruct (shape_of e) as [sa|] eqn:Ea; [|discriminate].
    destruct (py_index i n) as [k|] eqn:Ei; [|discriminate]. injection He as <-.
    eapply IHe; [reflexivity| |exact Hv].
    cbn [shape_of]. rewrite Hg, Ei. reflexivity.
  - (* ExpandCols *)
    cbn [shape_of] in He. destruct (shape_of e) as [[|n [|? ?]]|] eqn:Ea; try discriminate.
    injection He as <-. eapply IHe; [reflexivity| |exact Hv].
    cbn [shape_of]. rewrite Hg. reflexivity.
  - (* ExpandRows *)
    cbn [shape_of] in He. destruct (shape_of e) as [[|k [|? ?]]|] eqn:Ea; try discriminate.
    injection He as <-. eapply IHe; [reflexivity| |exact Hv].
    cbn [shape_of]. rewrite Hg. reflexivity.
  - (* SumCols *)
    cbn [shape_of] in He. destruct (shape_of e) as [[|n [|m [|? ?]]]|] eqn:Ea; try discriminate.
    injection He as <-. eapply IHe; [reflexivity| |exact Hv].
    cbn [shape_of]. rewrite Hg, (@shp_of _ _ Ea). reflexivity.
  - (* SumRows *)
    cbn [shape_of] in He. destruct (shape_of e) as [[|n [|m [|? ?]]]|] eqn:Ea; try discriminate.
    injection He as <-. eapply IHe; [reflexivity| |exact Hv].
    cbn [shape_of]. rewrite Hg, (@shp_of _ _ Ea). reflexivity.
  - (* Cat1 *)
    cbn [shape_of] in He.
    destruct (shape_of e1) as [[|n [|p [|? ?]]]|] eqn:E1; try discriminate.
    destruct (shape_of e2) as [[|n' [|q [|? ?]]]|] eqn:E2; try discriminate.
    destruct (Nat.eqb n n') eqn:E; [|discriminate]. apply Nat.eqb_eq in E. subst n'.
    injection He as <-.
    rewrite (@shp_of _ _ E1), (@shp_of _ _ E2) in Hv. cbn [nth] in Hv.
    assert (Hg1 : shape_of (Narrow1 0 p g) = Some [n; p]).
    { cbn [shape_of]. rewrite Hg. destruct (Nat.leb (0 + p) (p + q)) eqn:L; [reflexivity|].
      apply Nat.leb_gt in L. lia. }
    assert (Hg2 : shape_of (Narrow1 p q g) = Some [n; q]).
    { cbn [shape_of]. rewrite Hg. now rewrite Nat.leb_refl. }
    destruct (vjp target e1 (Narrow1 0 p g)) as [a|] eqn:Va.
    + destruct (IHe1 _ _ _ eq_refl Hg1 Va) as [st [Ht Hr]]. exists st. split; [exact Ht|].
      eapply accumulate_shape; [exact Hv| |].
      * intros a' Ha'. injection Ha' as <-. exact Hr.
      * intros b' Hb'. destruct (IHe2 _ _ _ eq_refl Hg2 Hb') as [st' [Ht' Hr']]. congruence.
    + cbn [accumulate] in Hv. eapply IHe2; [reflexivity|exact Hg2|exact Hv].
  - (* Narrow1 *)
    cbn [shape_of] in He. destruct (shape_of e) as [[|n [|c [|? ?]]]|] eqn:Ea; try discriminate.
    destruct (Nat.leb (start + len) c) eqn:L; [|discriminate]. apply Nat.leb_le in L.
    injection He as <-. eapply IHe; [reflexivity| |exact Hv].
    cbn [shape_of]. rewrite Hg, (@shp_of _ _ Ea). cbn [nth]. do 2 f_equal. f_equal. lia.
  - (* PadCols *)
    cbn [shape_of] in He. destruct (shape_of e) as [[|n [|c [|? ?]]]|] eqn:Ea; try discriminate.
    injection He as <-. eapply IHe; [reflexivity| |exact Hv].
    cbn [shape_of]. rewrite Hg, (@shp_of _ _ Ea). cbn [nth].
    destruct (Nat.leb (l + c) (l + c + r)) eqn:L; [reflexivity|].
    apply Nat.leb_gt in L. lia.
  - (* Affine *)
    cbn [shape_of] in He. destruct (shape_of e) as [[|n [|c [|? ?]]]|] eqn:Ea; try discriminate.
    destruct (Nat.eqb c (if tr then outF else inF)) eqn:E; [|discriminate].
    apply Nat.eqb_eq in E. injection He as <-. eapply IHe; [reflexivity| |exact Hv].
    cbn [shape_of]. rewrite Hg. destruct tr; cbn [negb]; rewrite Nat.eqb_refl; now subst c.
Qed.

(** ** Lengths *)


Lemma zip_with_length {A B C : Type} (f : A -> B -> C) (l : list A) (m : list B) :
  length (zip_with f l m) = Nat.min (length l) (length m).
Proof.
  revert m; induction l as [|a l IH]; intros [|b m]; simpl; auto.
Qed.

Lemma chunks_length (n k : nat) (d : list R) : length (chunks n k d) = n.
Proof.
  revert d; induction n as [|n IH]; intros d; simpl; auto.
Qed.

Lemma chunks_rows (n k : nat) :
  forall d : list R, length d = (n * k)%nat ->
  Forall (fun r => length r = k) (chunks n k d).
Proof.
  induction n as [|n IH]; intros d Hd; cbn [chunks]; constructor.
  - rewrite length_firstn. lia.
  - apply IH. rewrite length_skipn. lia.
Qed.

Lemma flat_map_length_const {A B : Type} (f : A -> list B) (k : nat) (rows : list A) :
  Forall (fun r => length (f r) = k) rows ->
  length (flat_map f rows) = (length rows * k)%nat.
Proof.
  induction 1 as [|r rows Hr _ IH]; simpl; [reflexivity|].
  rewrite length_app, Hr, IH. reflexivity.
Qed.

Lemma concat_length_const {A : Type} (k : nat) (rows : list (list A)) :
  Forall (fun r => length r = k) rows ->
  length (concat rows) = (length rows * k)%nat.
Proof.
  induction 1 as [|r rows Hr _ IH]; simpl; [reflexivity|].
  rewrite length_app, Hr, IH. reflexivity.
Qed.

Lemma Forall_zip_with {A B C : Type} (f : A -> B -> C) (P : A -> Prop) (Q : B -> Prop)
    (S : C -> Prop) (l : list A) (m : list B) :
  (forall a b, P a -> Q b -> S (f a b)) ->
  Forall P l -> Forall Q m -> Forall S (zip_with f l m).
Proof.
  intros Hf Hl. revert m. induction Hl as [|a l Ha _ IH]; intros m Hm; [constructor|].
  destruct Hm as [|b m Hb Hm]; cbn [zip_with]; constructor; auto.
Qed.

Lemma col_sums_length (m : nat) (rows : list (list R)) :
  Forall (fun r => length r = m) rows ->
  length (fold_right (zip_with Rplus) (repeat 0 m) rows) = m.
Proof.
  induction 1 as [|r rows Hr _ IH]; cbn [fold_right].
  - apply repeat_length.
  - rewrite zip_with_length, Hr, IH. lia.
Qed.

Lemma numel_2 (n m : nat) : numel [n; m] = (n * m)%nat.
Proof.
  cbn [numel fold_right]. lia.
Qed.

Lemma numel_1 (n : nat) : numel [n] = n.
Proof.
  cbn [numel fold_right]. lia.
Qed.

(** The elements of a tensor are as many as its shape says. *)
Lemma data_length (st : store) (e : expr) :
  forall s, shape_of e = Some s -> length (data st e) = numel s.
Proof.
  induction e; intros s He; cbn [shape_of] in He; cbn [data].
  - injection He as <-. unfold linspace_data. rewrite length_map, length_seq, numel_1.
    reflexivity.
  - injection He as <-. apply repeat_length.
  - rewrite length_map. auto.
  - destruct (shape_of e1) as [s1|] eqn:E1; [|discriminate].
    destruct (shape_of e2) as [s2|] eqn:E2; [|discriminate].
    destruct (shape_eqb s1 s2) eqn:E; [|discriminate].
    apply shape_eqb_eq in E. subst s2. injection He as <-.
    rewrite zip_with_length, (IHe1 _ eq_refl), (IHe2 _ eq_refl). lia.
  - destruct (shape_of e); [|discriminate]. injection He as <-. reflexivity.
  - destruct (shape_of e) as [sa|]; [|discriminate].
    destruct (_ && _)%bool; [|discriminate]. injection He as <-. apply repeat_length.
  - destruct (shape_of e) as [sa|]; [|discriminate].
    destruct (Nat.eqb (numel sh) 1) eqn:E; [|discriminate].
    destruct (Nat.leb _ _); [|discriminate]. injection He as <-.
    apply Nat.eqb_eq in E. now rewrite E.
  - destruct (shape_of e) as [sa|] eqn:Ea; [|discriminate].
    rewrite (IHe _ eq_refl). symmetry. eapply resolve_dims_numel. exact He.
  - destruct (shape_of e) as [[|n rest]|] eqn:Ea; try discriminate.
    destruct (py_index i n) as [k|] eqn:Ei; [|discriminate]. injection He as <-.
    rewrite (@shp_of _ _ Ea). cbn [hd tl]. rewrite Ei.
    apply py_index_lt in Ei.
    rewrite length_firstn, length_skipn, (IHe _ eq_refl).
    cbn [numel fold_right]. fold (numel rest). nia.
  - destruct (shape_of e) as [sa|] eqn:Ea; [|discriminate].
    destruct (py_index i n) as [k|] eqn:Ei; [|discriminate]. injection He as <-.
    apply py_index_lt in Ei.
    rewrite !length_app, !repeat_length, (IHe _ eq_refl), (@shp_of _ _ Ea).
    cbn [numel fold_right]. fold (numel sa). nia.
  - destruct (shape_of e) as [[|n [|? ?]]|] eqn:Ea; try discriminate. injection He as <-.
    rewrite flat_map_length_const with (k := m).
    + rewrite (IHe _ eq_refl), numel_1, numel_2. reflexivity.
    + apply Forall_forall. intros v _. apply repeat_length.
  - destruct (shape_of e) as [[|m [|? ?]]|] eqn:Ea; try discriminate. injection He as <-.
    rewrite concat_length_const with (k := length (data st e)).
    + rewrite repeat_length, (IHe _ eq_refl), numel_1, numel_2. reflexivity.
    + apply Forall_forall. intros r Hr. apply repeat_spec in Hr. now subst r.
  - destruct (shape_of e) as [[|n [|m [|? ?]]]|] eqn:Ea; try discriminate. injection He as <-.
    rewrite length_map, chunks_length, (@shp_of _ _ Ea), numel_1. reflexivity.
  - destruct (shape_of e) as [[|n [|m [|? ?]]]|] eqn:Ea; try discriminate. injection He as <-.
    rewrite (@shp_of _ _ Ea). cbn [hd nth]. rewrite numel_1.
    apply col_sums_length. apply chunks_rows. rewrite (IHe _ eq_refl). apply numel_2.
  - destruct (shape_of e1) as [[|n [|p [|? ?]]]|] eqn:E1; try discriminate.
    destruct (shape_of e2) as [[|n' [|q [|? ?]]]|] eqn:E2; try discriminate.
    destruct (Nat.eqb n n') eqn:E; [|discriminate]. apply Nat.eqb_eq in E. subst n'.
    injection He as <-.
    rewrite (@shp_of _ _ E1), (@shp_of _ _ E2). cbn [hd nth].
    rewrite concat_length_const with (k := (p + q)%nat).
    + rewrite zip_with_length, !chunks_length, numel_2. lia.
    + apply Forall_zip_with with (P := fun r => length r = p) (Q := fun r => length r = q).
      * intros a b Ha Hb. rewrite length_app. lia.
      * apply chunks_rows. rewrite (IHe1 _ eq_refl). apply numel_2.
      * apply chunks_rows. rewrite (IHe2 _ eq_refl). apply numel_2.
  - destruct (shape_of e) as [[|n [|c [|? ?]]]|] eqn:Ea; try discriminate.
    destruct (Nat.leb (start + len) c) eqn:L; [|discriminate]. apply Nat.leb_le in L.
    injection He as <-. rewrite (@shp_of _ _ Ea). cbn [hd nth].
    rewrite flat_map_length_const with (k := len).
    + rewrite chunks_length, numel_2. reflexivity.
    + eapply Forall_impl; [|apply chunks_rows; rewrite (IHe _ eq_refl); apply numel_2].
      cbn beta. intros row Hrow. rewrite length_firstn, length_skipn. lia.
  - destruct (shape_of e) as [[|n [|c [|? ?]]]|] eqn:Ea; try discriminate.
    injection He as <-. rewrite (@shp_of _ _ Ea). cbn [hd nth].
    rewrite flat_map_length_const with (k := (l + c + r)%nat).
    + rewrite chunks_length, numel_2. reflexivity.
    + eapply Forall_impl; [|apply chunks_rows; rewrite (IHe _ eq_refl); apply numel_2].
      cbn beta. intros row Hrow. rewrite !length_app, !repeat_length. lia.
  - destruct (shape_of e) as [[|n [|c [|? ?]]]|] eqn:Ea; try discriminate.
    destruct (Nat.eqb c (if tr then outF else inF)) eqn:E; [|discriminate].
    injection He as <-. rewrite (@shp_of _ _ Ea). cbn [hd nth].
    rewrite flat_map_length_const with (k := if tr then inF else outF).
    + rewrite chunks_length, numel_2. reflexivity.
    + apply Forall_forall. intros row _. unfold affine_row.
      rewrite length_map, length_seq. reflexivity.
Qed.

(** ** C3 *)

Lemma grad_ones_shape (v inp d : expr) :
  grad v inp (ones_like 0 false inp) = Ok d ->
  exists s, shape_of inp = Some s /\ shape_of v = Some s /\ shape_of d = Some s.
Proof.
  unfold grad. destruct (shape_of v) as [so|] eqn:Ev; [|discriminate].
  cbn [ones_like shape_of].
  destruct (shape_eqb (shp inp) so) eqn:E; cbn [negb]; [|discriminate].
  apply shape_eqb_eq in E.
  destruct (requires_grad v); cbn [negb]; [|discriminate].
  destruct (requires_grad inp); cbn [negb]; [|discriminate].
  destruct (vjp inp v (ones_like 0 false inp)) as [r|] eqn:Hv; [|discriminate].
  intros H. injection H as <-.
  assert (Hg : shape_of (ones_like 0 false inp) = Some so)
    by (cbn [ones_like shape_of]; congruence).
  destruct (vjp_shape _ _ _ Ev Hg Hv) as [st [Ht Hr]].
  exists st. rewrite (@shp_of _ _ Ht) in E. subst so. auto.
Qed.

Lemma df_loop_same_shape (k : nat) (inp : expr) :
  forall v r, df_loop k v inp = Ok r -> shape_of v = shape_of inp ->
              df_weighting_output k v inp = Ok r /\ shape_of r = shape_of inp.
Proof.
  induction k as [|k IH]; intros v r H Hs; cbn [df_loop df_weighting_output] in *.
  - injection H as <-. auto.
  - assert (Hones : ones_like 0 false v = ones_like 0 false inp)
      by (unfold ones_like, shp; now rewrite Hs).
    rewrite Hones.
    destruct (grad v inp (ones_like 0 false inp)) as [d|] eqn:Hg; [|discriminate].
    cbn [bind] in *. apply IH; [exact H|].
    destruct (grad_ones_shape _ _ Hg) as [s [H1 [_ H3]]]. congruence.
Qed.

(** C3: when [df] returns with [order >= 1], its result has the shape of
    [input_var]; the differentiated output has that shape too, so the
    weighting [ones_like(input_var)] of every pass is the all-ones weighting
    of the elements of the tensor that the pass differentiates. *)
Theorem df_shape_and_ones_weighting (output input_var r : expr) (order : nat) :
  (1 <= order)%nat ->
  df output input_var order = Ok r ->
  shape_of r = shape_of input_var
  /\ shape_of output = shape_of input_var
  /\ ones_like 0 false input_var = ones_like 0 false output
  /\ (forall st, data st (ones_like 0 false input_var) = repeat 1 (numel (shp output)))
  /\ df_weighting_output order output input_var = Ok r.
Proof.
  intros Ho H. destruct order as [|k]; [lia|]. unfold df in H.
  assert (Hs : shape_of output = shape_of input_var).
  { cbn [df_loop] in H.
    destruct (grad output input_var (ones_like 0 false input_var)) as [d|] eqn:Hg;
      [|discriminate].
    destruct (grad_ones_shape _ _ Hg) as [s [H1 [H2 _]]]. congruence. }
  destruct (df_loop_same_shape _ _ _ H Hs) as [Hw Hr].
  assert (Hones : ones_like 0 false input_var = ones_like 0 false output)
    by (unfold ones_like, shp; now rewrite Hs).
  repeat split; try assumption.
  intros st. rewrite Hones. reflexivity.
Qed.

Lemma dfdx_run : exists d, dfdx model x t 2 = Ok d.
Proof.
  assert (H : match dfdx model x t 2 with Ok _ => True | Err _ => False end)
    by (vm_compute; exact I).
  destruct (dfdx model x t 2) as [d|]; [|contradiction]. now exists d.
Qed.

Lemma df_shape_and_ones_weighting_witness :
  exists r, df (forward model x t) x 2 = Ok r
            /\ shape_of r = shape_of x
            /\ df_weighting_output 2 (forward model x t) x = Ok r.
Proof.
  destruct dfdx_run as [r Hr]. exists r. split; [exact Hr|].
  destruct (@df_shape_and_ones_weighting (forward model x t) x r 2) as [H1 [_ [_ [_ H5]]]].
  - lia.
  - exact Hr.
  - split; assumption.
Defined.

(** ** The collocation grid *)

Lemma resolve_dims_col (n : nat) : resolve_dims [-1; 1]%Z n = Some [n; 1%nat].
Proof.
  unfold resolve_dims. cbn. change (Pos.to_nat 1) with 1%nat.
  now rewrite Nat.mod_1_r, Nat.div_1_r.
Qed.

Lemma resolve_dims_flat (n : nat) : resolve_dims [-1]%Z n = Some [n].
Proof.
  unfold resolve_dims. cbn. change (Pos.to_nat 1) with 1%nat.
  now rewrite Nat.mod_1_r, Nat.div_1_r.
Qed.

Section Grid.

Variables (x_domain t_domain : scalar * scalar) (nx nt : nat).

Let g : collocation := build x_domain nx t_domain nt.

Lemma grid_shapes :
  shape_of (c_x_idx g) = Some [nx; 1%nat]
  /\ shape_of (c_t_idx g) = Some [nt; 1%nat]
  /\ shape_of (c_x g) = Some [(nx * nt)%nat; 1%nat]
  /\ shape_of (c_t g) = Some [(nx * nt)%nat; 1%nat].
Proof.
  unfold g, build, to_device, flatten, meshgrid, shp.
  cbn [c_x_idx c_t_idx c_x c_t fst snd shape_of hd].
  rewrite !numel_1, !numel_2, !resolve_dims_flat, !numel_1, !resolve_dims_col.
  repeat split; reflexivity.
Qed.

Lemma grid_data (st : store) :
  data st (c_x_idx g) = linspace_data (sval st (fst x_domain)) (sval st (snd x_domain)) nx
  /\ data st (c_t_idx g) = linspace_data (sval st (fst t_domain)) (sval st (snd t_domain)) nt
  /\ data st (c_x g)
     = flat_map (fun v => repeat v nt)
         (linspace_data (sval st (fst x_domain)) (sval st (snd x_domain)) nx)
  /\ data st (c_t g)
     = concat (repeat (linspace_data (sval st (fst t_domain)) (sval st (snd t_domain)) nt) nx).
Proof.
  unfold g, build, to_device, flatten, meshgrid, shp.
  cbn [c_x_idx c_t_idx c_x c_t fst snd shape_of hd data].
  repeat split; reflexivity.
Qed.

End Grid.

(** ** Elementwise graphs over two tensors *)

Lemma expr_eqb_false (a b : expr) : a <> b -> expr_eqb a b = false.
Proof.
  intros H. destruct (expr_eqb_spec a b); [contradiction|reflexivity].
Qed.

Lemma map_fst_combine {A B : Type} (l : list A) (m : list B) :
  length l = length m -> map fst (combine l m) = l.
Proof.
  revert m; induction l as [|a l IH]; intros [|b m] H; try discriminate; [reflexivity|].
  cbn [combine map fst]. f_equal. apply IH. now injection H.
Qed.

Lemma map_snd_combine {A B : Type} (l : list A) (m : list B) :
  length l = length m -> map snd (combine l m) = m.
Proof.
  revert m; induction l as [|a l IH]; intros [|b m] H; try discriminate; [reflexivity|].
  cbn [combine map snd]. f_equal. apply IH. now injection H.
Qed.

Lemma repeat_as_map {A B : Type} (c : B) (l : list A) :
  repeat c (length l) = map (fun _ => c) l.
Proof.
  induction l as [|a l IH]; [reflexivity|]. cbn [length repeat map]. now rewrite IH.
Qed.

Lemma zip_with_map_same {A B C D : Type} (f : B -> C -> D) (u : A -> B) (v : A -> C)
    (l : list A) :
  zip_with f (map u l) (map v l) = map (fun p => f (u p) (v p)) l.
Proof.
  induction l as [|a l IH]; [reflexivity|]. cbn [map zip_with]. now rewrite IH.
Qed.

Lemma vjp_self (e g : expr) : vjp e e g = Some g.
Proof.
  destruct e; cbn [vjp]; now rewrite expr_eqb_refl.
Qed.

Section Analytic.

Variables (dX dT : list Z) (aX aT : expr) (s : shape).

Let X : expr := Reshape dX aX.
Let T : expr := Reshape dT aT.

Hypothesis HXT : X <> T.
Hypothesis NX : forall g, vjp X aT g = None.
Hypothesis NT : forall g, vjp T aX g = None.
Hypothesis SX : shape_of X = Some s.
Hypothesis ST : shape_of T = Some s.
Hypothesis GX : requires_grad X = true.
Hypothesis GT : requires_grad T = true.

Lemma vjp_X_T (g : expr) : vjp X T g = None.
Proof.
  unfold T at 1. cbn [vjp]. fold T.
  rewrite (@expr_eqb_false T X) by congruence. apply NX.
Qed.

Lemma vjp_T_X (g : expr) : vjp T X g = None.
Proof.
  unfold X at 1. cbn [vjp]. fold X.
  rewrite (@expr_eqb_false X T) by congruence. apply NT.
Qed.

Ltac not_the_input :=
  repeat match goal with
         | |- context [expr_eqb ?a ?b] =>
             rewrite (@expr_eqb_false a b)
               by (let E := fresh in
                   intros E; try unfold X in E; try unfold T in E; discriminate E)
         end.

Ltac grad_start :=
  unfold grad; cbn [shape_of requires_grad];
  change (shape_of (Reshape dX aX)) with (shape_of X);
  change (shape_of (Reshape dT aT)) with (shape_of T);
  change (requires_grad aX) with (requires_grad X);
  change (requires_grad aT) with (requires_grad T);
  rewrite ?SX, ?ST, ?shape_eqb_refl, ?GX, ?GT; cbn [negb orb];
  rewrite ?SX, ?ST, ?shape_eqb_refl, ?GX, ?GT, ?orb_true_r; cbn [negb orb];
  cbn [vjp un_backward accumulate]; not_the_input;
  rewrite ?vjp_self, ?vjp_X_T, ?vjp_T_X.

Lemma analytic_grad_x : grad (analytic X T) X (Fill 0 false 1 s) = Ok (analytic_d1x X T s).
Proof.
  unfold analytic. grad_start. reflexivity.
Qed.

Lemma analytic_grad_xx : grad (analytic_d1x X T s) X (Fill 0 false 1 s) = Ok (analytic_d2x X T s).
Proof.
  unfold analytic_d1x. grad_start. reflexivity.
Qed.

Lemma analytic_grad_t : grad (analytic X T) T (Fill 0 false 1 s) = Ok (analytic_d1t X T s).
Proof.
  unfold analytic. grad_start. reflexivity.
Qed.

Lemma analytic_grad_tt : grad (analytic_d1t X T s) T (Fill 0 false 1 s) = Ok (analytic_d2t X T s).
Proof.
  unfold analytic_d1t. grad_start. reflexivity.
Qed.

Lemma ones_X : ones_like 0 false X = Fill 0 false 1 s.
Proof.
  unfold ones_like. now rewrite (@shp_of _ _ SX).
Qed.

Lemma ones_T : ones_like 0 false T = Fill 0 false 1 s.
Proof.
  unfold ones_like. now rewrite (@shp_of _ _ ST).
Qed.

Lemma analytic_df_x : df (analytic X T) X 2 = Ok (analytic_d2x X T s).
Proof.
  unfold df. cbn [df_loop]. rewrite ones_X, analytic_grad_x. cbn [bind].
  rewrite analytic_grad_xx. reflexivity.
Qed.

Lemma analytic_df_t : df (analytic X T) T 2 = Ok (analytic_d2t X T s).
Proof.
  unfold df. cbn [df_loop]. rewrite ones_T, analytic_grad_t. cbn [bind].
  rewrite analytic_grad_tt. reflexivity.
Qed.

Variable st : store.

Lemma points_length : length (combine (data st X) (data st T)) = numel s.
Proof.
  rewrite length_combine.
  replace (length (data st T)) with (length (data st X)).
  - rewrite Nat.min_id. exact (data_length st X SX).
  - etransitivity; [exact (data_length st X SX)|symmetry; exact (data_length st T ST)].
Qed.

Lemma points_fst : data st X = map fst (combine (data st X) (data st T)).
Proof.
  symmetry. apply map_fst_combine.
  etransitivity; [exact (data_length st X SX)|symmetry; exact (data_length st T ST)].
Qed.

Lemma points_snd : data st T = map snd (combine (data st X) (data st T)).
Proof.
  symmetry. apply map_snd_combine.
  etransitivity; [exact (data_length st X SX)|symmetry; exact (data_length st T ST)].
Qed.

Ltac pointwise :=
  cbn [data];
  generalize points_fst points_snd points_length;
  generalize (combine (data st X) (data st T));
  intros pts Hx Ht Hn; rewrite Hx, Ht, <- Hn, ?repeat_as_map;
  repeat (rewrite ?map_map, ?zip_with_map_same);
  apply map_ext; intros [xv tv]; cbn [un_val bin_val sval fst snd pow].

Lemma analytic_d2x_data :
  data st (analytic_d2x X T s) = map (fun p => 2 * snd p ^ 3) (combine (data st X) (data st T)).
Proof.
  unfold analytic_d2x. pointwise. field.
Qed.

Lemma analytic_d2t_data :
  data st (analytic_d2t X T s)
  = map (fun p => 6 * fst p ^ 2 * snd p) (combine (data st X) (data st T)).
Proof.
  unfold analytic_d2t. pointwise. field.
Qed.

End Analytic.

Section GridAnalytic.

Variables (x_domain t_domain : scalar * scalar) (nx nt : nat).

Let g : collocation := build x_domain nx t_domain nt.

Lemma grid_x_neq_t : c_x g <> c_t g.
Proof.
  unfold g, build, to_device, flatten, meshgrid. cbn [c_x c_t fst snd]. discriminate.
Qed.

Lemma grid_requires_grad : requires_grad (c_x g) = true /\ requires_grad (c_t g) = true.
Proof.
  split; reflexivity.
Qed.

Ltac not_reached :=
  intros; cbn [vjp];
  repeat match goal with
         | |- context [expr_eqb ?a ?b] =>
             rewrite (@expr_eqb_false a b) by discriminate
         end;
  reflexivity.

Lemma grid_analytic :
  exists d2x d2t,
    df (analytic (c_x g) (c_t g)) (c_x g) 2 = Ok d2x
    /\ df (analytic (c_x g) (c_t g)) (c_t g) 2 = Ok d2t
    /\ forall st,
         length (combine (data st (c_x g)) (data st (c_t g))) = (nx * nt)%nat
         /\ data st d2x
            = map (fun p => 2 * snd p ^ 3) (combine (data st (c_x g)) (data st (c_t g)))
         /\ data st d2t
            = map (fun p => 6 * fst p ^ 2 * snd p)
                (combine (data st (c_x g)) (data st (c_t g))).
Proof.
  destruct (grid_shapes x_domain t_domain nx nt) as [_ [_ [SX ST]]].
  destruct grid_requires_grad as [GX GT].
  pose proof grid_x_neq_t as HXT.
  fold g in SX, ST. revert SX ST GX GT HXT.
  unfold g, build, to_device, flatten, meshgrid. cbn [c_x c_t fst snd].
  intros SX ST GX GT HXT.
  eexists. eexists. split; [|split].
  - apply analytic_df_x with (s := [(nx * nt)%nat; 1%nat]); try assumption; not_reached.
  - apply analytic_df_t with (s := [(nx * nt)%nat; 1%nat]); try assumption; not_reached.
  - intros st. split; [|split].
    + rewrite points_length with (s := [(nx * nt)%nat; 1%nat]) by assumption.
      rewrite numel_2. lia.
    + apply analytic_d2x_data; assumption.
    + apply analytic_d2t_data; assumption.
Qed.

End GridAnalytic.

Lemma analytic_dtt_counterexample :
  let g := build (SRat 0 1, SRat 1 1) 3 (SRat 0 1, SRat 1 1) 2 in
  ~ (forall d2t,
       df (analytic (c_x g) (c_t g)) (c_t g) 2 = Ok d2t ->
       data st0 d2t
       = map (fun p => 6 * fst p * snd p) (combine (data st0 (c_x g)) (data st0 (c_t g)))).
Proof.
  intros g H.
  destruct (grid_analytic (SRat 0 1, SRat 1 1) (SRat 0 1, SRat 1 1) 3 2)
    as [d2x [d2t [_ [Ht Hd]]]].
  specialize (H d2t Ht). destruct (Hd st0) as [_ [_ Hd2]].
  unfold g in H. rewrite Hd2 in H.
  destruct (grid_data (SRat 0 1, SRat 1 1) (SRat 0 1, SRat 1 1) 3 2 st0) as [_ [_ [Dx Dt]]].
  rewrite Dx, Dt in H.
  apply (f_equal (fun l => nth 3 l 0)) in H.
  cbn [linspace_data seq map flat_map repeat concat app combine nth fst snd sval Nat.sub INR pow] in H.
  lra.
Qed.

(** ** C7 *)

(** C7, as amended: on the collocation grid of any domain and any counts,
    with the network replaced by f(x,t) = x^2 t^3, [df] of order 2 with
    respect to x returns 2 t^3 at every point and [df] of order 2 with
    respect to t returns 6 x^2 t at every point. *)
Theorem analytic_second_derivatives (x_domain t_domain : scalar * scalar) (nx nt : nat) :
  exists d2x d2t,
    df (analytic (c_x (build x_domain nx t_domain nt)) (c_t (build x_domain nx t_domain nt)))
       (c_x (build x_domain nx t_domain nt)) 2 = Ok d2x
    /\ df (analytic (c_x (build x_domain nx t_domain nt)) (c_t (build x_domain nx t_domain nt)))
          (c_t (build x_domain nx t_domain nt)) 2 = Ok d2t
    /\ forall st,
         length (combine (data st (c_x (build x_domain nx t_domain nt)))
                         (data st (c_t (build x_domain nx t_domain nt)))) = (nx * nt)%nat
         /\ data st d2x
            = map (fun p => 2 * snd p ^ 3)
                (combine (data st (c_x (build x_domain nx t_domain nt)))
                         (data st (c_t (build x_domain nx t_domain nt))))
         /\ data st d2t
            = map (fun p => 6 * fst p ^ 2 * snd p)
                (combine (data st (c_x (build x_domain nx t_domain nt)))
                         (data st (c_t (build x_domain nx t_domain nt)))).
Proof.
  exact (grid_analytic x_domain t_domain nx nt).
Qed.

(** ** Evenly spaced points *)

Lemma linspace_length (lo hi : R) (n : nat) : length (linspace_data lo hi n) = n.
Proof.
  unfold linspace_data. now rewrite length_map, length_seq.
Qed.

Lemma linspace_nth (lo hi : R) (n i : nat) :
  (i < n)%nat ->
  nth i (linspace_data lo hi n) 0 = lo + INR i * ((hi - lo) / INR (n - 1)).
Proof.
  intros Hi. unfold linspace_data. now rewrite nth_map_seq.
Qed.

Lemma linspace_first (lo hi : R) (n : nat) :
  (1 <= n)%nat -> nth 0 (linspace_data lo hi n) 0 = lo.
Proof.
  intros Hn. rewrite linspace_nth by lia. cbn [INR]. ring.
Qed.

Lemma linspace_last (lo hi : R) (n : nat) :
  (2 <= n)%nat -> nth (n - 1) (linspace_data lo hi n) 0 = hi.
Proof.
  intros Hn. rewrite linspace_nth by lia.
  assert (H : INR (n - 1) <> 0) by (apply not_0_INR; lia).
  field. exact H.
Qed.

Lemma linspace_step (lo hi : R) (n i : nat) :
  (S i < n)%nat ->
  nth (S i) (linspace_data lo hi n) 0 - nth i (linspace_data lo hi n) 0
  = (hi - lo) / INR (n - 1).
Proof.
  intros Hi. rewrite !linspace_nth by lia. rewrite S_INR. ring.
Qed.

Lemma linspace_increasing (lo hi : R) (n i j : nat) :
  lo < hi -> (i < j)%nat -> (j < n)%nat ->
  nth i (linspace_data lo hi n) 0 < nth j (linspace_data lo hi n) 0.
Proof.
  intros Hlh Hij Hj. rewrite !linspace_nth by lia.
  assert (Hn : 0 < INR (n - 1)) by (apply lt_0_INR; lia).
  assert (Hs : 0 < (hi - lo) / INR (n - 1)) by (apply Rdiv_lt_0_compat; lra).
  apply lt_INR in Hij. nra.
Qed.

(** ** The outer product of the two axes *)

Lemma nth_flat_repeat (m : nat) (d : R) (l : list R) :
  forall i j, (i < length l)%nat -> (j < m)%nat ->
  nth (i * m + j) (flat_map (fun v => repeat v m) l) d = nth i l d.
Proof.
  induction l as [|a l IH]; intros i j Hi Hj; [cbn [length] in Hi; lia|].
  cbn [flat_map]. destruct i as [|i].
  - cbn [Nat.mul Nat.add nth]. rewrite app_nth1 by (now rewrite repeat_length).
    apply nth_repeat_lt. assumption.
  - rewrite app_nth2 by (rewrite repeat_length; cbn [Nat.mul]; lia).
    rewrite repeat_length. cbn [nth length] in *.
    replace (S i * m + j - m)%nat with (i * m + j)%nat by (cbn [Nat.mul]; lia).
    apply IH; lia.
Qed.

Lemma nth_concat_repeat (l : list R) (d : R) (n : nat) :
  forall i j, (i < n)%nat -> (j < length l)%nat ->
  nth (i * length l + j) (concat (repeat l n)) d = nth j l d.
Proof.
  induction n as [|n IH]; intros i j Hi Hj; [lia|].
  cbn [repeat concat]. destruct i as [|i].
  - cbn [Nat.mul Nat.add]. now rewrite app_nth1.
  - rewrite app_nth2 by (cbn [Nat.mul]; lia).
    replace (S i * length l + j - length l)%nat with (i * length l + j)%nat
      by (cbn [Nat.mul]; lia).
    apply IH; lia.
Qed.

(** ** C6 *)

(** C6: two builds from the same arguments are the same grids; [x] and [t]
    have shape [nx*nt, 1] and hold the outer product of the two axes;
    [x_idx] and [t_idx] have [nx] and [nt] points, evenly spaced from the
    lower to the upper bound of their domain and strictly increasing. *)
Theorem collocation_sampling (x_domain t_domain : scalar * scalar) (nx nt : nat) (st : store) :
  (2 <= nx)%nat -> (2 <= nt)%nat ->
  sval st (fst x_domain) < sval st (snd x_domain) ->
  sval st (fst t_domain) < sval st (snd t_domain) ->
  let g := build x_domain nx t_domain nt in
  let xs := data st (c_x_idx g) in
  let ts := data st (c_t_idx g) in
  (forall x_domain' nx' t_domain' nt',
      x_domain' = x_domain -> nx' = nx -> t_domain' = t_domain -> nt' = nt ->
      build x_domain' nx' t_domain' nt' = g)
  /\ (shape_of (c_x g) = Some [(nx * nt)%nat; 1%nat]
      /\ shape_of (c_t g) = Some [(nx * nt)%nat; 1%nat]
      /\ length (data st (c_x g)) = (nx * nt)%nat
      /\ length (data st (c_t g)) = (nx * nt)%nat)
  /\ (forall i j, (i < nx)%nat -> (j < nt)%nat ->
        nth (i * nt + j) (data st (c_x g)) 0 = nth i xs 0
        /\ nth (i * nt + j) (data st (c_t g)) 0 = nth j ts 0)
  /\ (shape_of (c_x_idx g) = Some [nx; 1%nat] /\ length xs = nx
      /\ shape_of (c_t_idx g) = Some [nt; 1%nat] /\ length ts = nt)
  /\ (nth 0 xs 0 = sval st (fst x_domain) /\ nth (nx - 1) xs 0 = sval st (snd x_domain)
      /\ nth 0 ts 0 = sval st (fst t_domain) /\ nth (nt - 1) ts 0 = sval st (snd t_domain))
  /\ (forall i, (S i < nx)%nat ->
        nth (S i) xs 0 - nth i xs 0
        = (sval st (snd x_domain) - sval st (fst x_domain)) / INR (nx - 1))
  /\ (forall j, (S j < nt)%nat ->
        nth (S j) ts 0 - nth j ts 0
        = (sval st (snd t_domain) - sval st (fst t_domain)) / INR (nt - 1))
  /\ (forall i i', (i < i')%nat -> (i' < nx)%nat -> nth i xs 0 < nth i' xs 0)
  /\ (forall j j', (j < j')%nat -> (j' < nt)%nat -> nth j ts 0 < nth j' ts 0).
Proof.
  intros Hnx Hnt Hx Ht g xs ts.
  destruct (grid_shapes x_domain t_domain nx nt) as [S1 [S2 [S3 S4]]].
  destruct (grid_data x_domain t_domain nx nt st) as [D1 [D2 [D3 D4]]].
  fold g in S1, S2, S3, S4, D1, D2, D3, D4. fold xs in D1. fold ts in D2.
  split; [|split; [|split; [|split; [|split; [|split; [|split; [|split]]]]]]].
  - intros; subst; reflexivity.
  - split; [exact S3|]. split; [exact S4|].
    rewrite (data_length st _ S3), (data_length st _ S4), numel_2. lia.
  - intros i j Hi Hj. rewrite D3, D4. split.
    + rewrite nth_flat_repeat; [now rewrite <- D1| |assumption].
      now rewrite linspace_length.
    + rewrite <- (linspace_length (sval st (fst t_domain)) (sval st (snd t_domain)) nt) at 1.
      rewrite nth_concat_repeat; [now rewrite <- D2|assumption|].
      now rewrite linspace_length.
  - rewrite D1, D2, !linspace_length. auto.
  - rewrite D1, D2, !linspace_first, !linspace_last by lia. auto.
  - intros i Hi. rewrite D1. now apply linspace_step.
  - intros j Hj. rewrite D2. now apply linspace_step.
  - intros i i' H1 H2. rewrite D1. now apply linspace_increasing.
  - intros j j' H1 H2. rewrite D2. now apply linspace_increasing.
Qed.

Lemma collocation_sampling_witness :
  (2 <= n_points_x)%nat /\ (2 <= n_points_t)%nat
  /\ shape_of x = Some [(100 * 150)%nat; 1%nat]
  /\ nth 99 (data st0 x_idx) 0 = 1.
Proof.
  assert (H0 : sval st0 (SRat 0 1) < sval st0 (SRat 1 1)) by (cbn [sval]; lra).
  assert (Hx : (2 <= n_points_x)%nat) by (unfold n_points_x; lia).
  assert (Ht : (2 <= n_points_t)%nat) by (unfold n_points_t; lia).
  destruct (@collocation_sampling x_domain t_domain n_points_x n_points_t st0 Hx Ht H0 H0)
    as [_ [[S _] [_ [_ [[_ [L _]] _]]]]].
  split; [exact Hx|]. split; [exact Ht|]. split; [exact S|].
  change (nth 99 (data st0 x_idx) 0 = sval st0 (SRat 1 1)) in L.
  rewrite L. cbn [sval]. lra.
Defined.

(** ** C1 *)

Lemma data_mean_sq (st : store) (r : expr) :
  data st (Mean (Un (UPow 2) r)) = [mean_sq (data st r)].
Proof.
  cbn [data]. unfold mean_sq. rewrite length_map. reflexivity.
Qed.

Lemma zip_with_map_r {A B C D : Type} (f : A -> C -> D) (h : B -> C) (l : list A) (m : list B) :
  zip_with f l (map h m) = zip_with (fun a b => f a (h b)) l m.
Proof.
  revert m; induction l as [|a l IH]; intros [|b m]; cbn [map zip_with]; auto.
  now rewrite IH.
Qed.

Lemma nth_zip_with {A B C : Type} (f : A -> B -> C) (l : list A) (m : list B)
    (k : nat) (da : A) (db : B) (dc : C) :
  (k < length l)%nat -> (k < length m)%nat ->
  nth k (zip_with f l m) dc = f (nth k l da) (nth k m db).
Proof.
  revert m k; induction l as [|a l IH]; intros [|b m] [|k] Hl Hm;
    cbn [length] in *; try lia; cbn [zip_with nth]; [reflexivity|].
  apply IH; lia.
Qed.

Lemma compute_loss_inv (model : simple_NN2) (x t x_idx t_idx : expr) (C : scalar)
    (loss : expr) :
  compute_loss model x t x_idx t_idx C = Ok loss ->
  exists d2x d2t dt0,
    dfdx model x t 2 = Ok d2x
    /\ dfdt model x t 2 = Ok d2t
    /\ dfdt model x_idx (zero_time x_idx) 1 = Ok dt0
    /\ loss =
       Bin BAdd (Bin BAdd (Bin BAdd (Bin BAdd
         (Mean (Un (UPow 2) (pde_residual d2x d2t C)))
         (Mean (Un (UPow 2) (forward model (boundary_column id_boundary_x0 0 x t_idx) t_idx))))
         (Mean (Un (UPow 2)
                  (forward model (boundary_column id_boundary_x1 (-1) x t_idx) t_idx))))
         (Mean (Un (UPow 2) (initial_value_residual model x_idx))))
         (Mean (Un (UPow 2) dt0)).
Proof.
  unfold compute_loss.
  destruct (dfdx model x t 2) as [d2x|]; [|discriminate].
  destruct (dfdt model x t 2) as [d2t|]; [|discriminate].
  cbn [bind].
  destruct (dfdt model x_idx (zero_time x_idx) 1) as [dt0|]; [|discriminate].
  cbn [bind]. intros H. injection H as <-.
  exists d2x, d2t, dt0. repeat split; reflexivity.
Qed.

(** C1: the loss that [compute_loss] returns is the plain sum of the five
    means of squares; the only coefficient is 1/C^2 on the second time
    derivative inside the PDE residual. *)
Theorem loss_is_sum_of_five_mean_squares (model : simple_NN2) (x t x_idx t_idx : expr)
    (C : scalar) (loss : expr) (st : store) :
  compute_loss model x t x_idx t_idx C = Ok loss ->
  sval st C <> 0 ->
  exists d2x d2t dt0,
    dfdx model x t 2 = Ok d2x
    /\ dfdt model x t 2 = Ok d2t
    /\ dfdt model x_idx (zero_time x_idx) 1 = Ok dt0
    /\ data st loss =
       [ mean_sq (data st (pde_residual d2x d2t C))
         + mean_sq (data st (forward model (boundary_column id_boundary_x0 0 x t_idx) t_idx))
         + mean_sq (data st (forward model (boundary_column id_boundary_x1 (-1) x t_idx) t_idx))
         + mean_sq (data st (initial_value_residual model x_idx))
         + mean_sq (data st dt0) ]
    /\ data st (pde_residual d2x d2t C)
       = zip_with (fun a b => a - 1 / sval st C ^ 2 * b) (data st d2x) (data st d2t).
Proof.
  intros H HC. destruct (compute_loss_inv _ _ _ _ _ _ H) as [d2x [d2t [dt0 [H1 [H2 [H3 H4]]]]]].
  exists d2x, d2t, dt0. repeat split; try assumption.
  - subst loss. cbn [data]. fold (data st (Mean (Un (UPow 2) dt0))).
    rewrite !length_map. unfold mean_sq. cbn [zip_with bin_val un_val]. reflexivity.
  - unfold pde_residual. cbn [data]. rewrite zip_with_map_r.
    cbn [bin_val un_val sval]. 
    replace (IZR 1 / IZR 1 / sval st C ^ 2) with (1 / sval st C ^ 2)
      by (field; first [exact HC | apply pow_nonzero; exact HC]).
    reflexivity.
Qed.

Lemma loss_is_sum_of_five_mean_squares_witness :
  exists loss d2x d2t dt0,
    compute_loss model x t x_idx t_idx C_default = Ok loss
    /\ sval st0 C_default <> 0
    /\ data st0 loss =
       [ mean_sq (data st0 (pde_residual d2x d2t C_default))
         + mean_sq (data st0 (forward model (boundary_column id_boundary_x0 0 x t_idx) t_idx))
         + mean_sq (data st0 (forward model (boundary_column id_boundary_x1 (-1) x t_idx) t_idx))
         + mean_sq (data st0 (initial_value_residual model x_idx))
         + mean_sq (data st0 dt0) ].
Proof.
  destruct compute_loss_run as [loss [Hl _]].
  assert (HC : sval st0 C_default <> 0) by (cbn [sval C_default]; lra).
  destruct (@loss_is_sum_of_five_mean_squares model x t x_idx t_idx C_default loss st0 Hl HC)
    as [d2x [d2t [dt0 [_ [_ [_ [H _]]]]]]].
  exists loss, d2x, d2t, dt0. split; [exact Hl|]. split; [exact HC|exact H].
Defined.

(** ** Two passes of [df] *)

Lemma df_order_2 (output input_var d2 : expr) :
  df output input_var 2 = Ok d2 ->
  exists d1 s,
    grad output input_var (ones_like 0 false input_var) = Ok d1
    /\ grad d1 input_var (ones_like 0 false input_var) = Ok d2
    /\ shape_of input_var = Some s /\ shape_of output = Some s /\ shape_of d2 = Some s.
Proof.
  unfold df. cbn [df_loop].
  destruct (grad output input_var (ones_like 0 false input_var)) as [d1|] eqn:G1;
    [|discriminate].
  cbn [bind].
  destruct (grad d1 input_var (ones_like 0 false input_var)) as [d|] eqn:G2;
    [|discriminate].
  cbn [bind]. intros H. injection H as <-.
  destruct (grad_ones_shape _ _ G1) as [s [A1 [A2 A3]]].
  destruct (grad_ones_shape _ _ G2) as [s' [B1 [B2 B3]]].
  exists d1, s. repeat split; try assumption. congruence.
Qed.

(** ** The network, row by row *)

Lemma chunks_flat_map {A : Type} (f : A -> list R) (k : nat) (rows : list A) :
  (forall r, length (f r) = k) ->
  chunks (length rows) k (flat_map f rows) = map f rows.
Proof.
  intros Hf. induction rows as [|r rows IH]; [reflexivity|].
  cbn [length chunks flat_map map].
  rewrite firstn_app, skipn_app, Hf, Nat.sub_diag, <- (Hf r), firstn_all, skipn_all.
  cbn [firstn skipn app]. rewrite app_nil_r, (Hf r), IH. reflexivity.
Qed.

Lemma chunks_map (g : R -> R) (n k : nat) :
  forall d, chunks n k (map g d) = map (map g) (chunks n k d).
Proof.
  induction n as [|n IH]; intros d; [reflexivity|].
  cbn [chunks map]. now rewrite firstn_map, skipn_map, IH.
Qed.

Lemma concat_chunks (n k : nat) :
  forall d, length d = (n * k)%nat -> concat (chunks n k d) = d.
Proof.
  induction n as [|n IH]; intros d Hd.
  - destruct d; [reflexivity|discriminate].
  - cbn [chunks concat]. rewrite IH by (rewrite length_skipn; lia).
    apply firstn_skipn.
Qed.

Lemma flat_map_map {A B C : Type} (f : A -> B) (g : B -> list C) (l : list A) :
  flat_map g (map f l) = flat_map (fun a => g (f a)) l.
Proof.
  induction l as [|a l IH]; [reflexivity|]. cbn [map flat_map]. now rewrite IH.
Qed.

Lemma flat_map_singleton {A B : Type} (f : A -> B) (l : list A) :
  flat_map (fun a => [f a]) l = map f l.
Proof.
  induction l as [|a l IH]; [reflexivity|]. cbn [map flat_map app]. now rewrite IH.
Qed.

Lemma sequential_shape_inv (ls : list layer) :
  forall k a s, shape_of (sequential k ls a) = Some s -> exists sa, shape_of a = Some sa.
Proof.
  induction ls as [|l ls IH]; intros k a s H; cbn [sequential] in H.
  - now exists s.
  - destruct (IH _ _ _ H) as [sa Ha].
    destruct l; cbn [apply_layer shape_of] in Ha.
    + destruct (shape_of a) as [s0|]; [now exists s0|discriminate].
    + now exists sa.
Qed.

Lemma sequential_rows (st : store) (ls : list layer) :
  forall k a n c s,
  shape_of a = Some [n; c] ->
  shape_of (sequential k ls a) = Some s ->
  data st (sequential k ls a) = flat_map (sequential_row st k ls) (chunks n c (data st a)).
Proof.
  induction ls as [|l ls IH]; intros k a n c s Ha Hs; cbn [sequential sequential_row].
  - rewrite flat_map_concat_map, map_id. symmetry. apply concat_chunks.
    rewrite (data_length st _ Ha). apply numel_2.
  - cbn [sequential] in Hs. destruct (sequential_shape_inv _ _ _ Hs) as [sa' Ha'].
    destruct l as [inF outF|].
    + cbn [apply_layer shape_of] in Ha'. rewrite Ha in Ha'.
      destruct (Nat.eqb c inF) eqn:E; [|discriminate]. injection Ha' as <-.
      assert (Ha2 : shape_of (apply_layer k (Linear inF outF) a) = Some [n; outF]).
      { cbn [apply_layer shape_of]. now rewrite Ha, E. }
      rewrite (IH _ _ _ _ _ Ha2 Hs). cbn [apply_layer data].
      rewrite (@shp_of _ _ Ha). cbn [hd nth].
      rewrite <- (chunks_length n c (data st a)) at 1.
      rewrite chunks_flat_map, flat_map_map.
      * apply flat_map_ext. intros r. reflexivity.
      * intros r. unfold affine_row. now rewrite length_map, length_seq.
    + cbn [apply_layer shape_of] in Ha'.
      assert (Ha2 : shape_of (apply_layer k Tanh a) = Some [n; c]) by exact Ha.
      rewrite (IH _ _ _ _ _ Ha2 Hs). cbn [apply_layer data un_val].
      rewrite chunks_map, flat_map_map. apply flat_map_ext. intros r. reflexivity.
Qed.

Lemma chunks_1 (d : list R) : chunks (length d) 1 d = map (fun v => [v]) d.
Proof.
  induction d as [|v d IH]; [reflexivity|].
  cbn [length chunks firstn skipn map]. now rewrite IH.
Qed.

Lemma chunks_col (d : list R) (n : nat) :
  length d = n -> chunks n 1 d = map (fun v => [v]) d.
Proof.
  intros <-. apply chunks_1.
Qed.

Lemma cat_rows (xs ts : list R) :
  zip_with (@app R) (map (fun v => [v]) xs) (map (fun v => [v]) ts)
  = map (fun p => [fst p; snd p]) (combine xs ts).
Proof.
  revert ts; induction xs as [|xv xs IH]; intros [|tv ts]; cbn [map zip_with combine]; auto.
  now rewrite IH.
Qed.

Lemma model_row (st : store) (r : list R) :
  sequential_row st 0 (linear_tanh_stack model) r
  = [hd 0 (sequential_row st 0 (linear_tanh_stack model) r)].
Proof.
  unfold model, simple_NN2_init. cbn [linear_tanh_stack sequential_row].
  unfold affine_row at 1. cbn [seq map hd]. reflexivity.
Qed.

(** The network evaluates its batch point by point. *)
Lemma forward_points (st : store) (a b : expr) (n : nat) :
  shape_of a = Some [n; 1%nat] -> shape_of b = Some [n; 1%nat] ->
  shape_of (forward model a b) = Some [n; 1%nat]
  /\ data st (forward model a b)
     = map (fun p => f_point st model (fst p) (snd p)) (combine (data st a) (data st b)).
Proof.
  intros Ha Hb.
  assert (Hc : shape_of (Cat1 a b) = Some [n; 2%nat])
    by (cbn [shape_of]; now rewrite Ha, Hb, Nat.eqb_refl).
  assert (Hs : shape_of (forward model a b) = Some [n; 1%nat]).
  { unfold forward, model, simple_NN2_init.
    cbn [linear_tanh_stack sequential apply_layer shape_of]. rewrite Ha, Hb, Nat.eqb_refl.
    reflexivity. }
  split; [exact Hs|].
  pose proof (data_length st _ Ha) as La. pose proof (data_length st _ Hb) as Lb.
  rewrite numel_2, Nat.mul_1_r in La, Lb.
  unfold forward in *. cbn zeta in *.
  rewrite (sequential_rows st _ _ _ Hc Hs). cbn [data].
  rewrite (@shp_of _ _ Ha), (@shp_of _ _ Hb). cbn [hd nth].
  rewrite (chunks_col _ La), (chunks_col _ Lb), cat_rows.
  rewrite <- flat_map_concat_map.
  assert (Ln : n = length (combine (data st a) (data st b)))
    by (rewrite length_combine; lia).
  rewrite Ln at 1. rewrite chunks_flat_map by reflexivity.
  rewrite flat_map_map. rewrite <- flat_map_singleton.
  apply flat_map_ext. intros p. unfold f_point. apply model_row.
Qed.

(** ** Reverse mode computes derivatives *)

Lemma cosh_nonzero (v : R) : cosh v <> 0.
Proof.
  unfold cosh. pose proof (exp_pos v). pose proof (exp_pos (- v)). lra.
Qed.

Lemma derivable_pt_lim_tanh (v : R) : derivable_pt_lim tanh v (1 - tanh v * tanh v).
Proof.
  apply derivable_pt_lim_ext with (f := (sinh / cosh)%F); [reflexivity|].
  replace (1 - tanh v * tanh v)
    with ((cosh v * cosh v - sinh v * sinh v) / Rsqr (cosh v)).
  - apply derivable_pt_lim_div.
    + apply derivable_pt_lim_sinh.
    + apply derivable_pt_lim_cosh.
    + apply cosh_nonzero.
  - unfold tanh, Rsqr. field. apply cosh_nonzero.
Qed.

Lemma un_derivable (st : store) (u : unop) (v : R) :
  derivable_pt_lim (un_val st u) v (un_deriv st u v).
Proof.
  destruct u as [| | | | s | s | n]; cbn [un_val un_deriv].
  - apply derivable_pt_lim_tanh.
  - apply derivable_pt_lim_sin.
  - apply derivable_pt_lim_cos.
  - apply derivable_pt_lim_ext with (f := (- id)%F); [reflexivity|].
    apply derivable_pt_lim_opp, derivable_pt_lim_id.
  - apply derivable_pt_lim_ext with (f := mult_real_fct (sval st s) id); [reflexivity|].
    replace (sval st s) with (sval st s * 1) at 2 by ring.
    apply derivable_pt_lim_scal, derivable_pt_lim_id.
  - apply derivable_pt_lim_ext with (f := (fct_cte (sval st s) - id)%F); [reflexivity|].
    replace (-1) with (0 - 1) by ring.
    apply derivable_pt_lim_minus; [apply derivable_pt_lim_const|apply derivable_pt_lim_id].
  - apply derivable_pt_lim_pow.
Qed.

(** ** Shapes of row-wise operations *)

Lemma shape_Bin_inv (o : binop) (a b : expr) (s : shape) :
  shape_of (Bin o a b) = Some s -> shape_of a = Some s /\ shape_of b = Some s.
Proof.
  cbn [shape_of]. destruct (shape_of a) as [sa|]; [|discriminate].
  destruct (shape_of b) as [sb|]; [|discriminate].
  destruct (shape_eqb sa sb) eqn:E; [|discriminate].
  apply shape_eqb_eq in E. intros H. injection H as <-. now subst sb.
Qed.

Lemma shape_Cat1_inv (a b : expr) (s : shape) :
  shape_of (Cat1 a b) = Some s ->
  exists n p q, shape_of a = Some [n; p] /\ shape_of b = Some [n; q] /\ s = [n; (p + q)%nat].
Proof.
  cbn [shape_of].
  destruct (shape_of a) as [[|n [|p [|? ?]]]|]; try discriminate.
  destruct (shape_of b) as [[|n' [|q [|? ?]]]|]; try discriminate.
  destruct (Nat.eqb n n') eqn:E; [|discriminate]. apply Nat.eqb_eq in E. subst n'.
  intros H. injection H as <-. now exists n, p, q.
Qed.

Lemma shape_Narrow1_inv (start len : nat) (a : expr) (s : shape) :
  shape_of (Narrow1 start len a) = Some s ->
  exists n c, shape_of a = Some [n; c] /\ (start + len <= c)%nat /\ s = [n; len].
Proof.
  cbn [shape_of].
  destruct (shape_of a) as [[|n [|c [|? ?]]]|]; try discriminate.
  destruct (Nat.leb (start + len) c) eqn:E; [|discriminate]. apply Nat.leb_le in E.
  intros H. injection H as <-. now exists n, c.
Qed.

Lemma shape_PadCols_inv (l r : nat) (a : expr) (s : shape) :
  shape_of (PadCols l r a) = Some s ->
  exists n c, shape_of a = Some [n; c] /\ s = [n; (l + c + r)%nat].
Proof.
  cbn [shape_of].
  destruct (shape_of a) as [[|n [|c [|? ?]]]|]; try discriminate.
  intros H. injection H as <-. now exists n, c.
Qed.

Lemma shape_Affine_inv (w inF outF : nat) (tr : bool) (bias : option nat) (a : expr)
    (s : shape) :
  shape_of (Affine w inF outF tr bias a) = Some s ->
  exists n, shape_of a = Some [n; if tr then outF else inF]
            /\ s = [n; if tr then inF else outF].
Proof.
  cbn [shape_of].
  destruct (shape_of a) as [[|n [|c [|? ?]]]|]; try discriminate.
  destruct (Nat.eqb c (if tr then outF else inF)) eqn:E; [|discriminate].
  apply Nat.eqb_eq in E. subst c.
  intros H. injection H as <-. now exists n.
Qed.

(** Induction over graphs that separates the atoms from the results of
    row-wise operations. *)
Lemma expr_rows_ind (P : expr -> Prop) :
  (forall e, atomic e = true -> P e) ->
  (forall id z sh, P (Fill id false z sh)) ->
  (forall u a, P a -> P (Un u a)) ->
  (forall o a b, P a -> P b -> P (Bin o a b)) ->
  (forall a b, P a -> P b -> P (Cat1 a b)) ->
  (forall start len a, P a -> P (Narrow1 start len a)) ->
  (forall l r a, P a -> P (PadCols l r a)) ->
  (forall w inF outF tr bias a, P a -> P (Affine w inF outF tr bias a)) ->
  forall e, P e.
Proof.
  intros Hat Hfill Hun Hbin Hcat Hnar Hpad Haff.
  induction e; auto; try (apply Hat; reflexivity).
  destruct rg; [apply Hat; reflexivity|apply Hfill].
Qed.

(** ** Lists of rows *)

Lemma map_flat_map {A B C : Type} (g : B -> C) (f : A -> list B) (l : list A) :
  map g (flat_map f l) = flat_map (fun a => map g (f a)) l.
Proof.
  induction l as [|a l IH]; [reflexivity|]. cbn [flat_map]. now rewrite map_app, IH.
Qed.

Lemma zip_with_app {A B C : Type} (f : A -> B -> C) (l1 l2 : list A) (m1 m2 : list B) :
  length l1 = length m1 ->
  zip_with f (l1 ++ l2) (m1 ++ m2) = zip_with f l1 m1 ++ zip_with f l2 m2.
Proof.
  revert m1; induction l1 as [|a l1 IH]; intros [|b m1] H; try discriminate; [reflexivity|].
  cbn [app zip_with]. f_equal. apply IH. now injection H.
Qed.

Lemma zip_with_flat_map {A B C D : Type} (o : B -> C -> D) (f : A -> list B)
    (h : A -> list C) (l : list A) :
  (forall a, length (f a) = length (h a)) ->
  zip_with o (flat_map f l) (flat_map h l) = flat_map (fun a => zip_with o (f a) (h a)) l.
Proof.
  intros H. induction l as [|a l IH]; [reflexivity|].
  cbn [flat_map]. now rewrite zip_with_app, IH.
Qed.

Lemma flat_map_repeat {A B : Type} (z : B) (c : nat) (l : list A) :
  flat_map (fun _ => repeat z c) l = repeat z (length l * c).
Proof.
  induction l as [|a l IH]; [reflexivity|].
  cbn [flat_map length Nat.mul]. now rewrite IH, repeat_app.
Qed.

(** ** Finite sums *)

Lemma bigsum_S (c : nat) (F : nat -> R) : bigsum (S c) F = bigsum c F + F c.
Proof.
  unfold bigsum. rewrite seq_S, map_app. cbn [map Nat.add].
  generalize (map F (seq 0 c)). intros l. induction l as [|a l IH]; cbn [app sum fold_right].
  - ring.
  - unfold sum in IH. rewrite IH. ring.
Qed.

Lemma bigsum_ext (c : nat) (F G : nat -> R) :
  (forall i, (i < c)%nat -> F i = G i) -> bigsum c F = bigsum c G.
Proof.
  induction c as [|c IH]; intros H; [reflexivity|].
  rewrite !bigsum_S, IH, H by (intros; auto with arith). reflexivity.
Qed.

Lemma bigsum_zero (c : nat) : bigsum c (fun _ => 0) = 0.
Proof.
  induction c as [|c IH]; [reflexivity|]. rewrite bigsum_S, IH. ring.
Qed.

Lemma bigsum_plus (c : nat) (F G : nat -> R) :
  bigsum c (fun i => F i + G i) = bigsum c F + bigsum c G.
Proof.
  induction c as [|c IH]; [cbn; ring|]. rewrite !bigsum_S, IH. ring.
Qed.

Lemma bigsum_scal (c : nat) (a : R) (F : nat -> R) :
  bigsum c (fun i => a * F i) = a * bigsum c F.
Proof.
  induction c as [|c IH]; [cbn; ring|]. rewrite !bigsum_S, IH. ring.
Qed.

Lemma bigsum_swap (n m : nat) (F : nat -> nat -> R) :
  bigsum n (fun i => bigsum m (fun j => F i j)) = bigsum m (fun j => bigsum n (fun i => F i j)).
Proof.
  induction n as [|n IH].
  - cbn. symmetry. apply bigsum_zero.
  - rewrite bigsum_S, IH, <- bigsum_plus. apply bigsum_ext. intros j _.
    now rewrite bigsum_S.
Qed.

Lemma bigsum_extend (n c : nat) (F : nat -> R) :
  (n <= c)%nat -> (forall k, (n <= k)%nat -> (k < c)%nat -> F k = 0) ->
  bigsum c F = bigsum n F.
Proof.
  induction c as [|c IH]; intros Hle Hz.
  - now replace n with O by lia.
  - destruct (Nat.eq_dec n (S c)) as [->|Hne]; [reflexivity|].
    rewrite bigsum_S, IH, Hz by (try lia; intros; apply Hz; lia). ring.
Qed.

Lemma bigsum_shift (c : nat) (F : nat -> R) :
  bigsum (S c) F = F O + bigsum c (fun i => F (S i)).
Proof.
  unfold bigsum. cbn [seq map sum fold_right]. now rewrite <- seq_shift, map_map.
Qed.

Lemma dot_bigsum (u v : list R) :
  dot u v = bigsum (length u) (fun k => nth k u 0 * nth k v 0).
Proof.
  revert v; induction u as [|a u IH]; intros v; [reflexivity|].
  cbn [length]. rewrite bigsum_shift. cbn [nth]. destruct v as [|b v].
  - unfold dot. cbn [zip_with sum fold_right].
    rewrite bigsum_ext with (G := fun _ => 0).
    + rewrite bigsum_zero. cbn [nth]. ring.
    + intros i _. destruct i; cbn [nth]; ring.
  - specialize (IH v). unfold dot in *. cbn [zip_with sum fold_right nth].
    unfold sum in IH. now rewrite IH.
Qed.

Lemma dot_bigsum_to (c : nat) (u v : list R) :
  (length u <= c)%nat -> dot u v = bigsum c (fun k => nth k u 0 * nth k v 0).
Proof.
  intros H. rewrite dot_bigsum. symmetry. apply bigsum_extend; [exact H|].
  intros k Hk _. rewrite (nth_overflow u) by exact Hk. ring.
Qed.

Lemma derivable_bigsum (c : nat) (G : nat -> R -> R) (G' : nat -> R) (x : R) :
  (forall k, (k < c)%nat -> derivable_pt_lim (G k) x (G' k)) ->
  derivable_pt_lim (fun y => bigsum c (fun k => G k y)) x (bigsum c G').
Proof.
  induction c as [|c IH]; intros H.
  - apply derivable_pt_lim_ext with (f := fct_cte 0); [reflexivity|].
    apply derivable_pt_lim_const.
  - apply derivable_pt_lim_ext
      with (f := ((fun y => bigsum c (fun k => G k y)) + G c)%F).
    + intros y. unfold plus_fct. now rewrite bigsum_S.
    + rewrite bigsum_S. apply derivable_pt_lim_plus; [apply IH|]; auto with arith.
Qed.

Lemma derivable_const (a x : R) : derivable_pt_lim (fun _ => a) x 0.
Proof.
  exact (derivable_pt_lim_const a x).
Qed.

Lemma nth_map_lt {X Y : Type} (f : X -> Y) (l : list X) (i : nat) (d : X) (d' : Y) :
  (i < length l)%nat -> nth i (map f l) d' = f (nth i l d).
Proof.
  intros H. rewrite (nth_indep _ d' (f d)) by (now rewrite length_map). apply map_nth.
Qed.

Lemma zip_with_ext {X Y Z : Type} (f h : X -> Y -> Z) (l : list X) (m : list Y) :
  (forall a b, f a b = h a b) -> zip_with f l m = zip_with h l m.
Proof.
  intros H. revert m; induction l as [|a l IH]; intros [|b m]; cbn [zip_with]; auto.
  now rewrite H, IH.
Qed.

Lemma zip_with_left {X Y Z : Type} (f : X -> Z) (l : list X) (m : list Y) :
  length l = length m -> zip_with (fun a _ => f a) l m = map f l.
Proof.
  revert m; induction l as [|a l IH]; intros [|b m] H; try discriminate; [reflexivity|].
  cbn [zip_with map]. f_equal. apply IH. now injection H.
Qed.

Lemma zip_with_const {X Y Z : Type} (z : Z) (l : list X) (m : list Y) :
  length l = length m -> zip_with (fun _ _ => z) l m = repeat z (length l).
Proof.
  revert m; induction l as [|a l IH]; intros [|b m] H; try discriminate; [reflexivity|].
  cbn [zip_with length repeat]. f_equal. apply IH. now injection H.
Qed.

(** ** Dot products *)

Lemma dot_zero_r (u v : list R) : zero_vec v -> dot u v = 0.
Proof.
  intros H. rewrite dot_bigsum, bigsum_ext with (G := fun _ => 0); [apply bigsum_zero|].
  intros i _. rewrite H. ring.
Qed.

Lemma dot_pointwise (c : nat) (u v u' v' : list R) :
  (length u <= c)%nat -> (length u' <= c)%nat ->
  (forall i, (i < c)%nat -> nth i u 0 * nth i v 0 = nth i u' 0 * nth i v' 0) ->
  dot u v = dot u' v'.
Proof.
  intros Hu Hu' H. rewrite (@dot_bigsum_to c u v Hu), (@dot_bigsum_to c u' v' Hu').
  now apply bigsum_ext.
Qed.

Lemma dot_plus (c : nat) (u v u1 v1 u2 v2 : list R) :
  (length u <= c)%nat -> (length u1 <= c)%nat -> (length u2 <= c)%nat ->
  (forall i, (i < c)%nat ->
     nth i u 0 * nth i v 0 = nth i u1 0 * nth i v1 0 + nth i u2 0 * nth i v2 0) ->
  dot u v = dot u1 v1 + dot u2 v2.
Proof.
  intros Hu Hu1 Hu2 H.
  rewrite (@dot_bigsum_to c u v Hu), (@dot_bigsum_to c u1 v1 Hu1),
    (@dot_bigsum_to c u2 v2 Hu2), <- bigsum_plus.
  now apply bigsum_ext.
Qed.

Lemma sum_app (l m : list R) : sum (l ++ m) = sum l + sum m.
Proof.
  unfold sum. induction l as [|a l IH]; cbn [app fold_right]; [ring|].
  rewrite IH. ring.
Qed.

Lemma dot_app (u1 u2 v1 v2 : list R) :
  length u1 = length v1 -> dot (u1 ++ u2) (v1 ++ v2) = dot u1 v1 + dot u2 v2.
Proof.
  intros H. unfold dot. rewrite zip_with_app by exact H. apply sum_app.
Qed.

Lemma dot_repeat_0_l (k : nat) (v : list R) : dot (repeat 0 k) v = 0.
Proof.
  rewrite dot_bigsum, bigsum_ext with (G := fun _ => 0); [apply bigsum_zero|].
  intros i Hi. rewrite repeat_length in Hi. rewrite nth_repeat_lt by exact Hi. ring.
Qed.

Lemma dot_repeat_0_r (k : nat) (u : list R) : dot u (repeat 0 k) = 0.
Proof.
  apply dot_zero_r. intros i. destruct (Nat.lt_ge_cases i k).
  - now apply nth_repeat_lt.
  - apply nth_overflow. now rewrite repeat_length.
Qed.

Lemma columns_nth (inF : nat) (W : list (list R)) (j k : nat) :
  (k < inF)%nat -> nth j (nth k (columns inF W) []) 0 = nth k (nth j W []) 0.
Proof.
  intros Hk. unfold columns. rewrite nth_map_seq by exact Hk.
  destruct (Nat.lt_ge_cases j (length W)) as [Hj|Hj].
  - now rewrite nth_map_lt with (d := []).
  - rewrite nth_overflow by (now rewrite length_map).
    rewrite (nth_overflow W) by exact Hj. now destruct k.
Qed.

(** ** Rows *)

Section RowFacts.

Variable st : store.
Variables A B : expr.
Variable n : nat.

Hypothesis HA : atomic A = true.
Hypothesis HB : atomic B = true.
Hypothesis HAB : A <> B.
Hypothesis SA : shape_of A = Some [n; 1%nat].
Hypothesis SB : shape_of B = Some [n; 1%nat].
Hypothesis NB : forall g, vjp B A g = None.

Lemma not_atom (e : expr) :
  atomic e = false -> expr_eqb e A = false /\ expr_eqb e B = false.
Proof.
  intros He. split; apply expr_eqb_false; intros ->; congruence.
Qed.

Lemma atom_row (e : expr) (av bv : R) :
  atomic e = true ->
  row st A B av bv e = (if expr_eqb e A then [av] else if expr_eqb e B then [bv] else [])
  /\ tangent st A B av bv e = (if expr_eqb e A then [0] else if expr_eqb e B then [1] else [])
  /\ rowwise A B n e = (expr_eqb e A || expr_eqb e B)%bool.
Proof.
  destruct e as [| ? [|] ? ? | | | | | | | | | | | | | | | |]; cbn [atomic];
    try discriminate; intros _; repeat split; reflexivity.
Qed.

(** A row-wise graph has [n] rows, and its rows have as many entries as the
    shape has columns. *)
Lemma row_length (e : expr) :
  forall s, rowwise A B n e = true -> shape_of e = Some s ->
  s = [n; nth 1 s O]
  /\ forall av bv, length (row st A B av bv e) = nth 1 s O
                   /\ length (tangent st A B av bv e) = nth 1 s O.
Proof.
  induction e using expr_rows_ind; intros s Hr Hs.
  - (* atoms *)
    destruct (atom_row e 0 0 H) as [_ [_ Rw]]. rewrite Rw in Hr.
    assert (Hs1 : s = [n; 1%nat]).
    { apply orb_prop in Hr. destruct Hr as [E|E].
      - destruct (expr_eqb_spec e A) as [->|]; [congruence|discriminate].
      - destruct (expr_eqb_spec e B) as [->|]; [congruence|discriminate]. }
    subst s. split; [reflexivity|]. intros av bv.
    destruct (atom_row e av bv H) as [-> [-> _]].
    apply orb_prop in Hr. destruct Hr as [E|E]; rewrite E.
    + split; reflexivity.
    + destruct (expr_eqb e A); split; reflexivity.
  - (* constants *)
    cbn [rowwise] in Hr. cbn [shape_of] in Hs. injection Hs as <-.
    destruct sh as [|n' [|c [|? ?]]]; try discriminate.
    apply Nat.eqb_eq in Hr. subst n'. split; [reflexivity|].
    intros av bv. cbn [row tangent nth]. now rewrite !repeat_length.
  - (* Un *)
    cbn [rowwise] in Hr. cbn [shape_of] in Hs.
    destruct (IHe _ Hr Hs) as [E L]. split; [exact E|].
    intros av bv. destruct (L av bv) as [L1 L2]. cbn [row tangent].
    rewrite length_map, zip_with_length, L1, L2, Nat.min_id. auto.
  - (* Bin *)
    cbn [rowwise] in Hr. apply andb_prop in Hr. destruct Hr as [R1 R2].
    destruct (shape_Bin_inv _ _ _ Hs) as [S1 S2].
    destruct (IHe1 _ R1 S1) as [E L1]. destruct (IHe2 _ R2 S2) as [_ L2].
    split; [exact E|]. intros av bv.
    destruct (L1 av bv) as [A1 A2]. destruct (L2 av bv) as [B1 B2].
    destruct o; cbn [row tangent]; rewrite ?zip_with_length, ?A1, ?A2, ?B1, ?B2, ?Nat.min_id;
      auto.
  - (* Cat1 *)
    cbn [rowwise] in Hr. apply andb_prop in Hr. destruct Hr as [R1 R2].
    destruct (shape_Cat1_inv _ _ Hs) as [m [p [q [S1 [S2 ->]]]]].
    destruct (IHe1 _ R1 S1) as [E L1]. destruct (IHe2 _ R2 S2) as [_ L2].
    injection E as ->. split; [reflexivity|]. intros av bv.
    destruct (L1 av bv) as [A1 A2]. destruct (L2 av bv) as [B1 B2]. cbn [nth] in *.
    cbn [row tangent]. rewrite !length_app, A1, A2, B1, B2. auto.
  - (* Narrow1 *)
    cbn [rowwise] in Hr.
    destruct (shape_Narrow1_inv _ _ _ Hs) as [m [c [S1 [Hle ->]]]].
    destruct (IHe _ Hr S1) as [E L]. injection E as ->. split; [reflexivity|].
    intros av bv. destruct (L av bv) as [L1 L2]. cbn [nth] in *. cbn [row tangent].
    rewrite !length_firstn, !length_skipn, L1, L2. lia.
  - (* PadCols *)
    cbn [rowwise] in Hr.
    destruct (shape_PadCols_inv _ _ _ Hs) as [m [c [S1 ->]]].
    destruct (IHe _ Hr S1) as [E L]. injection E as ->. split; [reflexivity|].
    intros av bv. destruct (L av bv) as [L1 L2]. cbn [nth] in *. cbn [row tangent].
    rewrite !length_app, !repeat_length, L1, L2. lia.
  - (* Affine *)
    cbn [rowwise] in Hr.
    destruct (shape_Affine_inv _ _ _ _ _ _ Hs) as [m [S1 ->]].
    destruct (IHe _ Hr S1) as [E L]. injection E as ->. split; [reflexivity|].
    intros av bv. cbn [row tangent nth]. unfold affine_row.
    rewrite !length_map, !length_seq. auto.
Qed.

Lemma points_count : length (combine (data st A) (data st B)) = n.
Proof.
  rewrite length_combine, (data_length st _ SA), (data_length st _ SB), numel_2. lia.
Qed.

Lemma chunks_points {X : Type} (f : X -> list R) (c : nat) (pts : list X) :
  length pts = n -> (forall p, length (f p) = c) ->
  chunks n c (flat_map f pts) = map f pts.
Proof.
  intros <- Hf. now apply chunks_flat_map.
Qed.

(** The elements of a row-wise graph are its rows, one per point. *)
Lemma data_rows (e : expr) :
  forall s, rowwise A B n e = true -> shape_of e = Some s ->
  data st e
  = flat_map (fun p => row st A B (fst p) (snd p) e) (combine (data st A) (data st B)).
Proof.
  pose proof points_count as Hn.
  induction e using expr_rows_ind; intros s Hr Hs.
  - (* atoms *)
    destruct (atom_row e 0 0 H) as [_ [_ Rw]]. rewrite Rw in Hr.
    assert (La : length (data st A) = length (data st B))
      by (rewrite (data_length st _ SA), (data_length st _ SB); reflexivity).
    apply orb_prop in Hr. destruct Hr as [E|E].
    + destruct (expr_eqb_spec e A) as [->|]; [|discriminate].
      rewrite <- (map_fst_combine _ _ La) at 1. rewrite <- flat_map_singleton.
      apply flat_map_ext. intros [av bv]. cbn [fst snd].
      destruct (atom_row A av bv HA) as [-> _].
      now rewrite expr_eqb_refl.
    + destruct (expr_eqb_spec e B) as [->|]; [|discriminate].
      rewrite <- (map_snd_combine _ _ La) at 1. rewrite <- flat_map_singleton.
      apply flat_map_ext. intros [av bv]. cbn [fst snd].
      destruct (atom_row B av bv HB) as [-> _].
      now rewrite (expr_eqb_false (not_eq_sym HAB)), expr_eqb_refl.
  - (* constants *)
    cbn [rowwise] in Hr. destruct sh as [|n' [|c [|? ?]]]; try discriminate.
    apply Nat.eqb_eq in Hr. subst n'. cbn [data row nth].
    now rewrite flat_map_repeat, numel_2, Hn.
  - (* Un *)
    cbn [rowwise] in Hr. cbn [shape_of] in Hs. cbn [data row].
    now rewrite (IHe _ Hr Hs), map_flat_map.
  - (* Bin *)
    cbn [rowwise] in Hr. apply andb_prop in Hr. destruct Hr as [R1 R2].
    destruct (shape_Bin_inv _ _ _ Hs) as [S1 S2]. cbn [data row].
    rewrite (IHe1 _ R1 S1), (IHe2 _ R2 S2). apply zip_with_flat_map.
    intros [av bv]. cbn [fst snd].
    destruct (row_length _ R1 S1) as [_ L1]. destruct (row_length _ R2 S2) as [_ L2].
    destruct (L1 av bv) as [-> _]. destruct (L2 av bv) as [-> _]. reflexivity.
  - (* Cat1 *)
    cbn [rowwise] in Hr. apply andb_prop in Hr. destruct Hr as [R1 R2].
    destruct (shape_Cat1_inv _ _ Hs) as [m [p [q [S1 [S2 ->]]]]].
    destruct (row_length _ R1 S1) as [E1 L1]. destruct (row_length _ R2 S2) as [_ L2].
    injection E1 as ->. cbn [nth] in L1, L2.
    cbn [data row]. rewrite (@shp_of _ _ S1), (@shp_of _ _ S2). cbn [hd nth].
    rewrite (IHe1 _ R1 S1), (IHe2 _ R2 S2).
    rewrite !chunks_points by (auto; intros [av bv]; apply L1 || apply L2).
    rewrite zip_with_map_same, <- flat_map_concat_map. reflexivity.
  - (* Narrow1 *)
    cbn [rowwise] in Hr.
    destruct (shape_Narrow1_inv _ _ _ Hs) as [m [c [S1 [Hle ->]]]].
    destruct (row_length _ Hr S1) as [E1 L1]. injection E1 as ->. cbn [nth] in L1.
    cbn [data row]. rewrite (@shp_of _ _ S1). cbn [hd nth]. rewrite (IHe _ Hr S1).
    rewrite chunks_points by (auto; intros [av bv]; apply L1).
    rewrite flat_map_map. reflexivity.
  - (* PadCols *)
    cbn [rowwise] in Hr.
    destruct (shape_PadCols_inv _ _ _ Hs) as [m [c [S1 ->]]].
    destruct (row_length _ Hr S1) as [E1 L1]. injection E1 as ->. cbn [nth] in L1.
    cbn [data row]. rewrite (@shp_of _ _ S1). cbn [hd nth]. rewrite (IHe _ Hr S1).
    rewrite chunks_points by (auto; intros [av bv]; apply L1).
    rewrite flat_map_map. reflexivity.
  - (* Affine *)
    cbn [rowwise] in Hr.
    destruct (shape_Affine_inv _ _ _ _ _ _ Hs) as [m [S1 ->]].
    destruct (row_length _ Hr S1) as [E1 L1]. injection E1 as ->. cbn [nth] in L1.
    cbn [data row]. rewrite (@shp_of _ _ S1). cbn [hd nth]. rewrite (IHe _ Hr S1).
    rewrite chunks_points by (auto; intros [av bv]; apply L1).
    rewrite flat_map_map. reflexivity.
Qed.



Lemma affine_row_nth (w inF outF : nat) (tr : bool) (bias : option nat) (r : list R)
    (j : nat) :
  (j < (if tr then inF else outF))%nat ->
  nth j (affine_row st w inF outF tr bias r) 0
  = dot r (nth j (if tr then columns inF (chunks outF inF (param st w))
                  else chunks outF inF (param st w)) [])
    + match bias with Some b => nth j (param st b) 0 | None => 0 end.
Proof.
  intros Hj. unfold affine_row. now rewrite nth_map_seq.
Qed.

(** The tangent is the derivative of the row with respect to the value of
    the column [B], entry by entry. *)
Lemma tangent_correct (e : expr) :
  forall s, rowwise A B n e = true -> shape_of e = Some s ->
  forall av b0 i,
    derivable_pt_lim (fun bv => nth i (row st A B av bv e) 0) b0
      (nth i (tangent st A B av b0 e) 0).
Proof.
  induction e using expr_rows_ind; intros s Hr Hs av b0 i.
  - (* atoms *)
    destruct (atom_row e 0 0 H) as [_ [_ Rw]]. rewrite Rw in Hr.
    destruct (atom_row e av b0 H) as [_ [-> _]].
    apply derivable_pt_lim_ext
      with (f := fun bv => nth i (if expr_eqb e A then [av]
                                  else if expr_eqb e B then [bv] else []) 0).
    { intros bv. now destruct (atom_row e av bv H) as [-> _]. }
    destruct (expr_eqb e A).
    + destruct i as [|[|i]]; apply derivable_const.
    + destruct (expr_eqb e B); [|discriminate].
      destruct i as [|[|i]]; cbn [nth]; try apply derivable_const.
      apply derivable_pt_lim_id.
  - (* constants *)
    cbn [row tangent].
    replace (nth i (repeat 0 (nth 1 sh O)) 0) with 0; [apply derivable_const|].
    destruct (Nat.lt_ge_cases i (nth 1 sh O)) as [Hi|Hi].
    + now rewrite nth_repeat_lt.
    + now rewrite nth_overflow by (now rewrite repeat_length).
  - (* Un *)
    cbn [rowwise] in Hr. cbn [shape_of] in Hs.
    destruct (row_length _ Hr Hs) as [_ L]. cbn [row tangent].
    destruct (Nat.lt_ge_cases i (nth 1 s O)) as [Hi|Hi].
    + rewrite nth_zip_with with (da := 0) (db := 0)
        by (destruct (L av b0); lia).
      apply derivable_pt_lim_ext
        with (f := comp (un_val st u) (fun bv => nth i (row st A B av bv e) 0)).
      * intros bv. unfold comp. symmetry. apply nth_map_lt.
        destruct (L av bv); lia.
      * apply derivable_pt_lim_comp; [now apply (IHe s)|apply un_derivable].
    + rewrite nth_overflow
        by (rewrite zip_with_length; destruct (L av b0); lia).
      apply derivable_pt_lim_ext with (f := fun _ => 0); [|apply derivable_const].
      intros bv. symmetry. apply nth_overflow.
      rewrite length_map. destruct (L av bv); lia.
  - (* Bin *)
    cbn [rowwise] in Hr. apply andb_prop in Hr. destruct Hr as [R1 R2].
    destruct (shape_Bin_inv _ _ _ Hs) as [S1 S2].
    destruct (row_length _ R1 S1) as [_ L1]. destruct (row_length _ R2 S2) as [_ L2].
    specialize (IHe1 _ R1 S1 av b0 i). specialize (IHe2 _ R2 S2 av b0 i).
    destruct (Nat.lt_ge_cases i (nth 1 s O)) as [Hi|Hi].
    + assert (Hrow : forall bv,
                 nth i (row st A B av bv (Bin o e1 e2)) 0
                 = bin_val o (nth i (row st A B av bv e1) 0) (nth i (row st A B av bv e2) 0)).
      { intros bv. cbn [row]. apply nth_zip_with.
        - destruct (L1 av bv); lia.
        - destruct (L2 av bv); lia. }
      destruct (L1 av b0) as [A1 A2]. destruct (L2 av b0) as [B1 B2].
      apply derivable_pt_lim_ext with (1 := fun bv => eq_sym (Hrow bv)).
      destruct o; cbn [tangent bin_val].
      * rewrite nth_zip_with with (da := 0) (db := 0) by lia.
        exact (derivable_pt_lim_plus _ _ _ _ _ IHe1 IHe2).
      * rewrite nth_zip_with with (da := 0) (db := 0) by lia.
        exact (derivable_pt_lim_minus _ _ _ _ _ IHe1 IHe2).
      * rewrite nth_zip_with with (da := 0) (db := 0)
          by (rewrite zip_with_length; lia).
        rewrite !nth_zip_with with (da := 0) (db := 0) by lia.
        exact (derivable_pt_lim_mult _ _ _ _ _ IHe1 IHe2).
    + replace (nth i (tangent st A B av b0 (Bin o e1 e2)) 0) with 0.
      * apply derivable_pt_lim_ext with (f := fun _ => 0); [|apply derivable_const].
        intros bv. symmetry. apply nth_overflow. cbn [row].
        rewrite zip_with_length. destruct (L1 av bv) as [-> _]. lia.
      * symmetry. apply nth_overflow. destruct (L1 av b0) as [_ A2].
        destruct (L2 av b0) as [_ B2].
        destruct o; cbn [tangent]; rewrite ?zip_with_length; lia.
  - (* Cat1 *)
    cbn [rowwise] in Hr. apply andb_prop in Hr. destruct Hr as [R1 R2].
    destruct (shape_Cat1_inv _ _ Hs) as [m [p [q [S1 [S2 ->]]]]].
    destruct (row_length _ R1 S1) as [_ L1]. cbn [nth] in L1.
    cbn [row tangent].
    destruct (Nat.lt_ge_cases i p) as [Hi|Hi].
    + rewrite app_nth1 by (destruct (L1 av b0); lia).
      apply derivable_pt_lim_ext with (f := fun bv => nth i (row st A B av bv e1) 0).
      * intros bv. symmetry. apply app_nth1. destruct (L1 av bv); lia.
      * now apply (IHe1 _ R1 S1).
    + rewrite app_nth2 by (destruct (L1 av b0); lia).
      destruct (L1 av b0) as [_ ->].
      apply derivable_pt_lim_ext with (f := fun bv => nth (i - p) (row st A B av bv e2) 0).
      * intros bv. rewrite app_nth2 by (destruct (L1 av bv); lia).
        destruct (L1 av bv) as [-> _]. reflexivity.
      * now apply (IHe2 _ R2 S2).
  - (* Narrow1 *)
    cbn [rowwise] in Hr.
    destruct (shape_Narrow1_inv _ _ _ Hs) as [m [c [S1 [Hle ->]]]].
    cbn [row tangent]. rewrite nth_firstn.
    apply derivable_pt_lim_ext
      with (f := fun bv => if Nat.ltb i len then nth (start + i) (row st A B av bv e) 0 else 0).
    { intros bv. rewrite nth_firstn. destruct (Nat.ltb i len); [|reflexivity].
      now rewrite nth_skipn. }
    destruct (Nat.ltb i len); [|apply derivable_const].
    rewrite nth_skipn. now apply (IHe _ Hr S1).
  - (* PadCols *)
    cbn [rowwise] in Hr.
    destruct (shape_PadCols_inv _ _ _ Hs) as [m [c [S1 ->]]].
    destruct (row_length _ Hr S1) as [_ L1]. cbn [nth] in L1.
    cbn [row tangent].
    destruct (Nat.lt_ge_cases i l) as [Hi|Hi].
    + rewrite app_nth1 by (now rewrite repeat_length).
      rewrite nth_repeat_lt by assumption.
      apply derivable_pt_lim_ext with (f := fun _ => 0); [|apply derivable_const].
      intros bv. rewrite app_nth1 by (now rewrite repeat_length).
      now rewrite nth_repeat_lt.
    + rewrite app_nth2 by (now rewrite repeat_length). rewrite repeat_length.
      destruct (Nat.lt_ge_cases (i - l) c) as [Hc|Hc].
      * rewrite app_nth1 by (destruct (L1 av b0); lia).
        apply derivable_pt_lim_ext with (f := fun bv => nth (i - l) (row st A B av bv e) 0).
        -- intros bv. rewrite app_nth2 by (now rewrite repeat_length).
           rewrite repeat_length. symmetry. apply app_nth1.
           destruct (L1 av bv); lia.
        -- now apply (IHe _ Hr S1).
      * rewrite app_nth2 by (destruct (L1 av b0); lia).
        replace (nth _ (repeat 0 r) 0) with 0.
        2:{ destruct (L1 av b0) as [_ ->].
            destruct (Nat.lt_ge_cases (i - l - c) r).
            - now rewrite nth_repeat_lt.
            - now rewrite nth_overflow by (now rewrite repeat_length). }
        apply derivable_pt_lim_ext with (f := fun _ => 0); [|apply derivable_const].
        intros bv. rewrite app_nth2 by (now rewrite repeat_length).
        rewrite repeat_length, app_nth2 by (destruct (L1 av bv); lia).
        destruct (L1 av bv) as [-> _].
        destruct (Nat.lt_ge_cases (i - l - c) r).
        -- now rewrite nth_repeat_lt.
        -- now rewrite nth_overflow by (now rewrite repeat_length).
  - (* Affine *)
    cbn [rowwise] in Hr.
    destruct (shape_Affine_inv _ _ _ _ _ _ Hs) as [m [S1 ->]].
    destruct (row_length _ Hr S1) as [_ L1]. cbn [nth] in L1.
    cbn [row tangent].
    destruct (Nat.lt_ge_cases i (if tr then inF else outF)) as [Hi|Hi].
    + rewrite affine_row_nth by assumption.
      set (M := nth i (if tr then columns inF (chunks outF inF (param st w))
                       else chunks outF inF (param st w)) []).
      set (c := if tr then outF else inF) in *.
      rewrite dot_bigsum_to with (c := c) by (destruct (L1 av b0); lia).
      apply derivable_pt_lim_ext
        with (f := plus_fct
                     (fun bv => bigsum c (fun k => nth k (row st A B av bv e) 0 * nth k M 0))
                     (fct_cte (match bias with Some b => nth i (param st b) 0 | None => 0 end))).
      * intros bv. unfold plus_fct, fct_cte. rewrite affine_row_nth by assumption.
        fold M. rewrite dot_bigsum_to with (c := c) by (destruct (L1 av bv); lia).
        reflexivity.
      * apply derivable_pt_lim_plus; [|apply derivable_pt_lim_const].
        apply derivable_bigsum. intros k _.
        apply derivable_pt_lim_ext
          with (f := mult_fct (fun bv => nth k (row st A B av bv e) 0) (fct_cte (nth k M 0)));
          [reflexivity|].
        replace (nth k (tangent st A B av b0 e) 0 * nth k M 0)
          with (nth k (tangent st A B av b0 e) 0 * fct_cte (nth k M 0) b0
                + nth k (row st A B av b0 e) 0 * 0) by (unfold fct_cte; ring).
        apply (derivable_pt_lim_mult (fun bv => nth k (row st A B av bv e) 0)
                 (fct_cte (nth k M 0)) b0 (nth k (tangent st A B av b0 e) 0) 0);
          [now apply (IHe _ Hr S1)|apply derivable_pt_lim_const].
    + rewrite nth_overflow by (unfold affine_row; now rewrite length_map, length_seq).
      apply derivable_pt_lim_ext with (f := fun _ => 0); [|apply derivable_const].
      intros bv. symmetry. apply nth_overflow.
      unfold affine_row. now rewrite length_map, length_seq.
Qed.

(** The row of a backward formula: the gradient times the derivative of
    the operation, entry by entry. *)
Lemma un_backward_row (u : unop) (a g : expr) (c : nat) (av bv : R) :
  shape_of a = Some [n; c] ->
  length (row st A B av bv g) = c -> length (row st A B av bv a) = c ->
  row st A B av bv (un_backward u a g)
  = zip_with (fun gv v => gv * un_deriv st u v) (row st A B av bv g) (row st A B av bv a).
Proof.
  intros Sa Lg La.
  assert (Lga : length (row st A B av bv g) = length (row st A B av bv a)) by congruence.
  destruct u as [| | | | sc | sc | [|k]];
    cbn [un_backward row zeros_like un_deriv].
  - rewrite zip_with_map_same, map_map, zip_with_map_r. apply zip_with_ext.
    intros gv v. cbn [bin_val un_val sval]. field.
  - rewrite zip_with_map_r. apply zip_with_ext. intros gv v. reflexivity.
  - rewrite map_map, zip_with_map_r. apply zip_with_ext. intros gv v. reflexivity.
  - rewrite <- (zip_with_left _ _ _ Lga). apply zip_with_ext.
    intros gv v. cbn [un_val]. ring.
  - rewrite <- (zip_with_left _ _ _ Lga). apply zip_with_ext.
    intros gv v. cbn [un_val]. ring.
  - rewrite <- (zip_with_left _ _ _ Lga). apply zip_with_ext.
    intros gv v. cbn [un_val]. ring.
  - rewrite (@shp_of _ _ Sa). cbn [nth]. rewrite <- Lg, <- (zip_with_const 0 _ _ Lga).
    apply zip_with_ext. intros gv v. cbn [INR]. ring.
  - rewrite map_map, zip_with_map_r. apply zip_with_ext. intros gv v.
    cbn [bin_val un_val sval pred]. rewrite <- INR_IZR_INZ. field.
Qed.

Lemma un_backward_rowwise (u : unop) (a g : expr) (c : nat) :
  shape_of a = Some [n; c] -> rowwise A B n a = true -> rowwise A B n g = true ->
  rowwise A B n (un_backward u a g) = true.
Proof.
  intros Sa Ra Rg.
  destruct u as [| | | | sc | sc | [|k]]; cbn [un_backward rowwise zeros_like];
    rewrite ?Ra, ?Rg, ?(@shp_of _ _ Sa), ?Nat.eqb_refl; reflexivity.
Qed.

Lemma row_singleton (g : expr) (av bv : R) :
  rowwise A B n g = true -> shape_of g = Some [n; 1%nat] ->
  row st A B av bv g = [nth 0 (row st A B av bv g) 0].
Proof.
  intros Rg Sg. destruct (row_length _ Rg Sg) as [_ L]. destruct (L av bv) as [L1 _].
  cbn [nth] in L1. destruct (row st A B av bv g) as [|v [|? ?]]; try discriminate.
  reflexivity.
Qed.



Lemma computes_ext (o : option expr) (F G : R -> R -> R) :
  (forall av bv, F av bv = G av bv) -> computes st A B n o F -> computes st A B n o G.
Proof.
  intros E. destruct o as [r|]; cbn [computes].
  - intros [Rr H]. split; [exact Rr|]. intros av bv. now rewrite H, E.
  - intros H av bv. now rewrite <- E.
Qed.

Lemma computes_accumulate (p q : option expr) (F G : R -> R -> R) :
  computes st A B n p F -> computes st A B n q G ->
  computes st A B n (accumulate p q) (fun av bv => F av bv + G av bv).
Proof.
  destruct p as [x|], q as [y|]; cbn [computes accumulate].
  - intros [Rx Hx] [Ry Hy]. split; [cbn [rowwise]; now rewrite Rx, Ry|].
    intros av bv. cbn [row]. now rewrite Hx, Hy.
  - intros [Rx Hx] Hy. split; [exact Rx|]. intros av bv. rewrite Hx, Hy. f_equal. ring.
  - intros Hx [Ry Hy]. split; [exact Ry|]. intros av bv. rewrite Hx, Hy. f_equal. ring.
  - intros Hx Hy av bv. rewrite Hx, Hy. ring.
Qed.

Lemma affine_row_length (w inF outF : nat) (tr : bool) (bias : option nat) (r : list R) :
  length (affine_row st w inF outF tr bias r) = if tr then inF else outF.
Proof.
  unfold affine_row. now rewrite length_map, length_seq.
Qed.

(** The backward of a linear layer is the layer with the transposed weight. *)
Lemma affine_adjoint (w inF outF : nat) (tr : bool) (u v : list R) :
  length u = (if tr then inF else outF) -> length v = (if tr then outF else inF) ->
  dot u (affine_row st w inF outF tr None v)
  = dot (affine_row st w inF outF (negb tr) None u) v.
Proof.
  set (W := chunks outF inF (param st w)).
  destruct tr; cbn [negb]; intros Lu Lv.
  - rewrite (@dot_bigsum_to inF u _) by lia.
    rewrite (@dot_bigsum_to outF (affine_row st w inF outF false None u) v)
      by (rewrite affine_row_length; lia).
    transitivity (bigsum inF (fun k => bigsum outF (fun j =>
                    nth k u 0 * nth j v 0 * nth k (nth j W []) 0))).
    + apply bigsum_ext. intros k Hk. rewrite affine_row_nth by exact Hk. cbv iota.
      rewrite (@dot_bigsum_to outF v _) by lia. rewrite Rplus_0_r, <- bigsum_scal.
      apply bigsum_ext. intros j Hj. rewrite columns_nth by exact Hk. fold W. ring.
    + rewrite bigsum_swap. apply bigsum_ext. intros j Hj.
      rewrite affine_row_nth by exact Hj. cbv iota.
      rewrite (@dot_bigsum_to inF u _) by lia.
      rewrite Rplus_0_r, Rmult_comm, <- bigsum_scal. fold W.
      apply bigsum_ext. intros k Hk. ring.
  - rewrite (@dot_bigsum_to outF u _) by lia.
    rewrite (@dot_bigsum_to inF (affine_row st w inF outF true None u) v)
      by (rewrite affine_row_length; lia).
    transitivity (bigsum outF (fun j => bigsum inF (fun k =>
                    nth j u 0 * nth k v 0 * nth k (nth j W []) 0))).
    + apply bigsum_ext. intros j Hj. rewrite affine_row_nth by exact Hj. cbv iota.
      rewrite (@dot_bigsum_to inF v _) by lia. rewrite Rplus_0_r, <- bigsum_scal. fold W.
      apply bigsum_ext. intros k Hk. ring.
    + rewrite bigsum_swap. apply bigsum_ext. intros k Hk.
      rewrite affine_row_nth by exact Hk. cbv iota.
      rewrite (@dot_bigsum_to outF u _) by lia.
      rewrite Rplus_0_r, Rmult_comm, <- bigsum_scal.
      apply bigsum_ext. intros j Hj. rewrite columns_nth by exact Hk. fold W. ring.
Qed.

(** Reverse mode agrees with the tangent: the gradient that [vjp] builds
    for the column [B] holds, at every point, the gradient on [e]
    contracted with the derivative of the row of [e]. *)
Lemma vjp_tangent (e : expr) :
  forall s g, rowwise A B n e = true -> shape_of e = Some s ->
              rowwise A B n g = true -> shape_of g = Some s ->
  computes st A B n (vjp B e g)
    (fun av bv => dot (row st A B av bv g) (tangent st A B av bv e)).
Proof.
  induction e using expr_rows_ind; intros s g Hr Hs Rg Sg.
  - (* atoms *)
    destruct (atom_row e 0 0 H) as [_ [_ Rw]]. rewrite Rw in Hr.
    destruct (expr_eqb_spec e A) as [->|EA].
    + rewrite NB. intros av bv. destruct (atom_row A av bv HA) as [_ [-> _]].
      rewrite expr_eqb_refl. apply dot_zero_r. intros [|[|i]]; reflexivity.
    + destruct (expr_eqb_spec e B) as [->|EB]; [|discriminate].
      rewrite vjp_self. split; [exact Rg|]. intros av bv.
      destruct (atom_row B av bv HB) as [_ [-> _]].
      rewrite (expr_eqb_false (not_eq_sym HAB)), expr_eqb_refl.
      assert (s = [n; 1%nat]) by congruence. subst s.
      pose proof (row_singleton g av bv Rg Sg) as E.
      destruct (row st A B av bv g) as [|v l]; [discriminate|].
      cbn [nth] in E. injection E as ->. unfold dot. cbn. f_equal. ring.
  - (* constants *)
    cbn [vjp]. destruct (not_atom (Fill id false z sh) eq_refl) as [_ ->].
    intros av bv. cbn [tangent]. apply dot_repeat_0_r.
  - (* Un *)
    cbn [vjp]. destruct (not_atom (Un u e) eq_refl) as [_ ->].
    cbn [rowwise] in Hr. cbn [shape_of] in Hs.
    destruct (row_length _ Hr Hs) as [Es L]. destruct (row_length _ Rg Sg) as [_ Lg].
    remember (nth 1 s O) as c eqn:Ec. clear Ec. subst s. rename Hs into Sa.
    pose proof (un_backward_rowwise u e g Sa Hr Rg) as Rg'.
    pose proof (un_backward_shape u e g Sa Sg) as Sg'.
    eapply computes_ext; [|exact (IHe _ (un_backward u e g) Hr Sa Rg' Sg')].
    intros av bv. cbv beta.
    destruct (L av bv) as [L1 L2]. destruct (Lg av bv) as [L3 _].
    rewrite (un_backward_row u e g av bv Sa L3 L1). cbn [tangent].
    apply dot_pointwise with (c := c); [rewrite zip_with_length; lia|lia|].
    intros i Hi. rewrite !nth_zip_with with (da := 0) (db := 0) by lia. ring.
  - (* Bin *)
    cbn [vjp]. destruct (not_atom (Bin o e1 e2) eq_refl) as [_ ->].
    cbn [rowwise] in Hr. apply andb_prop in Hr as [Ra Rb].
    destruct (shape_Bin_inv _ _ _ Hs) as [Sa Sb].
    destruct (row_length _ Ra Sa) as [Es La]. destruct (row_length _ Rb Sb) as [_ Lb].
    destruct (row_length _ Rg Sg) as [_ Lg].
    remember (nth 1 s O) as c eqn:Ec. clear Ec. subst s.
    destruct o.
    + eapply computes_ext;
        [|exact (@computes_accumulate _ _ _ _ (IHe1 _ g Ra Sa Rg Sg) (IHe2 _ g Rb Sb Rg Sg))].
      intros av bv. cbv beta. symmetry. cbn [tangent].
      destruct (La av bv) as [_ L2]. destruct (Lb av bv) as [_ L4].
      destruct (Lg av bv) as [L5 _].
      apply dot_plus with (c := c); try lia.
      intros i Hi. rewrite !nth_zip_with with (da := 0) (db := 0) by lia. ring.
    + assert (Rn : rowwise A B n (Un UNeg g) = true) by exact Rg.
      assert (Sn : shape_of (Un UNeg g) = Some [n; c]) by exact Sg.
      eapply computes_ext;
        [|exact (@computes_accumulate _ _ _ _ (IHe1 _ g Ra Sa Rg Sg) (IHe2 _ _ Rb Sb Rn Sn))].
      intros av bv. cbv beta. symmetry. cbn [tangent row].
      destruct (La av bv) as [_ L2]. destruct (Lb av bv) as [_ L4].
      destruct (Lg av bv) as [L5 _].
      apply dot_plus with (c := c); try lia; [rewrite length_map; lia|].
      intros i Hi. rewrite !nth_zip_with with (da := 0) (db := 0) by lia.
      rewrite nth_map_lt with (d := 0) by lia. cbn [un_val]. ring.
    + assert (R1 : rowwise A B n (Bin BMul g e2) = true)
        by (cbn [rowwise]; now rewrite Rg, Rb).
      assert (R2 : rowwise A B n (Bin BMul g e1) = true)
        by (cbn [rowwise]; now rewrite Rg, Ra).
      assert (S1 : shape_of (Bin BMul g e2) = Some [n; c])
        by (cbn [shape_of]; now rewrite Sg, Sb, shape_eqb_refl).
      assert (S2 : shape_of (Bin BMul g e1) = Some [n; c])
        by (cbn [shape_of]; now rewrite Sg, Sa, shape_eqb_refl).
      eapply computes_ext;
        [|exact (@computes_accumulate _ _ _ _ (IHe1 _ _ Ra Sa R1 S1) (IHe2 _ _ Rb Sb R2 S2))].
      intros av bv. cbv beta. symmetry. cbn [tangent row].
      destruct (La av bv) as [L1 L2]. destruct (Lb av bv) as [L3 L4].
      destruct (Lg av bv) as [L5 _].
      apply dot_plus with (c := c); try (rewrite ?zip_with_length; lia).
      intros i Hi.
      rewrite !nth_zip_with with (da := 0) (db := 0)
        by (rewrite ?zip_with_length; lia).
      cbn [bin_val]. ring.
  - (* Cat1 *)
    cbn [vjp]. destruct (not_atom (Cat1 e1 e2) eq_refl) as [_ ->].
    cbn [rowwise] in Hr. apply andb_prop in Hr as [Ra Rb].
    destruct (shape_Cat1_inv _ _ Hs) as (n' & p & q & Sa & Sb & ->).
    destruct (row_length _ Ra Sa) as [Es La]. destruct (row_length _ Rb Sb) as [_ Lb].
    destruct (row_length _ Rg Sg) as [_ Lg]. cbn [nth] in Es, La, Lb, Lg.
    injection Es as ->.
    rewrite (@shp_of _ _ Sa), (@shp_of _ _ Sb). cbn [nth].
    assert (R1 : rowwise A B n (Narrow1 0 p g) = true) by exact Rg.
    assert (R2 : rowwise A B n (Narrow1 p q g) = true) by exact Rg.
    assert (S1 : shape_of (Narrow1 0 p g) = Some [n; p]).
    { cbn [shape_of]. rewrite Sg.
      replace (Nat.leb (0 + p) (p + q)) with true by (symmetry; apply Nat.leb_le; lia).
      reflexivity. }
    assert (S2 : shape_of (Narrow1 p q g) = Some [n; q]).
    { cbn [shape_of]. rewrite Sg. now rewrite Nat.leb_refl. }
    eapply computes_ext;
      [|exact (@computes_accumulate _ _ _ _ (IHe1 _ _ Ra Sa R1 S1) (IHe2 _ _ Rb Sb R2 S2))].
    intros av bv. cbv beta. symmetry. cbn [tangent row skipn].
    destruct (La av bv) as [_ L2]. destruct (Lb av bv) as [_ L4].
    destruct (Lg av bv) as [L5 _].
    rewrite <- (firstn_skipn p (row st A B av bv g)) at 1.
    rewrite dot_app by (rewrite length_firstn; lia).
    rewrite (firstn_all2 (n := q)) by (rewrite length_skipn; lia). reflexivity.
  - (* Narrow1 *)
    cbn [vjp]. destruct (not_atom (Narrow1 start len e) eq_refl) as [_ ->].
    cbn [rowwise] in Hr.
    destruct (shape_Narrow1_inv _ _ _ Hs) as (n' & c & Sa & Hle & ->).
    destruct (row_length _ Hr Sa) as [Es La].
    destruct (row_length _ Rg Sg) as [_ Lg]. cbn [nth] in Es, La, Lg.
    injection Es as ->.
    rewrite (@shp_of _ _ Sa). cbn [nth].
    assert (R1 : rowwise A B n (PadCols start (c - start - len) g) = true) by exact Rg.
    assert (S1 : shape_of (PadCols start (c - start - len) g) = Some [n; c]).
    { cbn [shape_of]. rewrite Sg. do 3 f_equal. lia. }
    eapply computes_ext; [|exact (IHe _ _ Hr Sa R1 S1)].
    intros av bv. cbv beta. cbn [tangent row].
    destruct (La av bv) as [_ L2]. destruct (Lg av bv) as [L5 _].
    set (ta := tangent st A B av bv e) in *.
    rewrite <- (firstn_skipn start ta) at 1.
    rewrite dot_app by (rewrite repeat_length, length_firstn; lia).
    rewrite dot_repeat_0_l.
    rewrite <- (firstn_skipn len (skipn start ta)) at 1.
    rewrite dot_app by (rewrite length_firstn, length_skipn; lia).
    rewrite dot_repeat_0_l. ring.
  - (* PadCols *)
    cbn [vjp]. destruct (not_atom (PadCols l r e) eq_refl) as [_ ->].
    cbn [rowwise] in Hr.
    destruct (shape_PadCols_inv _ _ _ Hs) as (n' & c & Sa & ->).
    destruct (row_length _ Hr Sa) as [Es La].
    destruct (row_length _ Rg Sg) as [_ Lg]. cbn [nth] in Es, La, Lg.
    injection Es as ->.
    rewrite (@shp_of _ _ Sa). cbn [nth].
    assert (R1 : rowwise A B n (Narrow1 l c g) = true) by exact Rg.
    assert (S1 : shape_of (Narrow1 l c g) = Some [n; c]).
    { cbn [shape_of]. rewrite Sg.
      replace (Nat.leb (l + c) (l + c + r)) with true by (symmetry; apply Nat.leb_le; lia).
      reflexivity. }
    eapply computes_ext; [|exact (IHe _ _ Hr Sa R1 S1)].
    intros av bv. cbv beta. cbn [tangent row].
    destruct (La av bv) as [_ L2]. destruct (Lg av bv) as [L5 _].
    set (rg := row st A B av bv g) in *.
    rewrite <- (firstn_skipn l rg) at 2.
    rewrite dot_app by (rewrite repeat_length, length_firstn; lia).
    rewrite dot_repeat_0_r.
    rewrite <- (firstn_skipn c (skipn l rg)) at 2.
    rewrite dot_app by (rewrite length_firstn, length_skipn; lia).
    rewrite dot_repeat_0_r. ring.
  - (* Affine *)
    cbn [vjp]. destruct (not_atom (Affine w inF outF tr bias e) eq_refl) as [_ ->].
    cbn [rowwise] in Hr.
    destruct (shape_Affine_inv _ _ _ _ _ _ Hs) as (n' & Sa & ->).
    destruct (row_length _ Hr Sa) as [Es La].
    destruct (row_length _ Rg Sg) as [_ Lg]. cbn [nth] in Es, La, Lg.
    injection Es as ->.
    assert (R1 : rowwise A B n (Affine w inF outF (negb tr) None g) = true) by exact Rg.
    assert (S1 : shape_of (Affine w inF outF (negb tr) None g)
                 = Some [n; if tr then outF else inF]).
    { cbn [shape_of]. rewrite Sg. destruct tr; cbn [negb]; now rewrite Nat.eqb_refl. }
    eapply computes_ext; [|exact (IHe _ _ Hr Sa R1 S1)].
    intros av bv. cbv beta. cbn [tangent row].
    destruct (La av bv) as [_ L2]. destruct (Lg av bv) as [L5 _].
    symmetry. now apply affine_adjoint.
Qed.


(** *** First and second derivatives by reverse mode *)

Lemma grad_vjp (o i g d : expr) : grad o i g = Ok d -> vjp i o g = Some d.
Proof.
  unfold grad. destruct (shape_of o); [|discriminate]. destruct (shape_of g); [|discriminate].
  destruct (negb _); [discriminate|]. destruct (negb _); [discriminate|].
  destruct (negb _); [discriminate|]. destruct (vjp i o g); [|discriminate].
  intros H. now injection H as ->.
Qed.

Lemma ones_B : ones_like 0 false B = Fill 0 false 1 [n; 1%nat].
Proof.
  unfold ones_like. now rewrite (@shp_of _ _ SB).
Qed.

(** One pass of [df] with respect to [B] on a one-column row-wise graph. *)
Lemma grad_derivative (e d : expr) :
  rowwise A B n e = true -> shape_of e = Some [n; 1%nat] ->
  grad e B (ones_like 0 false B) = Ok d ->
  rowwise A B n d = true /\ shape_of d = Some [n; 1%nat]
  /\ forall av b0,
       derivable_pt_lim (fun bv => nth 0 (row st A B av bv e) 0) b0
         (nth 0 (row st A B av b0 d) 0).
Proof.
  intros Re Se G.
  destruct (grad_ones_shape _ _ G) as [s [H1 [_ H3]]].
  assert (s = [n; 1%nat]) by congruence. subst s.
  apply grad_vjp in G. rewrite ones_B in G.
  assert (Ro : rowwise A B n (Fill 0 false 1 [n; 1%nat]) = true)
    by (cbn [rowwise]; apply Nat.eqb_refl).
  pose proof (@vjp_tangent e _ _ Re Se Ro eq_refl) as V. rewrite G in V.
  destruct V as [Rd Hd]. split; [exact Rd|]. split; [exact H3|].
  intros av b0. rewrite Hd. cbn [nth row].
  destruct (row_length _ Re Se) as [_ L]. destruct (L av b0) as [_ Lt].
  cbn [nth] in Lt.
  replace (dot _ _) with (nth 0 (tangent st A B av b0 e) 0).
  - exact (@tangent_correct e _ Re Se av b0 O).
  - destruct (tangent st A B av b0 e) as [|v [|? ?]]; try discriminate.
    unfold dot. cbn. ring.
Qed.

(** Two passes give the second derivative. *)
Lemma df_second_derivative (e d2 : expr) :
  rowwise A B n e = true ->
  df e B 2 = Ok d2 ->
  rowwise A B n d2 = true /\ shape_of d2 = Some [n; 1%nat]
  /\ forall av b0,
       second_derivative (fun bv => nth 0 (row st A B av bv e) 0) b0
         (nth 0 (row st A B av b0 d2) 0).
Proof.
  intros Re D.
  destruct (df_order_2 _ _ D) as (d1 & s & G1 & G2 & S1 & S2 & _).
  assert (s = [n; 1%nat]) by congruence. subst s.
  destruct (@grad_derivative _ _ Re S2 G1) as (R1 & Sd1 & D1).
  destruct (@grad_derivative _ _ R1 Sd1 G2) as (R2 & Sd2 & D2).
  split; [exact R2|]. split; [exact Sd2|].
  intros av b0. exists (fun bv => nth 0 (row st A B av bv d1) 0). split.
  - intros bv. apply D1.
  - apply D2.
Qed.

(** The value of a one-column row-wise graph at the [k]-th point. *)
Lemma data_point (e : expr) (k : nat) :
  rowwise A B n e = true -> shape_of e = Some [n; 1%nat] -> (k < n)%nat ->
  nth k (data st e) 0
  = nth 0 (row st A B (nth k (data st A) 0) (nth k (data st B) 0) e) 0.
Proof.
  intros Re Se Hk. rewrite (data_rows _ Re Se).
  destruct (row_length _ Re Se) as [_ L]. cbn [nth] in L.
  assert (E : forall p, row st A B (fst p) (snd p) e
                        = [nth 0 (row st A B (fst p) (snd p) e) 0]).
  { intros p. destruct (L (fst p) (snd p)) as [L1 _].
    destruct (row st A B (fst p) (snd p) e) as [|v [|? ?]]; try discriminate.
    reflexivity. }
  rewrite (flat_map_ext _ _ E), flat_map_singleton.
  rewrite nth_map_lt with (d := (0, 0)) by (rewrite points_count; exact Hk).
  rewrite combine_nth by (now rewrite (data_length st _ SA), (data_length st _ SB)).
  reflexivity.
Qed.

Lemma sequential_rowwise (ls : list layer) :
  forall k a, rowwise A B n (sequential k ls a) = rowwise A B n a.
Proof.
  induction ls as [|l ls IH]; intros k a; [reflexivity|].
  cbn [sequential]. rewrite IH. now destruct l.
Qed.

Lemma sequential_row_of (ls : list layer) (av bv : R) :
  forall k a,
  row st A B av bv (sequential k ls a) = sequential_row st k ls (row st A B av bv a).
Proof.
  induction ls as [|l ls IH]; intros k a; [reflexivity|].
  cbn [sequential]. rewrite IH. now destruct l.
Qed.

End RowFacts.

Lemma vjp_independent (target e : expr) :
  depends_on target e = false -> forall g, vjp target e g = None.
Proof.
  induction e; cbn [depends_on]; intros H g;
    apply orb_false_elim in H as [H1 H2]; cbn [vjp]; rewrite H1; auto.
  - apply orb_false_elim in H2 as [Ha Hb].
    destruct o; now rewrite IHe1, IHe2 by assumption.
  - apply orb_false_elim in H2 as [Ha Hb]. now rewrite IHe1, IHe2 by assumption.
Qed.

Lemma independent_neq (a b : expr) : depends_on a b = false -> b <> a.
Proof.
  intros H ->. destruct a; cbn [depends_on] in H; now rewrite expr_eqb_refl in H.
Qed.

Lemma nth_0_hd (l : list R) : nth 0 l 0 = hd 0 l.
Proof.
  now destruct l.
Qed.

(** The derivatives that [dfdx] and [dfdt] return at order 2, at the points
    of two independent columns [x] and [t]. *)
Section Partial.

Variable st : store.
Variable model : simple_NN2.
Variables x t : expr.
Variable n : nat.

Hypothesis Ax : atomic x = true.
Hypothesis At : atomic t = true.
Hypothesis Sx : shape_of x = Some [n; 1%nat].
Hypothesis St : shape_of t = Some [n; 1%nat].
Hypothesis Ixt : depends_on t x = false.
Hypothesis Itx : depends_on x t = false.

Lemma forward_row_t (xv tv : R) :
  nth 0 (row st x t xv tv (forward model x t)) 0 = f_point st model xv tv.
Proof.
  unfold forward, f_point. rewrite sequential_row_of, nth_0_hd. cbn [row].
  destruct (atom_row st x t O x xv tv Ax) as [-> _].
  destruct (atom_row st x t O t xv tv At) as [-> _].
  rewrite !expr_eqb_refl, (expr_eqb_false (independent_neq Itx)). reflexivity.
Qed.

Lemma forward_row_x (xv tv : R) :
  nth 0 (row st t x tv xv (forward model x t)) 0 = f_point st model xv tv.
Proof.
  unfold forward, f_point. rewrite sequential_row_of, nth_0_hd. cbn [row].
  destruct (atom_row st t x O x tv xv Ax) as [-> _].
  destruct (atom_row st t x O t tv xv At) as [-> _].
  rewrite !expr_eqb_refl, (expr_eqb_false (independent_neq Ixt)). reflexivity.
Qed.

Lemma forward_rowwise (a b : expr) :
  rowwise a b n (forward model x t)
  = ((expr_eqb x a || expr_eqb x b) && (expr_eqb t a || expr_eqb t b))%bool.
Proof.
  unfold forward. rewrite sequential_rowwise. cbn [rowwise].
  destruct (atom_row st a b n x 0 0 Ax) as [_ [_ ->]].
  destruct (atom_row st a b n t 0 0 At) as [_ [_ ->]]. reflexivity.
Qed.

Lemma dfdt_second_derivative (d2 : expr) (k : nat) :
  dfdt model x t 2 = Ok d2 -> (k < n)%nat ->
  second_derivative (fun tv => f_point st model (nth k (data st x) 0) tv)
    (nth k (data st t) 0) (nth k (data st d2) 0).
Proof.
  intros D Hk. unfold dfdt in D.
  pose proof (independent_neq Itx) as Hneq.
  assert (Re : rowwise x t n (forward model x t) = true)
    by (rewrite forward_rowwise, !expr_eqb_refl; now rewrite !orb_true_r).
  destruct (@df_second_derivative st x t n Ax At (not_eq_sym Hneq) Sx St
              (vjp_independent _ _ Ixt) _ _ Re D) as (R2 & S2 & H).
  rewrite (@data_point st x t n Ax At (not_eq_sym Hneq) Sx St _ k R2 S2 Hk).
  destruct (H (nth k (data st x) 0) (nth k (data st t) 0)) as [f' [H1 H2]].
  exists f'. split; [|exact H2].
  intros tv. eapply derivable_pt_lim_ext; [|exact (H1 tv)].
  intros u. cbv beta. apply forward_row_t.
Qed.

Lemma dfdx_second_derivative (d2 : expr) (k : nat) :
  dfdx model x t 2 = Ok d2 -> (k < n)%nat ->
  second_derivative (fun xv => f_point st model xv (nth k (data st t) 0))
    (nth k (data st x) 0) (nth k (data st d2) 0).
Proof.
  intros D Hk. unfold dfdx in D.
  pose proof (independent_neq Ixt) as Hneq.
  assert (Re : rowwise t x n (forward model x t) = true)
    by (rewrite forward_rowwise, !expr_eqb_refl; now rewrite !orb_true_r).
  destruct (@df_second_derivative st t x n At Ax (not_eq_sym Hneq) St Sx
              (vjp_independent _ _ Itx) _ _ Re D) as (R2 & S2 & H).
  rewrite (@data_point st t x n At Ax (not_eq_sym Hneq) St Sx _ k R2 S2 Hk).
  destruct (H (nth k (data st t) 0) (nth k (data st x) 0)) as [f' [H1 H2]].
  exists f'. split; [|exact H2].
  intros xv. eapply derivable_pt_lim_ext; [|exact (H1 xv)].
  intros u. cbv beta. apply forward_row_x.
Qed.

Lemma dfdt_first_derivative (d : expr) (k : nat) :
  dfdt model x t 1 = Ok d -> (k < n)%nat ->
  derivable_pt_lim (fun tv => f_point st model (nth k (data st x) 0) tv)
    (nth k (data st t) 0) (nth k (data st d) 0).
Proof.
  intros D Hk. unfold dfdt, df in D. cbn [df_loop] in D.
  destruct (grad (forward model x t) t (ones_like 0 false t)) as [d'|] eqn:G;
    [|discriminate].
  cbn [bind] in D. injection D as ->.
  pose proof (independent_neq Itx) as Hneq.
  assert (Re : rowwise x t n (forward model x t) = true)
    by (rewrite forward_rowwise, !expr_eqb_refl; now rewrite !orb_true_r).
  destruct (grad_ones_shape _ _ G) as [s [H1 [H2 _]]].
  assert (s = [n; 1%nat]) by congruence. subst s.
  destruct (@grad_derivative st x t n Ax At (not_eq_sym Hneq) Sx St
              (vjp_independent _ _ Ixt) _ _ Re H2 G) as (R1 & S1 & H).
  rewrite (@data_point st x t n Ax At (not_eq_sym Hneq) Sx St _ k R1 S1 Hk).
  eapply derivable_pt_lim_ext; [|exact (H _ _)].
  intros u. cbv beta. apply forward_row_t.
Qed.

End Partial.

(** ** C2 *)

(** C2: the PDE residual of [compute_loss] is, at every collocation point,
    the second derivative of f in space minus 1/C^2 times its second
    derivative in time; each of the two is obtained by two reverse-mode
    passes, the second one over the graph that the first one built, on
    [model(x, t)].  The columns [x] and [t] are tensors of one column that
    are not computed from each other, as the two grid tensors are. *)
Theorem pde_residual_is_wave_operator (model : simple_NN2) (x t x_idx t_idx : expr)
    (C : scalar) (loss : expr) (st : store) (n : nat) :
  compute_loss model x t x_idx t_idx C = Ok loss ->
  sval st C <> 0 ->
  atomic x = true -> atomic t = true ->
  shape_of x = Some [n; 1%nat] -> shape_of t = Some [n; 1%nat] ->
  depends_on t x = false -> depends_on x t = false ->
  exists d1x d2x d1t d2t b0 b1 i0 i1,
    grad (forward model x t) x (ones_like 0 false x) = Ok d1x
    /\ grad d1x x (ones_like 0 false x) = Ok d2x
    /\ grad (forward model x t) t (ones_like 0 false t) = Ok d1t
    /\ grad d1t t (ones_like 0 false t) = Ok d2t
    /\ loss = Bin BAdd (Bin BAdd (Bin BAdd (Bin BAdd
                (Mean (Un (UPow 2) (pde_residual d2x d2t C))) b0) b1) i0) i1
    /\ shape_of (pde_residual d2x d2t C) = Some [n; 1%nat]
    /\ length (data st (pde_residual d2x d2t C)) = n
    /\ forall k, (k < n)%nat ->
         exists fxx ftt,
           second_derivative (fun xv => f_point st model xv (nth k (data st t) 0))
             (nth k (data st x) 0) fxx
           /\ second_derivative (fun tv => f_point st model (nth k (data st x) 0) tv)
                (nth k (data st t) 0) ftt
           /\ nth k (data st (pde_residual d2x d2t C)) 0
              = fxx - 1 / sval st C ^ 2 * ftt.
Proof.
  intros H HC Ax At Sx St Ixt Itx.
  destruct (compute_loss_inv _ _ _ _ _ _ H) as [d2x [d2t [dt0 [H1 [H2 [_ H4]]]]]].
  pose proof H1 as Dx. pose proof H2 as Dt.
  unfold dfdx in H1. unfold dfdt in H2. cbn zeta in H1, H2.
  destruct (df_order_2 _ _ H1) as [d1x [s [G1 [G2 [Sx' [Sf Sd]]]]]].
  destruct (df_order_2 _ _ H2) as [d1t [s' [G3 [G4 [St' [Sf' Sd']]]]]].
  assert (s = [n; 1%nat]) by congruence. subst s.
  assert (s' = [n; 1%nat]) by congruence. subst s'.
  assert (Sp : shape_of (pde_residual d2x d2t C) = Some [n; 1%nat]).
  { unfold pde_residual. cbn [shape_of]. now rewrite Sd, Sd', shape_eqb_refl. }
  exists d1x, d2x, d1t, d2t. do 4 eexists.
  split; [exact G1|]. split; [exact G2|]. split; [exact G3|]. split; [exact G4|].
  split; [exact H4|]. split; [exact Sp|].
  split; [rewrite (data_length st _ Sp), numel_2; lia|].
  intros k Hk. exists (nth k (data st d2x) 0), (nth k (data st d2t) 0).
  split; [exact (@dfdx_second_derivative st model x t n Ax At Sx St Ixt Itx d2x k Dx Hk)|].
  split; [exact (@dfdt_second_derivative st model x t n Ax At Sx St Ixt Itx d2t k Dt Hk)|].
  unfold pde_residual. cbn [data]. rewrite zip_with_map_r.
  rewrite nth_zip_with with (da := 0) (db := 0)
    by (rewrite ?(data_length st _ Sd), ?(data_length st _ Sd'), numel_2; lia).
  cbn [bin_val un_val sval]. f_equal. f_equal. field.
  first [exact HC | apply pow_nonzero; exact HC].
Qed.

Lemma pde_residual_is_wave_operator_witness :
  exists loss d2x d2t,
    compute_loss model x t x_idx t_idx C_default = Ok loss
    /\ sval st0 C_default <> 0
    /\ (atomic x = true /\ atomic t = true)
    /\ (depends_on t x = false /\ depends_on x t = false)
    /\ dfdx model x t 2 = Ok d2x /\ dfdt model x t 2 = Ok d2t
    /\ shape_of (pde_residual d2x d2t C_default) = Some [(100 * 150)%nat; 1%nat]
    /\ exists fxx ftt,
         second_derivative (fun xv => f_point st0 model xv (nth 0 (data st0 t) 0))
           (nth 0 (data st0 x) 0) fxx
         /\ second_derivative (fun tv => f_point st0 model (nth 0 (data st0 x) 0) tv)
              (nth 0 (data st0 t) 0) ftt
         /\ nth 0 (data st0 (pde_residual d2x d2t C_default)) 0
            = fxx - 1 / sval st0 C_default ^ 2 * ftt.
Proof.
  destruct compute_loss_run as [loss [Hl _]].
  assert (HC : sval st0 C_default <> 0) by (cbn [sval C_default]; lra).
  assert (Ax : atomic x = true) by reflexivity.
  assert (At : atomic t = true) by reflexivity.
  assert (Sx : shape_of x = Some [(100 * 150)%nat; 1%nat]) by reflexivity.
  assert (St : shape_of t = Some [(100 * 150)%nat; 1%nat]) by reflexivity.
  assert (Ixt : depends_on t x = false) by (vm_compute; reflexivity).
  assert (Itx : depends_on x t = false) by (vm_compute; reflexivity).
  destruct (@pde_residual_is_wave_operator model x t x_idx t_idx C_default loss st0
              (100 * 150)%nat Hl HC Ax At Sx St Ixt Itx)
    as (d1x & d2x & d1t & d2t & b0 & b1 & i0 & i1 & G1 & G2 & G3 & G4 & _ & Sp & _ & D).
  exists loss, d2x, d2t. split; [exact Hl|]. split; [exact HC|].
  split; [split; [exact Ax|exact At]|]. split; [split; [exact Ixt|exact Itx]|].
  unfold dfdx, dfdt, df. cbn [df_loop]. rewrite G1, G3. cbn [bind]. rewrite G2, G4.
  cbn [bind]. split; [reflexivity|]. split; [reflexivity|]. split; [exact Sp|].
  apply D. apply Nat.lt_0_succ.
Defined.

(** ** C4 *)

Lemma py_index_first (n : nat) : (1 <= n)%nat -> py_index 0 n = Some O.
Proof.
  intros H. unfold py_index.
  destruct (Z.ltb 0 (Z.of_nat n)) eqn:E; [reflexivity|]. apply Z.ltb_ge in E. lia.
Qed.

Lemma py_index_last (n : nat) : (1 <= n)%nat -> py_index (-1) n = Some (n - 1)%nat.
Proof.
  intros H. unfold py_index. cbn [Z.leb Z.compare andb Z.ltb].
  destruct (Z.leb (- Z.of_nat n) (-1)) eqn:E.
  - f_equal. lia.
  - apply Z.leb_gt in E. lia.
Qed.

Lemma firstn_1_skipn (k : nat) (l : list R) :
  (k < length l)%nat -> firstn 1 (skipn k l) = [nth k l 0].
Proof.
  revert l; induction k as [|k IH]; intros [|v l] H; cbn [length] in H; try lia.
  - reflexivity.
  - cbn [skipn nth]. apply IH. lia.
Qed.

Lemma zip_with_repeat {A B C : Type} (f : A -> B -> C) (a : A) (b : B) (n : nat) :
  zip_with f (repeat a n) (repeat b n) = repeat (f a b) n.
Proof.
  induction n as [|n IH]; [reflexivity|]. cbn [repeat zip_with]. now rewrite IH.
Qed.


Lemma combine_repeat_r {A B : Type} (c : B) (l : list A) :
  combine l (repeat c (length l)) = map (fun v => (v, c)) l.
Proof.
  induction l as [|v l IH]; [reflexivity|]. cbn [length repeat combine map]. now rewrite IH.
Qed.

Section Boundary.

Variables (x_domain t_domain : scalar * scalar) (nx nt : nat) (st : store).

Let g : collocation := build x_domain nx t_domain nt.

(** The column [x[i]] broadcast over [t_idx], when [x[i]] holds [v]. *)
Lemma boundary_column_value (id : nat) (i : Z) (k : nat) :
  py_index i (nx * nt) = Some k ->
  shape_of (boundary_column id i (c_x g) (c_t_idx g)) = Some [nt; 1%nat]
  /\ data st (Index i (c_x g)) = [nth k (data st (c_x g)) 0]
  /\ data st (boundary_column id i (c_x g) (c_t_idx g))
     = repeat (nth k (data st (c_x g)) 0) nt.
Proof.
  intros Hi.
  destruct (grid_shapes x_domain t_domain nx nt) as [_ [St [Sx _]]].
  fold g in St, Sx.
  assert (Si : shape_of (Index i (c_x g)) = Some [1%nat])
    by (cbn [shape_of]; now rewrite Sx, Hi).
  assert (Di : data st (Index i (c_x g)) = [nth k (data st (c_x g)) 0]).
  { cbn [data]. rewrite (@shp_of _ _ Sx). cbn [hd tl]. rewrite Hi, numel_1, Nat.mul_1_r.
    apply firstn_1_skipn. rewrite (data_length st _ Sx), numel_2.
    apply py_index_lt in Hi. lia. }
  assert (Hb : boundary_column id i (c_x g) (c_t_idx g)
               = Bin BMul (Fill id true 1 [nt; 1%nat]) (Expand [nt; 1%nat] (Index i (c_x g)))).
  { unfold boundary_column, tmul, to_device, ones_like.
    rewrite (@shp_of _ _ St), (@shp_of _ _ Si). cbn [shape_of shp shape_eqb numel fold_right].
    rewrite andb_false_r. reflexivity. }
  rewrite Hb. split; [|split; [exact Di|]].
  - cbn [shape_of] in Si |- *. rewrite Si. cbn. now rewrite !Nat.eqb_refl.
  - cbn [data] in Di |- *. rewrite Di. cbn [hd]. rewrite zip_with_repeat, numel_2, Nat.mul_1_r.
    cbn [bin_val]. now rewrite Rmult_1_l.
Qed.

End Boundary.







Section BoundaryValues.

Variables (x_domain t_domain : scalar * scalar) (nx nt : nat) (st : store).

Let g : collocation := build x_domain nx t_domain nt.




End BoundaryValues.




(** ** C5 *)

Section Initial.

Variables (x_domain t_domain : scalar * scalar) (nx nt : nat).

Let g : collocation := build x_domain nx t_domain nt.

Lemma zero_time_node : zero_time (c_x_idx g) = Fill id_t_initial true 0 [nx; 1%nat].
Proof.
  destruct (grid_shapes x_domain t_domain nx nt) as [Sx _]. fold g in Sx.
  unfold zero_time, zeros_like. now rewrite (@shp_of _ _ Sx).
Qed.

Lemma initial_condition_value (st : store) :
  shape_of (initial_condition (c_x_idx g)) = Some [nx; 1%nat]
  /\ data st (initial_condition (c_x_idx g))
     = map (fun xv => 1 / 2 * sin (2 * PI * xv)) (data st (c_x_idx g)).
Proof.
  destruct (grid_shapes x_domain t_domain nx nt) as [Sx _]. fold g in Sx.
  split.
  - unfold initial_condition. cbn [shape_of]. cbn [shape_of] in Sx. rewrite Sx.
    now rewrite numel_2, Nat.mul_1_r, resolve_dims_col.
  - unfold initial_condition. cbn [data]. rewrite !map_map.
    apply map_ext. intros xv. cbn [un_val sval].
    replace (2 / 1 * PI * xv) with (2 * PI * xv) by field. reflexivity.
Qed.

Ltac unroll_vjp :=
  cbn [vjp un_backward accumulate];
  repeat match goal with
         | |- context [expr_eqb ?a ?a] => rewrite (expr_eqb_refl a)
         | |- context [expr_eqb ?a ?b] => rewrite (@expr_eqb_false a b) by discriminate
         end;
  cbn [accumulate].

Lemma initial_derivative_run :
  exists d,
    grad (forward model (c_x_idx g) (zero_time (c_x_idx g))) (zero_time (c_x_idx g))
         (ones_like 0 false (zero_time (c_x_idx g))) = Ok d
    /\ dfdt model (c_x_idx g) (zero_time (c_x_idx g)) 1 = Ok d
    /\ shape_of d = Some [nx; 1%nat].
Proof.
  destruct (grid_shapes x_domain t_domain nx nt) as [Sx _]. fold g in Sx.
  assert (St : shape_of (zero_time (c_x_idx g)) = Some [nx; 1%nat])
    by (now rewrite zero_time_node).
  assert (Sf : shape_of (forward model (c_x_idx g) (zero_time (c_x_idx g))) = Some [nx; 1%nat]).
  { unfold forward, model, simple_NN2_init.
    cbn [linear_tanh_stack sequential apply_layer shape_of] in Sx |- *.
    rewrite Sx, zero_time_node. cbn [shape_of]. now rewrite Nat.eqb_refl. }
  assert (G : exists d,
             grad (forward model (c_x_idx g) (zero_time (c_x_idx g))) (zero_time (c_x_idx g))
               (ones_like 0 false (zero_time (c_x_idx g))) = Ok d).
  { unfold grad. rewrite Sf. unfold ones_like at 1. rewrite (@shp_of _ _ St).
    cbn [shape_of]. rewrite shape_eqb_refl. cbn [negb].
    rewrite zero_time_node. unfold g, build, to_device, forward, model, simple_NN2_init.
    cbn [c_x_idx linear_tanh_stack sequential apply_layer requires_grad negb].
    unroll_vjp. eexists. reflexivity. }
  destruct G as [d G]. exists d. split; [exact G|]. split.
  - unfold dfdt, df. cbn [df_loop]. rewrite G. reflexivity.
  - destruct (grad_ones_shape _ _ G) as [s [H1 [_ H3]]]. congruence.
Qed.

End Initial.

(** C5: the fourth and the fifth term of the loss that [compute_loss]
    returns are the mean squares of the initial-value residual
    [model(x_idx, t_initial) - initial_condition(x_idx)] and of the
    initial-derivative residual [dfdt(model, x_idx, t_initial, order=1)], on
    one and the same [t_initial]: a tracked tensor of zeros of the shape of
    [x_idx].  The initial-value residual is f(x, 0) - 0.5 sin(2 pi x) for
    every x of [x_idx]; the initial-derivative residual is one reverse-mode
    pass of [model(x_idx, t_initial)] with respect to that [t_initial]; it
    returns, and holds for every x of [x_idx] the derivative of f in time at
    (x, 0). *)
Theorem initial_residuals (x_domain t_domain : scalar * scalar) (nx nt : nat) :
  let g := build x_domain nx t_domain nt in
  let t_initial := zero_time (c_x_idx g) in
  let initial_loss_f :=
    Bin BSub (forward model (c_x_idx g) t_initial) (initial_condition (c_x_idx g)) in
  t_initial = Fill id_t_initial true 0 [nx; 1%nat]
  /\ requires_grad t_initial = true
  /\ (forall st, data st t_initial = repeat 0 nx)
  /\ (forall st,
        length (data st (c_x_idx g)) = nx
        /\ data st initial_loss_f
           = map (fun xv => f_point st model xv 0 - 1 / 2 * sin (2 * PI * xv))
               (data st (c_x_idx g)))
  /\ exists initial_loss_df,
       dfdt model (c_x_idx g) t_initial 1 = Ok initial_loss_df
       /\ grad (forward model (c_x_idx g) t_initial) t_initial
            (ones_like 0 false t_initial) = Ok initial_loss_df
       /\ shape_of initial_loss_df = Some [nx; 1%nat]
       /\ (forall st, length (data st initial_loss_df) = nx)
       /\ (forall st k, (k < nx)%nat ->
             derivable_pt_lim
               (fun tv => f_point st model (nth k (data st (c_x_idx g)) 0) tv)
               0 (nth k (data st initial_loss_df) 0))
       /\ forall C loss,
            compute_loss model (c_x g) (c_t g) (c_x_idx g) (c_t_idx g) C = Ok loss ->
            exists pde b0 b1,
              loss = Bin BAdd (Bin BAdd (Bin BAdd (Bin BAdd
                       (Mean (Un (UPow 2) pde))
                       (Mean (Un (UPow 2) b0)))
                       (Mean (Un (UPow 2) b1)))
                       (Mean (Un (UPow 2) initial_loss_f)))
                       (Mean (Un (UPow 2) initial_loss_df)).
Proof.
  intros g t_initial initial_loss_f.
  pose proof (zero_time_node x_domain t_domain nx nt) as Hz. fold g in Hz. fold t_initial in Hz.
  destruct (grid_shapes x_domain t_domain nx nt) as [Sx _]. fold g in Sx.
  assert (Dz : forall st, data st t_initial = repeat 0 nx).
  { intros st. rewrite Hz. cbn [data]. now rewrite numel_2, Nat.mul_1_r. }
  split; [exact Hz|]. split; [now rewrite Hz|]. split; [exact Dz|]. split.
  - intros st.
    assert (Lx : length (data st (c_x_idx g)) = nx)
      by (rewrite (data_length st _ Sx), numel_2; lia).
    split; [exact Lx|].
    assert (Sz : shape_of t_initial = Some [nx; 1%nat]) by (now rewrite Hz).
    destruct (@forward_points st (c_x_idx g) t_initial _ Sx Sz) as [_ F].
    destruct (initial_condition_value x_domain t_domain nx nt st) as [_ I]. fold g in I.
    unfold initial_loss_f. cbn [data]. rewrite F, I, Dz.
    rewrite <- Lx at 1. rewrite combine_repeat_r, map_map, zip_with_map_same.
    apply map_ext. intros xv. reflexivity.
  - destruct (initial_derivative_run x_domain t_domain nx nt) as [d [G [D S]]].
    fold g in G, D, S. fold t_initial in G, D.
    exists d. split; [exact D|]. split; [exact G|]. split; [exact S|].
    split; [intros st; rewrite (data_length st _ S), numel_2; lia|]. split.
    + intros st k Hk.
      assert (Sz : shape_of t_initial = Some [nx; 1%nat]) by (now rewrite Hz).
      assert (Az : atomic t_initial = true) by (now rewrite Hz).
      assert (Ixt : depends_on t_initial (c_x_idx g) = false) by (now rewrite Hz).
      assert (Itx : depends_on (c_x_idx g) t_initial = false) by (now rewrite Hz).
      pose proof (@dfdt_first_derivative st model (c_x_idx g) t_initial nx eq_refl Az Sx Sz
                    Ixt Itx d k D Hk) as H.
      now rewrite (Dz st), nth_repeat in H.
    + intros C loss Hl.
      destruct (compute_loss_inv _ _ _ _ _ _ Hl) as (d2x & d2t & dt0 & _ & _ & H3 & E).
      fold t_initial in H3. assert (dt0 = d) by congruence. subst dt0.
      do 3 eexists. exact E.
Qed.

Lemma initial_residuals_witness :
  exists loss pde b0 b1 initial_loss_df,
    compute_loss model x t x_idx t_idx C_default = Ok loss
    /\ dfdt model x_idx (zero_time x_idx) 1 = Ok initial_loss_df
    /\ loss = Bin BAdd (Bin BAdd (Bin BAdd (Bin BAdd
                (Mean (Un (UPow 2) pde))
                (Mean (Un (UPow 2) b0)))
                (Mean (Un (UPow 2) b1)))
                (Mean (Un (UPow 2)
                   (Bin BSub (forward model x_idx (zero_time x_idx))
                             (initial_condition x_idx)))))
                (Mean (Un (UPow 2) initial_loss_df)).
Proof.
  destruct compute_loss_run as [loss [Hl _]].
  destruct (initial_residuals x_domain t_domain n_points_x n_points_t)
    as (_ & _ & _ & _ & d & D & _ & _ & _ & _ & H).
  destruct (H C_default loss Hl) as (pde & b0 & b1 & E).
  exists loss, pde, b0, b1, d. split; [exact Hl|]. split; [exact D|exact E].
Defined.

(** * Further properties of the code *)

(** ** [df]: orders compose *)

(** X1: [df] of order [m + n] is [df] of order [n] on the result of [df] of
    order [m]; an error of the first [m] passes is the error of the whole. *)
Theorem df_composes (output input_var : expr) (m n : nat) :
  df output input_var (m + n) = (d <- df output input_var m ;; df d input_var n).
Proof.
  unfold df. revert output.
  induction m as [|m IH]; intros output; cbn [Nat.add df_loop bind]; [reflexivity|].
  destruct (grad output input_var (ones_like 0 false input_var)) as [d|e];
    cbn [bind]; [apply IH|reflexivity].
Qed.

(** ** [df]: when the first pass returns *)

Lemma vjp_connected (target e : expr) :
  depends_on target e = true -> forall g, exists r, vjp target e g = Some r.
Proof.
  induction e; cbn [depends_on]; intros H g; cbn [vjp];
    (destruct (expr_eqb _ target); [now exists g|]); cbn [orb] in H;
    try discriminate; auto.
  - apply orb_prop in H.
    assert (Hacc : forall p q : option expr,
               (depends_on target e1 = true -> exists r, p = Some r) ->
               (depends_on target e2 = true -> exists r, q = Some r) ->
               exists r, accumulate p q = Some r).
    { intros p q Hp Hq. destruct H as [H|H].
      - destruct (Hp H) as [r ->]. destruct q; eexists; reflexivity.
      - destruct (Hq H) as [r ->]. destruct p; eexists; reflexivity. }
    destruct o; apply Hacc; auto.
  - apply orb_prop in H. destruct H as [H|H].
    + destruct (IHe1 H (Narrow1 0 (nth 1 (shp e1) O) g)) as [r ->].
      destruct (vjp target e2 _); eexists; reflexivity.
    + destruct (IHe2 H (Narrow1 (nth 1 (shp e1) O) (nth 1 (shp e2) O) g)) as [r ->].
      destruct (vjp target e1 _); eexists; reflexivity.
Qed.

(** X2: The first pass of [df] returns exactly when [output] and [input_var]
    have one shape, both are tracked, and [input_var] occurs in the graph of
    [output]. *)
Theorem df_first_pass_returns_iff (output input_var : expr) :
  (exists d, df output input_var 1 = Ok d)
  <-> ((exists s, shape_of output = Some s /\ shape_of input_var = Some s)
       /\ requires_grad output = true
       /\ requires_grad input_var = true
       /\ depends_on input_var output = true).
Proof.
  unfold df. cbn [df_loop]. split.
  - intros [d H].
    destruct (grad output input_var (ones_like 0 false input_var)) as [d'|] eqn:G;
      [|discriminate].
    destruct (grad_ones_shape _ _ G) as [s [H1 [H2 _]]].
    split; [now exists s|].
    unfold grad in G. rewrite H2 in G. cbn [ones_like shape_of] in G.
    destruct (negb (shape_eqb _ _)); [discriminate|].
    destruct (requires_grad output); [|discriminate].
    destruct (requires_grad input_var); [|discriminate]. cbn [negb] in G.
    split; [reflexivity|]. split; [reflexivity|].
    destruct (depends_on input_var output) eqn:D; [reflexivity|].
    now rewrite (vjp_independent _ _ D) in G.
  - intros [[s [H1 H2]] [H3 [H4 H5]]].
    destruct (vjp_connected _ _ H5 (ones_like 0 false input_var)) as [r Hr].
    exists r. unfold grad. rewrite H1. cbn [ones_like shape_of].
    rewrite (@shp_of _ _ H2), shape_eqb_refl, H3, H4. cbn [negb].
    rewrite Hr. reflexivity.
Qed.

(** X3: A tracked tensor of the shape of a tracked [output] that [output] was
    not computed from makes [df] raise, whatever the order (from 1 on). *)
Theorem df_disconnected_input_raises (output input_var : expr) (s : shape) (k : nat) :
  shape_of output = Some s -> shape_of input_var = Some s ->
  requires_grad output = true -> requires_grad input_var = true ->
  depends_on input_var output = false ->
  df output input_var (S k) = Err UnusedInput.
Proof.
  intros H1 H2 H3 H4 H5. unfold df. cbn [df_loop]. unfold grad.
  rewrite H1. cbn [ones_like shape_of].
  rewrite (@shp_of _ _ H2), shape_eqb_refl, H3, H4. cbn [negb].
  now rewrite (vjp_independent _ _ H5 (ones_like 0 false input_var)).
Qed.

Lemma df_disconnected_input_raises_witness :
  df (forward model x_idx x_idx) (zero_time x_idx) 2 = Err UnusedInput.
Proof.
  apply (@df_disconnected_input_raises (forward model x_idx x_idx) (zero_time x_idx)
           [100%nat; 1%nat] 1); reflexivity.
Defined.

(** ** [dfdx] and [dfdt]: derivatives of every order *)

Section Orders.

Variable st : store.
Variables A B : expr.
Variable n : nat.

Hypothesis HA : atomic A = true.
Hypothesis HB : atomic B = true.
Hypothesis HAB : A <> B.
Hypothesis SA : shape_of A = Some [n; 1%nat].
Hypothesis SB : shape_of B = Some [n; 1%nat].
Hypothesis NB : forall g, vjp B A g = None.

Lemma df_loop_derivative (order : nat) :
  forall e d,
  rowwise A B n e = true -> shape_of e = Some [n; 1%nat] ->
  df_loop order e B = Ok d ->
  rowwise A B n d = true /\ shape_of d = Some [n; 1%nat]
  /\ forall av,
       derivative_of_order order (fun bv => nth 0 (row st A B av bv e) 0)
         (fun bv => nth 0 (row st A B av bv d) 0).
Proof.
  induction order as [|k IH]; intros e d Re Se D; cbn [df_loop] in D.
  - injection D as <-. split; [exact Re|]. split; [exact Se|]. intros av u. reflexivity.
  - destruct (grad e B (ones_like 0 false B)) as [d1|] eqn:G; [|discriminate].
    cbn [bind] in D.
    destruct (@grad_derivative st A B n HA HB HAB SA SB NB e d1 Re Se G) as (R1 & S1 & D1).
    destruct (IH d1 d R1 S1 D) as (R2 & S2 & D2).
    split; [exact R2|]. split; [exact S2|]. intros av.
    exists (fun bv => nth 0 (row st A B av bv d1) 0). split.
    + intros u. apply D1.
    + apply D2.
Qed.

End Orders.

Lemma derivative_of_order_ext (n : nat) :
  forall f f' g : R -> R,
  (forall u, f u = f' u) -> derivative_of_order n f g -> derivative_of_order n f' g.
Proof.
  destruct n as [|k]; intros f f' g E; cbn [derivative_of_order].
  - intros H u. now rewrite H, E.
  - intros [h [H1 H2]]. exists h. split; [|exact H2].
    intros u. eapply derivable_pt_lim_ext; [|exact (H1 u)]. exact E.
Qed.

(** The derivative of a given order is unique. *)
Lemma derivative_of_order_unique (n : nat) :
  forall f g1 g2 : R -> R,
  derivative_of_order n f g1 -> derivative_of_order n f g2 -> forall u, g1 u = g2 u.
Proof.
  induction n as [|k IH]; intros f g1 g2; cbn [derivative_of_order].
  - intros H1 H2 u. now rewrite H1, H2.
  - intros [f1 [D1 H1]] [f2 [D2 H2]]. apply (IH f1); [exact H1|].
    apply derivative_of_order_ext with (f := f2); [|exact H2].
    intros u. exact (uniqueness_limite f u _ _ (D2 u) (D1 u)).
Qed.

Section PartialOrders.

Variable st : store.
Variable model : simple_NN2.
Variables x t : expr.
Variable n : nat.

Hypothesis Ax : atomic x = true.
Hypothesis At : atomic t = true.
Hypothesis Sx : shape_of x = Some [n; 1%nat].
Hypothesis St : shape_of t = Some [n; 1%nat].
Hypothesis Ixt : depends_on t x = false.
Hypothesis Itx : depends_on x t = false.

Lemma df_forward_shape (v : expr) (order : nat) (d : expr) :
  shape_of v = Some [n; 1%nat] -> (1 <= order)%nat ->
  df (forward model x t) v order = Ok d ->
  shape_of (forward model x t) = Some [n; 1%nat].
Proof.
  intros Sv Ho D. destruct order as [|k]; [lia|].
  unfold df in D. cbn [df_loop] in D.
  destruct (grad (forward model x t) v (ones_like 0 false v)) as [d1|] eqn:G;
    [|discriminate].
  destruct (grad_ones_shape _ _ G) as [s [H1 [H2 _]]]. congruence.
Qed.

Lemma dfdx_order (order : nat) (d : expr) (k : nat) :
  (1 <= order)%nat -> dfdx model x t order = Ok d -> (k < n)%nat ->
  exists g : R -> R,
    derivative_of_order order (fun u => f_point st model u (nth k (data st t) 0)) g
    /\ nth k (data st d) 0 = g (nth k (data st x) 0).
Proof.
  intros Ho D Hk. unfold dfdx in D.
  pose proof (independent_neq Ixt) as Hneq.
  pose proof (@df_forward_shape _ _ _ Sx Ho D) as Sf.
  assert (Re : rowwise t x n (forward model x t) = true)
    by (rewrite (@forward_rowwise st model x t n Ax At), !expr_eqb_refl;
        now rewrite !orb_true_r).
  destruct (@df_loop_derivative st t x n At Ax (not_eq_sym Hneq) St Sx
              (vjp_independent _ _ Itx) order _ _ Re Sf D) as (R2 & S2 & H).
  exists (fun u => nth 0 (row st t x (nth k (data st t) 0) u d) 0). split.
  - eapply derivative_of_order_ext; [|exact (H (nth k (data st t) 0))].
    intros u. cbv beta. now apply forward_row_x.
  - exact (@data_point st t x n At Ax (not_eq_sym Hneq) St Sx _ k R2 S2 Hk).
Qed.

Lemma dfdt_order (order : nat) (d : expr) (k : nat) :
  (1 <= order)%nat -> dfdt model x t order = Ok d -> (k < n)%nat ->
  exists g : R -> R,
    derivative_of_order order (fun u => f_point st model (nth k (data st x) 0) u) g
    /\ nth k (data st d) 0 = g (nth k (data st t) 0).
Proof.
  intros Ho D Hk. unfold dfdt in D.
  pose proof (independent_neq Itx) as Hneq.
  pose proof (@df_forward_shape _ _ _ St Ho D) as Sf.
  assert (Re : rowwise x t n (forward model x t) = true)
    by (rewrite (@forward_rowwise st model x t n Ax At), !expr_eqb_refl;
        now rewrite !orb_true_r).
  destruct (@df_loop_derivative st x t n Ax At (not_eq_sym Hneq) Sx St
              (vjp_independent _ _ Ixt) order _ _ Re Sf D) as (R2 & S2 & H).
  exists (fun u => nth 0 (row st x t (nth k (data st x) 0) u d) 0). split.
  - eapply derivative_of_order_ext; [|exact (H (nth k (data st x) 0))].
    intros u. cbv beta. now apply forward_row_t.
  - exact (@data_point st x t n Ax At (not_eq_sym Hneq) Sx St _ k R2 S2 Hk).
Qed.

End PartialOrders.

(** X4: For every order from 1 on for which [dfdx] returns, its result holds at
    each point the derivative of that order of f in x, the time of the
    point fixed. *)
Theorem dfdx_gives_derivative_of_order (st : store) (model : simple_NN2) (x t : expr)
    (n order : nat) (d : expr) (k : nat) :
  atomic x = true -> atomic t = true ->
  shape_of x = Some [n; 1%nat] -> shape_of t = Some [n; 1%nat] ->
  depends_on t x = false -> depends_on x t = false ->
  (1 <= order)%nat -> dfdx model x t order = Ok d -> (k < n)%nat ->
  exists g : R -> R,
    derivative_of_order order (fun u => f_point st model u (nth k (data st t) 0)) g
    /\ nth k (data st d) 0 = g (nth k (data st x) 0).
Proof.
  intros Ax At Sx St Ixt Itx. now apply dfdx_order.
Qed.

Lemma dfdx_gives_derivative_of_order_witness :
  exists d (g : R -> R),
    dfdx model x t 3 = Ok d
    /\ derivative_of_order 3 (fun u => f_point st0 model u (nth 7 (data st0 t) 0)) g
    /\ nth 7 (data st0 d) 0 = g (nth 7 (data st0 x) 0).
Proof.
  assert (D : exists d, dfdx model x t 3 = Ok d) by (vm_compute; eexists; reflexivity).
  destruct D as [d D].
  assert (Ixt : depends_on t x = false) by (vm_compute; reflexivity).
  assert (Itx : depends_on x t = false) by (vm_compute; reflexivity).
  assert (H3 : (1 <= 3)%nat) by lia.
  assert (H7 : (7 < 100 * 150)%nat) by (apply Nat.ltb_lt; vm_compute; reflexivity).
  destruct (@dfdx_gives_derivative_of_order st0 model x t (100 * 150) 3 d 7
              eq_refl eq_refl eq_refl eq_refl Ixt Itx H3 D H7) as [g [H1 H2]].
  exists d, g. split; [exact D|]. split; [exact H1|exact H2].
Defined.

(** X5: The same for [dfdt]: the derivative of that order of f in t, the place
    of the point fixed. *)
Theorem dfdt_gives_derivative_of_order (st : store) (model : simple_NN2) (x t : expr)
    (n order : nat) (d : expr) (k : nat) :
  atomic x = true -> atomic t = true ->
  shape_of x = Some [n; 1%nat] -> shape_of t = Some [n; 1%nat] ->
  depends_on t x = false -> depends_on x t = false ->
  (1 <= order)%nat -> dfdt model x t order = Ok d -> (k < n)%nat ->
  exists g : R -> R,
    derivative_of_order order (fun u => f_point st model (nth k (data st x) 0) u) g
    /\ nth k (data st d) 0 = g (nth k (data st t) 0).
Proof.
  intros Ax At Sx St Ixt Itx. now apply dfdt_order.
Qed.

Lemma dfdt_gives_derivative_of_order_witness :
  exists d (g : R -> R),
    dfdt model x t 1 = Ok d
    /\ derivative_of_order 1 (fun u => f_point st0 model (nth 7 (data st0 x) 0) u) g
    /\ nth 7 (data st0 d) 0 = g (nth 7 (data st0 t) 0).
Proof.
  assert (D : exists d, dfdt model x t 1 = Ok d) by (vm_compute; eexists; reflexivity).
  destruct D as [d D].
  assert (Ixt : depends_on t x = false) by (vm_compute; reflexivity).
  assert (Itx : depends_on x t = false) by (vm_compute; reflexivity).
  assert (H1 : (1 <= 1)%nat) by lia.
  assert (H7 : (7 < 100 * 150)%nat) by (apply Nat.ltb_lt; vm_compute; reflexivity).
  destruct (@dfdt_gives_derivative_of_order st0 model x t (100 * 150) 1 d 7
              eq_refl eq_refl eq_refl eq_refl Ixt Itx H1 D H7) as [g [G1 G2]].
  exists d, g. split; [exact D|]. split; [exact G1|exact G2].
Defined.

(** ** [simple_NN2.forward] *)

(** X6: On two-dimensional inputs the network returns exactly when the two have
    the same number of rows and two columns together (the width of the first
    linear layer); the result then has one column. *)
Theorem forward_shape_2d (a b : expr) (n m ca cb : nat) :
  shape_of a = Some [n; ca] -> shape_of b = Some [m; cb] ->
  shape_of (forward model a b)
  = if (Nat.eqb n m && Nat.eqb (ca + cb) 2)%bool then Some [n; 1%nat] else None.
Proof.
  intros Ha Hb. unfold forward, model, simple_NN2_init.
  cbn [linear_tanh_stack sequential apply_layer shape_of]. rewrite Ha, Hb.
  destruct (Nat.eqb n m); [|reflexivity]. cbn [andb].
  destruct (Nat.eqb (ca + cb) 2); reflexivity.
Qed.

Lemma forward_shape_2d_witness :
  shape_of (forward model x_idx t_idx) = None
  /\ shape_of (forward model x x) = Some [(100 * 150)%nat; 1%nat]
  /\ shape_of (forward model (Cat1 x t) t) = None.
Proof.
  split; [|split].
  - exact (@forward_shape_2d x_idx t_idx 100 150 1 1 eq_refl eq_refl).
  - exact (@forward_shape_2d x x (100 * 150) (100 * 150) 1 1 eq_refl eq_refl).
  - exact (@forward_shape_2d (Cat1 x t) t (100 * 150) (100 * 150) 2 1 eq_refl eq_refl).
Defined.

(** X7: The network evaluates its batch row by row: for inputs of one column
    and [n] rows the output has [n] entries, and entry [k] is f at row [k] of
    the inputs. *)
Theorem forward_evaluates_f_row_by_row (st : store) (a b : expr) (n k : nat) :
  shape_of a = Some [n; 1%nat] -> shape_of b = Some [n; 1%nat] -> (k < n)%nat ->
  length (data st (forward model a b)) = n
  /\ nth k (data st (forward model a b)) 0
     = f_point st model (nth k (data st a) 0) (nth k (data st b) 0).
Proof.
  intros Ha Hb Hk.
  destruct (@forward_points st a b n Ha Hb) as [Sf Df].
  split; [rewrite (data_length st _ Sf), numel_2; lia|].
  pose proof (data_length st _ Ha) as La. pose proof (data_length st _ Hb) as Lb.
  rewrite numel_2, Nat.mul_1_r in La, Lb.
  rewrite Df, nth_map_lt with (d := (0, 0)) by (rewrite length_combine; lia).
  rewrite combine_nth by lia. reflexivity.
Qed.

Lemma forward_evaluates_f_row_by_row_witness :
  nth 0 (data st0 (forward model x_idx (zero_time x_idx))) 0
  = f_point st0 model (nth 0 (data st0 x_idx) 0) (nth 0 (data st0 (zero_time x_idx)) 0).
Proof.
  assert (H0 : (0 < 100)%nat) by (apply Nat.lt_0_succ).
  exact (proj2 (@forward_evaluates_f_row_by_row st0 x_idx (zero_time x_idx) 100 0
                  eq_refl eq_refl H0)).
Defined.




(** X9: Whatever the parameters hold, the network is differentiable in x and in
    t at every point. *)
Theorem network_is_differentiable (st : store) (xv tv : R) :
  (exists dx, derivable_pt_lim (fun u => f_point st model u tv) xv dx)
  /\ (exists dt, derivable_pt_lim (fun u => f_point st model xv u) tv dt).
Proof.
  set (a := Fill 1 true 0 [1%nat; 1%nat]). set (b := Fill 2 true 0 [1%nat; 1%nat]).
  assert (Rt : rowwise a b 1 (forward model a b) = true) by reflexivity.
  assert (Rx : rowwise b a 1 (forward model a b) = true) by reflexivity.
  assert (Sf : shape_of (forward model a b) = Some [1%nat; 1%nat]) by reflexivity.
  split.
  - exists (nth 0 (tangent st b a tv xv (forward model a b)) 0).
    eapply derivable_pt_lim_ext;
      [|exact (@tangent_correct st b a 1 eq_refl eq_refl _ _ Rx Sf tv xv O)].
    intros u. cbv beta. exact (@forward_row_x st model a b eq_refl eq_refl eq_refl u tv).
  - exists (nth 0 (tangent st a b xv tv (forward model a b)) 0).
    eapply derivable_pt_lim_ext;
      [|exact (@tangent_correct st a b 1 eq_refl eq_refl _ _ Rt Sf xv tv O)].
    intros u. cbv beta. exact (@forward_row_t st model a b eq_refl eq_refl eq_refl xv u).
Qed.

(** ** [initial_condition] *)

Lemma initial_condition_shape (x : expr) (s : shape) :
  shape_of x = Some s -> shape_of (initial_condition x) = Some [numel s; 1%nat].
Proof.
  intros Sx. unfold initial_condition. cbn [shape_of]. rewrite Sx. apply resolve_dims_col.
Qed.

(** X10: For an input of any shape, [initial_condition] returns a column with one
    row per element, holding 0.5 sin(2 pi x) for each element x in order;
    no value exceeds 0.5 in absolute value. *)
Theorem initial_condition_profile (st : store) (x : expr) (s : shape) :
  shape_of x = Some s ->
  shape_of (initial_condition x) = Some [numel s; 1%nat]
  /\ data st (initial_condition x) = map (fun xv => 1 / 2 * sin (2 * PI * xv)) (data st x)
  /\ forall k, Rabs (nth k (data st (initial_condition x)) 0) <= 1 / 2.
Proof.
  intros Sx.
  assert (D : data st (initial_condition x)
              = map (fun xv => 1 / 2 * sin (2 * PI * xv)) (data st x)).
  { unfold initial_condition. cbn [data]. rewrite !map_map.
    apply map_ext. intros xv. cbn [un_val sval].
    replace (2 / 1 * PI * xv) with (2 * PI * xv) by field. reflexivity. }
  split; [|split; [exact D|]].
  - now apply initial_condition_shape.
  - intros k. rewrite D.
    destruct (Nat.lt_ge_cases k (length (data st x))) as [Hk|Hk].
    + rewrite nth_map_lt with (d := 0) by exact Hk.
      pose proof (SIN_bound (2 * PI * nth k (data st x) 0)) as [H1 H2].
      apply Rabs_le. lra.
    + rewrite nth_overflow by (now rewrite length_map). rewrite Rabs_R0. lra.
Qed.

Lemma initial_condition_profile_witness :
  shape_of (initial_condition (Linspace id_x_idx true (SRat 0 1) (SRat 1 1) 100))
  = Some [100%nat; 1%nat].
Proof.
  exact (proj1 (@initial_condition_profile st0
                  (Linspace id_x_idx true (SRat 0 1) (SRat 1 1) 100) [100%nat] eq_refl)).
Defined.

(** ** [compute_loss] *)







(** X13: The wave speed enters the loss through its square only: two speeds with
    the same square, such as C and -C, give the same loss. *)
Theorem loss_depends_on_C_squared (model : simple_NN2) (x t x_idx t_idx : expr)
    (C C' : scalar) (loss : expr) (st : store) :
  compute_loss model x t x_idx t_idx C = Ok loss ->
  sval st C <> 0 ->
  sval st C' ^ 2 = sval st C ^ 2 ->
  exists loss', compute_loss model x t x_idx t_idx C' = Ok loss'
                /\ data st loss' = data st loss.
Proof.
  intros H HC E.
  destruct (compute_loss_inv _ _ _ _ _ _ H) as (d2x & d2t & dt0 & H1 & H2 & H3 & ->).
  unfold compute_loss. rewrite H1, H2. cbn [bind]. rewrite H3. cbn [bind].
  eexists. split; [reflexivity|].
  assert (P : data st (pde_residual d2x d2t C') = data st (pde_residual d2x d2t C)).
  { unfold pde_residual. cbn [data]. f_equal. apply map_ext. intros v.
    cbn [un_val sval]. now rewrite E. }
  cbn [data]. rewrite P. reflexivity.
Qed.

Lemma loss_depends_on_C_squared_witness :
  exists loss loss',
    compute_loss model x t x_idx t_idx C_default = Ok loss
    /\ compute_loss model x t x_idx t_idx (SRat (-1) 1) = Ok loss'
    /\ data st0 loss' = data st0 loss.
Proof.
  destruct compute_loss_run as [loss [Hl _]].
  assert (HC : sval st0 C_default <> 0) by (cbn [sval C_default]; lra).
  assert (E : sval st0 (SRat (-1) 1) ^ 2 = sval st0 C_default ^ 2)
    by (cbn [sval C_default]; lra).
  destruct (@loss_depends_on_C_squared model x t x_idx t_idx C_default (SRat (-1) 1)
              loss st0 Hl HC E) as [loss' [H1 H2]].
  exists loss, loss'. split; [exact Hl|]. split; [exact H1|exact H2].
Defined.

Lemma grad_returns (output input_var d : expr) :
  grad output input_var (ones_like 0 false input_var) = Ok d ->
  requires_grad output = true /\ requires_grad input_var = true
  /\ depends_on input_var output = true.
Proof.
  intros G. unfold grad in G.
  destruct (shape_of output); [|discriminate]. cbn [ones_like shape_of] in G.
  destruct (negb (shape_eqb _ _)); [discriminate|].
  destruct (requires_grad output); [|discriminate].
  destruct (requires_grad input_var); [|discriminate]. cbn [negb] in G.
  split; [reflexivity|]. split; [reflexivity|].
  destruct (depends_on input_var output) eqn:D; [reflexivity|].
  now rewrite (vjp_independent _ _ D) in G.
Qed.

(** X14: [compute_loss] returns only on tracked grid tensors [x] and [t] of one
    shape, which is also the shape of the network's output on them, and on an
    [x_idx] on which, with the zero time column, the network's output has the
    shape of [x_idx]; on anything else [compute_loss] raises. *)
Theorem compute_loss_returns_only_on_tracked_columns (model : simple_NN2)
    (x t x_idx t_idx : expr) (C : scalar) (loss : expr) :
  compute_loss model x t x_idx t_idx C = Ok loss ->
  (requires_grad x = true /\ requires_grad t = true)
  /\ (exists s, shape_of x = Some s /\ shape_of t = Some s
                /\ shape_of (forward model x t) = Some s)
  /\ (exists s, shape_of x_idx = Some s
                /\ shape_of (forward model x_idx (zero_time x_idx)) = Some s).
Proof.
  intros H.
  destruct (compute_loss_inv _ _ _ _ _ _ H) as (d2x & d2t & dt0 & H1 & H2 & H3 & _).
  unfold dfdx in H1. unfold dfdt in H2, H3. cbn zeta in H1, H2, H3.
  destruct (df_order_2 _ _ H1) as (d1x & s & G1 & _ & Sx & Sf & _).
  destruct (df_order_2 _ _ H2) as (d1t & s' & G2 & _ & St & Sf' & _).
  assert (s' = s) by congruence. subst s'.
  destruct (grad_returns _ _ G1) as (_ & Rx & _).
  destruct (grad_returns _ _ G2) as (_ & Rt & _).
  unfold df in H3. cbn [df_loop] in H3.
  destruct (grad _ _ _) as [d|] eqn:G3 in H3; [|discriminate].
  destruct (grad_ones_shape _ _ G3) as [s0 [A1 [A2 _]]].
  split; [split; assumption|]. split; [now exists s|].
  exists s0. split; [|exact A2].
  unfold zero_time, zeros_like in A1. cbn [set_requires_grad shape_of] in A1.
  unfold shp in A1. destruct (shape_of x_idx) as [sx|] eqn:Sxi; [exact A1|].
  (* an [x_idx] without a shape cannot be concatenated *)
  exfalso. clear - A2 Sxi. unfold forward in A2. cbn zeta in A2.
  destruct (sequential_shape_inv _ _ _ A2) as [sa Hsa].
  cbn [shape_of] in Hsa. rewrite Sxi in Hsa. discriminate.
Qed.

Lemma compute_loss_returns_only_on_tracked_columns_witness :
  requires_grad x = true /\ requires_grad t = true
  /\ exists s, shape_of x = Some s /\ shape_of t = Some s
               /\ shape_of (forward model x t) = Some s.
Proof.
  destruct compute_loss_run as [loss [Hl _]].
  destruct (@compute_loss_returns_only_on_tracked_columns model x t x_idx t_idx C_default
              loss Hl) as [[H1 H2] [H3 _]].
  split; [exact H1|]. split; [exact H2|exact H3].
Defined.

(** ** The grid with a single point in space *)

(** X15: With one point in space the grid holds the lower bound only: [x[0]] and
    [x[-1]] then hold the same value, and the column of the right boundary
    is filled with the lower bound; the upper bound is never sampled. *)
Theorem single_point_grid_boundaries_coincide (x_domain t_domain : scalar * scalar)
    (nt : nat) (st : store) :
  (1 <= nt)%nat ->
  let g := build x_domain 1 t_domain nt in
  data st (c_x_idx g) = [sval st (fst x_domain)]
  /\ data st (Index 0 (c_x g)) = [sval st (fst x_domain)]
  /\ data st (Index (-1) (c_x g)) = [sval st (fst x_domain)]
  /\ data st (boundary_column id_boundary_x1 (-1) (c_x g) (c_t_idx g))
     = repeat (sval st (fst x_domain)) nt.
Proof.
  intros Hn g.
  destruct (grid_data x_domain t_domain 1 nt st) as (Dxi & _ & Dx & _).
  fold g in Dxi, Dx.
  assert (L : linspace_data (sval st (fst x_domain)) (sval st (snd x_domain)) 1
              = [sval st (fst x_domain)]).
  { unfold linspace_data. cbn [seq map INR]. f_equal. ring. }
  rewrite L in Dxi, Dx. cbn [flat_map] in Dx. rewrite app_nil_r in Dx.
  assert (N : forall k, (k < nt)%nat -> nth k (data st (c_x g)) 0 = sval st (fst x_domain))
    by (intros k Hk; rewrite Dx; now apply nth_repeat_lt).
  assert (I0 : py_index 0 (1 * nt) = Some O) by (apply py_index_first; lia).
  assert (I1 : py_index (-1) (1 * nt) = Some (1 * nt - 1)%nat) by (apply py_index_last; lia).
  destruct (@boundary_column_value x_domain t_domain 1 nt st id_boundary_x0 0 _ I0)
    as (_ & E0 & _).
  destruct (@boundary_column_value x_domain t_domain 1 nt st id_boundary_x1 (-1) _ I1)
    as (_ & E1 & B1).
  fold g in E0, E1, B1. rewrite N in E0 by lia. rewrite N in E1, B1 by lia.
  split; [exact Dxi|]. split; [exact E0|]. split; [exact E1|exact B1].
Qed.

Lemma single_point_grid_boundaries_coincide_witness :
  data st0 (Index (-1) (c_x (build x_domain 1 t_domain 150))) = [0 / 1].
Proof.
  assert (H : (1 <= 150)%nat) by (apply Nat.leb_le; reflexivity).
  exact (proj1 (proj2 (proj2 (@single_point_grid_boundaries_coincide x_domain t_domain
                                150 st0 H)))).
Defined.

(** ** The empty grid *)

Lemma shape_Expand_none (sh : shape) (a : expr) :
  shape_of a = None -> shape_of (Expand sh a) = None.
Proof.
  intros H. cbn [shape_of]. now rewrite H.
Qed.

Lemma shape_Bin_none_r (o : binop) (a b : expr) :
  shape_of b = None -> shape_of (Bin o a b) = None.
Proof.
  intros H. cbn [shape_of]. rewrite H. now destruct (shape_of a).
Qed.

(** X16: With no point in space or none in time the grid tensors are empty, and
    [x[0]] raises: the boundary column cannot be built, and a loss that
    [compute_loss] would return has no value. *)
Theorem empty_grid_has_no_boundary (x_domain t_domain : scalar * scalar) (nx nt : nat)
    (C : scalar) (st : store) :
  (nx * nt = 0)%nat ->
  let g := build x_domain nx t_domain nt in
  shape_of (Index 0 (c_x g)) = None
  /\ shape_of (boundary_column id_boundary_x0 0 (c_x g) (c_t_idx g)) = None
  /\ forall loss,
       compute_loss model (c_x g) (c_t g) (c_x_idx g) (c_t_idx g) C = Ok loss ->
       eval st loss = None.
Proof.
  intros H0 g.
  destruct (grid_shapes x_domain t_domain nx nt) as (_ & St & Sx & _). fold g in St, Sx.
  rewrite H0 in Sx.
  assert (Si : shape_of (Index 0 (c_x g)) = None)
    by (cbn [shape_of]; now rewrite Sx).
  assert (Sb : shape_of (boundary_column id_boundary_x0 0 (c_x g) (c_t_idx g)) = None).
  { assert (Hi : shp (Index 0 (c_x g)) = []) by (unfold shp; now rewrite Si).
    assert (Hb : boundary_column id_boundary_x0 0 (c_x g) (c_t_idx g)
                 = Bin BMul (Fill id_boundary_x0 true 1 [nt; 1%nat])
                     (Expand [nt; 1%nat] (Index 0 (c_x g)))).
    { unfold boundary_column, tmul, to_device, ones_like.
      rewrite (@shp_of _ _ St), Hi. reflexivity. }
    rewrite Hb. apply shape_Bin_none_r. apply shape_Expand_none. exact Si. }
  split; [exact Si|]. split; [exact Sb|].
  intros loss Hl.
  destruct (compute_loss_inv _ _ _ _ _ _ Hl) as (d2x & d2t & dt0 & _ & _ & _ & ->).
  assert (Sf : shape_of (forward model (boundary_column id_boundary_x0 0 (c_x g) (c_t_idx g))
                           (c_t_idx g)) = None).
  { destruct (shape_of (forward model _ _)) as [s|] eqn:E; [|reflexivity].
    unfold forward in E. cbn zeta in E.
    destruct (sequential_shape_inv _ _ _ E) as [sa Hsa].
    cbn [shape_of] in Hsa. rewrite Sb in Hsa. discriminate. }
  unfold eval. cbn [shape_of]. rewrite Sf.
  destruct (shape_of (pde_residual d2x d2t C)); reflexivity.
Qed.

Lemma empty_grid_has_no_boundary_witness :
  let g := build x_domain 100 t_domain 0 in
  exists loss,
    compute_loss model (c_x g) (c_t g) (c_x_idx g) (c_t_idx g) C_default = Ok loss
    /\ eval st0 loss = None.
Proof.
  intros g.
  assert (H : (100 * 0 = 0)%nat) by reflexivity.
  assert (R : exists loss,
             compute_loss model (c_x g) (c_t g) (c_x_idx g) (c_t_idx g) C_default = Ok loss)
    by (vm_compute; eexists; reflexivity).
  destruct R as [loss Hl]. exists loss. split; [exact Hl|].
  exact (proj2 (proj2 (@empty_grid_has_no_boundary x_domain t_domain 100 0 C_default st0 H))
           loss Hl).
Defined.

(** ** The training loop, update by update *)

(** X17: The run ends with the learner reached by 3000 updates, each made of a
    cleared buffer, a backward pass at the current parameters and one step;
    the line of epoch k shows the loss at the parameters before the update of
    epoch k, so the first line is the loss of the untrained network. *)
Theorem printed_loss_precedes_the_update :
  forall (optimizer gradients : Type) (zero_grad : gradients -> gradients)
         (backward : store -> expr -> gradients -> gradients)
         (step : optimizer -> gradients -> (nat -> list R) -> optimizer * (nat -> list R))
         (format_7f : R -> string)
         (p : nat -> list R) (o : optimizer) (g : gradients),
  exists loss final,
    compute_loss model x t x_idx t_idx C_default = Ok loss
    /\ run zero_grad backward step format_7f p o g = Ok final
    /\ (params final, opt final, grads final)
       = after_updates zero_grad backward step 3000 loss (p, o, g)
    /\ stdout final
       = map (fun ep => progress_line format_7f ep
                          (loss_after zero_grad backward step ep loss (p, o, g)))
           [0; 300; 600; 900; 1200; 1500; 1800; 2100; 2400; 2700]%nat
    /\ loss_after zero_grad backward step 0 loss (p, o, g)
       = hd 0 (data (mkStore p (fun _ => 0)) loss).
Proof.
  intros.
  destruct (run_updates zero_grad backward step format_7f p o g)
    as (loss & final & H1 & H2 & H3 & H4 & _).
  rewrite every_300th_epoch in H4.
  exists loss, final. repeat (split; [assumption|]). reflexivity.
Qed.

Section ClearedGradients.

Variable optimizer : Type.
Variable gradients : Type.
Variable zero_grad : gradients -> gradients.
Variable backward : store -> expr -> gradients -> gradients.
Variable step : optimizer -> gradients -> (nat -> list R) -> optimizer * (nat -> list R).

(** The part of the [.grad] fields that belongs to the parameters. *)
Variable G : Type.
Variable part : gradients -> G.
Variable z : G.

Hypothesis zero_grad_clears : forall a, part (zero_grad a) = z.
Hypothesis backward_adds :
  forall st l a b, part a = part b -> part (backward st l a) = part (backward st l b).
Hypothesis step_reads : forall o a b p, part a = part b -> step o a p = step o b p.

Lemma after_updates_fresh (loss : expr) (cleared : gradients) (p : nat -> list R)
    (o : optimizer) (g : gradients) (k : nat) :
  part cleared = z ->
  fst (after_updates zero_grad backward step k loss (p, o, g))
  = fresh_updates backward step k cleared loss (p, o)
  /\ part (snd (after_updates zero_grad backward step (S k) loss (p, o, g)))
     = part (backward (mkStore (fst (fresh_updates backward step k cleared loss (p, o)))
                         (fun _ => 0)) loss cleared).
Proof.
  intros Hc.
  assert (F : forall n,
             fst (after_updates zero_grad backward step n loss (p, o, g))
             = fresh_updates backward step n cleared loss (p, o)).
  { induction n as [|n IH]; [reflexivity|].
    cbn [after_updates fresh_updates]. rewrite <- IH.
    destruct (after_updates zero_grad backward step n loss (p, o, g)) as [[pk ok] gk].
    cbn [fst]. unfold update, fresh_update.
    assert (E : part (backward (mkStore pk (fun _ => 0)) loss (zero_grad gk))
                = part (backward (mkStore pk (fun _ => 0)) loss cleared))
      by (apply backward_adds; now rewrite zero_grad_clears, Hc).
    rewrite (@step_reads ok _ _ pk E).
    destruct (step ok _ pk) as [o' p']. reflexivity. }
  split; [apply F|].
  cbn [after_updates]. rewrite <- F.
  destruct (after_updates zero_grad backward step k loss (p, o, g)) as [[pk ok] gk].
  cbn [fst]. unfold update.
  destruct (step ok _ pk) as [o' p']. cbn [snd].
  apply backward_adds. now rewrite zero_grad_clears, Hc.
Qed.

End ClearedGradients.

(** X18: When [zero_grad] resets the gradients of the parameters (whatever
    else the [.grad] fields hold and keep), the backward pass adds to them
    what depends on the loss and the parameters only, and the optimizer reads
    no other gradients, then the run is 3000 steps each taken with the
    gradient of the current loss alone: no step sees a gradient of an
    earlier epoch, and the buffer left at the end holds, for the parameters,
    the gradient of the last epoch only. *)
Theorem steps_use_the_gradient_of_the_current_loss :
  forall (optimizer gradients G : Type) (zero_grad : gradients -> gradients)
         (backward : store -> expr -> gradients -> gradients)
         (step : optimizer -> gradients -> (nat -> list R) -> optimizer * (nat -> list R))
         (format_7f : R -> string) (part : gradients -> G) (z : G)
         (p : nat -> list R) (o : optimizer) (g : gradients),
  (forall a, part (zero_grad a) = z) ->
  (forall st l a b, part a = part b -> part (backward st l a) = part (backward st l b)) ->
  (forall o a b p, part a = part b -> step o a p = step o b p) ->
  exists loss final,
    compute_loss model x t x_idx t_idx C_default = Ok loss
    /\ run zero_grad backward step format_7f p o g = Ok final
    /\ forall cleared, part cleared = z ->
         (params final, opt final) = fresh_updates backward step 3000 cleared loss (p, o)
         /\ part (grads final)
            = part (backward
                      (mkStore (fst (fresh_updates backward step 2999 cleared loss (p, o)))
                         (fun _ => 0)) loss cleared).
Proof.
  intros until g. intros Hz Hb Hs.
  destruct (run_updates zero_grad backward step format_7f p o g)
    as (loss & final & H1 & H2 & H3 & _).
  exists loss, final. split; [exact H1|]. split; [exact H2|].
  intros cleared Hc.
  destruct (@after_updates_fresh optimizer gradients zero_grad backward step G part z
              Hz Hb Hs loss cleared p o g 3000 Hc) as [F _].
  destruct (@after_updates_fresh optimizer gradients zero_grad backward step G part z
              Hz Hb Hs loss cleared p o g 2999 Hc) as [_ P].
  rewrite <- H3 in F, P. cbn [fst snd] in F, P. split; [exact F|exact P].
Qed.

Lemma counted_fresh_updates (loss : expr) (p : nat -> list R) (k : nat) :
  fresh_updates (fun _ _ (c : nat * nat) => (S (fst c), S (snd c)))
    (fun (o : nat) (c : nat * nat) (q : nat -> list R) => ((o + fst c)%nat, q))
    k (O, O) loss (p, O)
  = (p, k).
Proof.
  induction k as [|k IH]; [reflexivity|].
  cbn [fresh_updates]. rewrite IH. unfold fresh_update. cbn [fst]. f_equal. lia.
Qed.

(** A buffer of two counters, the first for the parameters and cleared by
    [zero_grad], the second for the grid leaves and never cleared; the
    optimizer adds the first counter to its state.  After the run the state
    is 3000: every step saw the counter at 1. *)
Lemma steps_use_the_gradient_of_the_current_loss_witness :
  exists final,
    run (fun c : nat * nat => (O, snd c))
        (fun _ _ (c : nat * nat) => (S (fst c), S (snd c)))
        (fun (o : nat) (c : nat * nat) (q : nat -> list R) => ((o + fst c)%nat, q))
        (fun _ => "0.000000"%string) (fun _ => []) O (7%nat, 7%nat) = Ok final
    /\ opt final = 3000%nat.
Proof.
  destruct (@steps_use_the_gradient_of_the_current_loss nat (nat * nat)%type nat
              (fun c : nat * nat => (O, snd c))
              (fun _ _ (c : nat * nat) => (S (fst c), S (snd c)))
              (fun (o : nat) (c : nat * nat) (q : nat -> list R) => ((o + fst c)%nat, q))
              (fun _ => "0.000000"%string) (@fst nat nat) O (fun _ => []) O (7%nat, 7%nat))
    as (loss & final & _ & H2 & H3).
  - intros a. reflexivity.
  - intros st l a b E. cbn [fst]. now rewrite E.
  - intros o a b q E. now rewrite E.
  - exists final. split; [exact H2|].
    destruct (H3 (O, O) eq_refl) as [F _]. rewrite counted_fresh_updates in F.
    now injection F.
Defined.

(** ** The prediction *)

Lemma chunks_nth (r c : nat) :
  forall (l : list R) (i j : nat),
  (i < r)%nat -> (j < c)%nat ->
  nth j (nth i (chunks r c l) []) 0 = nth (i * c + j) l 0.
Proof.
  induction r as [|r IH]; intros l i j Hi Hj; [lia|].
  cbn [chunks]. destruct i as [|i]; cbn [nth].
  - rewrite nth_firstn. apply Nat.ltb_lt in Hj. now rewrite Hj.
  - rewrite IH by lia. rewrite nth_skipn. f_equal. cbn [Nat.mul]. lia.
Qed.

Lemma resolve_dims_100 (m : nat) :
  resolve_dims [100; -1]%Z m
  = if Nat.eqb (m mod 100) 0 then Some [100%nat; (m / 100)%nat] else None.
Proof.
  unfold resolve_dims.
  change (known_dims [100; -1]%Z) with [100%Z].
  change (existsb (fun d => Z.ltb d 0) [100%Z]) with false.
  change (Z.to_nat (fold_right Z.mul 1%Z [100%Z])) with 100%nat.
  change (length [100; -1]%Z - length [100%Z])%nat with 1%nat.
  change (Nat.eqb 100 0) with false. cbv iota.
  destruct (Nat.eqb (m mod 100) 0); reflexivity.
Qed.

Section Prediction.

Variables (x_domain t_domain : scalar * scalar) (nx nt : nat) (st : store).

Let g : collocation := build x_domain nx t_domain nt.

Lemma prediction_shape :
  shape_of (prediction model (c_x g) (c_t g))
  = if Nat.eqb ((nx * nt) mod 100) 0 then Some [100%nat; (nx * nt / 100)%nat] else None.
Proof.
  destruct (grid_shapes x_domain t_domain nx nt) as (_ & _ & Sx & St). fold g in Sx, St.
  destruct (@forward_points st (c_x g) (c_t g) _ Sx St) as [Sf _].
  unfold prediction. cbn zeta. cbn [shape_of]. cbn [shape_of] in Sf. rewrite Sf.
  rewrite numel_2, Nat.mul_1_r. apply resolve_dims_100.
Qed.

Lemma prediction_data (i j : nat) :
  (i < nx)%nat -> (j < nt)%nat ->
  nth (i * nt + j) (data st (prediction model (c_x g) (c_t g))) 0
  = f_point st model (nth i (data st (c_x_idx g)) 0) (nth j (data st (c_t_idx g)) 0).
Proof.
  intros Hi Hj.
  destruct (grid_shapes x_domain t_domain nx nt) as (_ & _ & Sx & St). fold g in Sx, St.
  destruct (grid_data x_domain t_domain nx nt st) as (Dxi & Dti & Dx & Dt).
  fold g in Dxi, Dti, Dx, Dt.
  destruct (@forward_points st (c_x g) (c_t g) _ Sx St) as [_ Df].
  pose proof (data_length st _ Sx) as Lx. pose proof (data_length st _ St) as Lt.
  rewrite numel_2, Nat.mul_1_r in Lx, Lt.
  assert (Hk : (i * nt + j < nx * nt)%nat) by nia.
  unfold prediction. cbn zeta. cbn [data]. cbn [data] in Df. rewrite Df.
  rewrite nth_map_lt with (d := (0, 0)) by (rewrite length_combine; lia).
  rewrite combine_nth by lia. cbn [fst snd]. f_equal.
  - rewrite Dx, Dxi. apply nth_flat_repeat; [now rewrite linspace_length|exact Hj].
  - rewrite Dt, Dti.
    rewrite <- (linspace_length (sval st (fst t_domain)) (sval st (snd t_domain)) nt) at 1.
    apply nth_concat_repeat; [exact Hi|now rewrite linspace_length].
Qed.

End Prediction.

Lemma prediction_rows (x_domain t_domain : scalar * scalar) (nt : nat) (st : store) :
  let g := build x_domain 100 t_domain nt in
  exists rows,
    numpy st (prediction model (c_x g) (c_t g)) = Some rows
    /\ length rows = 100%nat
    /\ (forall i, (i < 100)%nat -> length (nth i rows []) = nt)
    /\ forall i j, (i < 100)%nat -> (j < nt)%nat ->
         nth j (nth i rows []) 0
         = f_point st model (nth i (data st (c_x_idx g)) 0) (nth j (data st (c_t_idx g)) 0).
Proof.
  intros g.
  pose proof (prediction_shape x_domain t_domain 100 nt st) as S. fold g in S.
  rewrite (Nat.mul_comm 100 nt), Nat.Div0.mod_mul, Nat.div_mul in S by discriminate.
  cbn [Nat.eqb] in S.
  assert (L : length (data st (prediction model (c_x g) (c_t g))) = (100 * nt)%nat)
    by (rewrite (data_length st _ S), numel_2; reflexivity).
  exists (chunks 100 nt (data st (prediction model (c_x g) (c_t g)))).
  split; [unfold numpy; now rewrite S|]. split; [apply chunks_length|]. split.
  - intros i Hi. pose proof (chunks_rows 100 nt _ L) as F.
    rewrite Forall_forall in F. apply F. apply nth_In. now rewrite chunks_length.
  - intros i j Hi Hj. rewrite chunks_nth by assumption.
    exact (@prediction_data x_domain t_domain 100 nt st i j Hi Hj).
Qed.

(** X19: With 100 points in space, as the module has, the prediction is a table
    of 100 rows, one per point in space, and one column per point in time:
    its entry (i, j) is f(x_i, t_j). *)
Theorem prediction_table (x_domain t_domain : scalar * scalar) (nt : nat) (st : store) :
  let g := build x_domain 100 t_domain nt in
  exists rows,
    numpy st (prediction model (c_x g) (c_t g)) = Some rows
    /\ length rows = 100%nat
    /\ (forall i, (i < 100)%nat -> length (nth i rows []) = nt)
    /\ forall i j, (i < 100)%nat -> (j < nt)%nat ->
         nth j (nth i rows []) 0
         = f_point st model (nth i (data st (c_x_idx g)) 0) (nth j (data st (c_t_idx g)) 0).
Proof.
  intros g. destruct (prediction_rows x_domain t_domain nt st) as (rows & H).
  exists rows. exact H.
Qed.

(** X20: The literal 100 of the reshape ties the prediction to the number of grid
    points: when 100 does not divide it, the reshape raises. *)
Theorem prediction_needs_a_multiple_of_100 (x_domain t_domain : scalar * scalar)
    (nx nt : nat) (st : store) :
  (nx * nt) mod 100 <> 0%nat ->
  let g := build x_domain nx t_domain nt in
  shape_of (prediction model (c_x g) (c_t g)) = None
  /\ numpy st (prediction model (c_x g) (c_t g)) = None.
Proof.
  intros H g.
  pose proof (prediction_shape x_domain t_domain nx nt st) as S. fold g in S.
  apply Nat.eqb_neq in H. rewrite H in S. split; [exact S|]. unfold numpy. now rewrite S.
Qed.

Lemma prediction_needs_a_multiple_of_100_witness :
  numpy st0 (prediction model (c_x (build x_domain 30 t_domain 15))
                              (c_t (build x_domain 30 t_domain 15))) = None.
Proof.
  assert (H : (30 * 15) mod 100 <> 0%nat) by (apply Nat.eqb_neq; vm_compute; reflexivity).
  exact (proj2 (@prediction_needs_a_multiple_of_100 x_domain t_domain 30 15 st0 H)).
Defined.
